(** * lotto-data: [scripts/sync_from_sheet.py]

    A shallow embedding of the synchronisation script: the header
    normaliser, the row validator, the selection of the latest draw and
    the writer of [lotto.json], together with the parts of the Python
    runtime the script leans on ([str] methods, [int], [re.match],
    [datetime.strptime], [csv.DictReader], [sorted], [json.dumps]).

    A Python [str] is a sequence of Unicode code points: it is modelled
    as a list of [N].  A Python [int] is unbounded: it is modelled as
    [Z]. *)

From Stdlib Require Import String Ascii DecimalZ.
From stdpp Require Import base option list gmap sorting.

Local Open Scope N_scope.

(** ** Python strings *)

Abbreviation pystr := (list N).

Module PyStr.

(** The source file is UTF-8 text.  [utf8_decode] reads the bytes of a
    literal as the code points the interpreter sees. *)
Fixpoint utf8_decode (bs : list N) : pystr :=
  match bs with
  | [] => []
  | b0 :: r0 =>
      if b0 <? 0x80 then b0 :: utf8_decode r0 else
      match r0 with
      | [] => [b0]
      | b1 :: r1 =>
          if b0 <? 0xE0 then
            ((b0 - 0xC0) * 64 + (b1 - 0x80)) :: utf8_decode r1
          else
          match r1 with
          | [] => [b0; b1]
          | b2 :: r2 =>
              if b0 <? 0xF0 then
                ((b0 - 0xE0) * 4096 + (b1 - 0x80) * 64 + (b2 - 0x80))
                  :: utf8_decode r2
              else
              match r2 with
              | [] => [b0; b1; b2]
              | b3 :: r3 =>
                  ((b0 - 0xF0) * 262144 + (b1 - 0x80) * 4096
                   + (b2 - 0x80) * 64 + (b3 - 0x80)) :: utf8_decode r3
              end
          end
      end
  end.

Definition lit (s : string) : pystr :=
  utf8_decode (N_of_ascii <$> list_ascii_of_string s).

(** *** Character classes *)

Definition in_range (lo hi c : N) : bool := (lo <=? c) && (c <=? hi).

Definition is_ascii (c : N) : bool := c <? 128.
Definition ascii_digit (c : N) : bool := in_range 48 57 c.
Definition ascii_upper (c : N) : bool := in_range 65 90 c.
Definition ascii_lower (c : N) : bool := in_range 97 122 c.
Definition ascii_alnum (c : N) : bool :=
  ascii_digit c || ascii_upper c || ascii_lower c.
Definition ascii_tolower (c : N) : N :=
  if ascii_upper c then c + 32 else c.

(** The block of precomposed Hangul syllables, U+AC00..U+D7A3: letters
    (category Lo) without case. *)
Definition hangul_syllable (c : N) : bool := in_range 0xAC00 0xD7A3 c.

(** [str.isspace] for one character, the set [str.strip()] removes. *)
Definition isspace (c : N) : bool :=
  in_range 0x09 0x0D c || in_range 0x1C 0x20 c
  || (c =? 0x85) || (c =? 0xA0) || (c =? 0x1680)
  || in_range 0x2000 0x200A c || (c =? 0x2028) || (c =? 0x2029)
  || (c =? 0x202F) || (c =? 0x205F) || (c =? 0x3000).

(** The characters of [isspace] are separators and controls: none is a
    letter or a number, none has case.  The rest of the Unicode
    character database is data of the interpreter, not of the script.
    It is a parameter: the lower-case mapping (which may look at the
    text around a character, as for the Greek final sigma, and may give
    several characters), the alphanumeric property and the decimal digit
    value (a digit is below ten, and no space is a digit). *)
Class UnicodeData := {
  ucd_tolower : pystr → N → pystr → pystr;
  ucd_isalnum : N → bool;
  ucd_decimal : N → option N;
  ucd_decimal_lt : ∀ c d, ucd_decimal c = Some d → d < 10;
  ucd_decimal_not_space : ∀ c d, ucd_decimal c = Some d → isspace c = false
}.

Section with_ucd.
Context {U : UnicodeData}.

(** [ch.isalnum()] *)
Definition isalnum (c : N) : bool :=
  if is_ascii c then ascii_alnum c
  else if hangul_syllable c then true
  else if isspace c then false
  else ucd_isalnum c.

(** The decimal digit value of a character ([Py_UNICODE_TODECIMAL]),
    which is what [\d] and [int] recognise. *)
Definition todecimal (c : N) : option N :=
  if is_ascii c then (if ascii_digit c then Some (c - 48) else None)
  else if hangul_syllable c then None
  else ucd_decimal c.

Definition isdecimal (c : N) : bool := bool_decide (is_Some (todecimal c)).

(** The lower-case form of the character [c] standing between
    [before] and [after]. *)
Definition tolower_at (before : pystr) (c : N) (after : pystr) : pystr :=
  if is_ascii c then [ascii_tolower c]
  else if hangul_syllable c then [c]
  else if isspace c then [c]
  else ucd_tolower before c after.

Fixpoint lower_from (before_rev : pystr) (s : pystr) : pystr :=
  match s with
  | [] => []
  | c :: rest =>
      tolower_at (reverse before_rev) c rest
        ++ lower_from (c :: before_rev) rest
  end.

(** [s.lower()] *)
Definition lower (s : pystr) : pystr := lower_from [] s.

End with_ucd.

Fixpoint lstrip (s : pystr) : pystr :=
  match s with
  | [] => []
  | c :: rest => if isspace c then lstrip rest else s
  end.

Definition rstrip (s : pystr) : pystr := reverse (lstrip (reverse s)).

(** [s.strip()] *)
Definition strip (s : pystr) : pystr := rstrip (lstrip s).

(** Python truth value of a [str]: false exactly for the empty one. *)
Definition truthy (s : pystr) : bool :=
  match s with [] => false | _ => true end.

(** [sep.join(parts)] *)
Fixpoint join (sep : pystr) (parts : list pystr) : pystr :=
  match parts with
  | [] => []
  | [p] => p
  | p :: ps => p ++ sep ++ join sep ps
  end.

(** [str(n)] for an [int]. *)
Fixpoint uint_digits (d : Decimal.uint) : pystr :=
  match d with
  | Decimal.Nil => []
  | Decimal.D0 r => 48 :: uint_digits r
  | Decimal.D1 r => 49 :: uint_digits r
  | Decimal.D2 r => 50 :: uint_digits r
  | Decimal.D3 r => 51 :: uint_digits r
  | Decimal.D4 r => 52 :: uint_digits r
  | Decimal.D5 r => 53 :: uint_digits r
  | Decimal.D6 r => 54 :: uint_digits r
  | Decimal.D7 r => 55 :: uint_digits r
  | Decimal.D8 r => 56 :: uint_digits r
  | Decimal.D9 r => 57 :: uint_digits r
  end.

Definition str_of_int (z : Z) : pystr :=
  match Z.to_int z with
  | Decimal.Pos d => uint_digits d
  | Decimal.Neg d => 45 :: uint_digits d
  end.

End PyStr.

Import PyStr.

Notation "'u' s" := (PyStr.lit s%string) (at level 1, s at level 0, only parsing).

(** A table that knows nothing beyond ASCII and Hangul: enough to run the
    script on such text. *)
Definition plain_ucd : UnicodeData :=
  {| ucd_tolower := λ _ c _, [c];
     ucd_isalnum := λ _, false;
     ucd_decimal := λ _, None;
     ucd_decimal_lt := λ c d (H : None = Some d),
       False_ind _ (eq_ind None (λ o, if o is None then True else False) I _ H);
     ucd_decimal_not_space := λ c d (H : None = Some d),
       False_ind _ (eq_ind None (λ o, if o is None then True else False) I _ H) |}.

(** ** Exceptions

    An exception is a class and a message.  The classes are those of
    the exceptions the script raises and of those the system raises on
    a file or on the output ([OSError], and [UnicodeError] for a text
    that cannot be encoded).  A message is kept as the pieces of the
    f-string that builds it: literal text (including [{row_num}] and
    [{field_name}], already text) and [{value!r}], the [repr] of a
    string, which is left symbolic. *)

Inductive exn_class :=
  | RuntimeError | ValueError | CsvError | IndexError
  | OSError | UnicodeError.

Inductive fragment :=
  | Text (s : pystr)
  | Repr (s : pystr).

Record exn := Exn { exn_cls : exn_class; exn_msg : list fragment }.

Inductive result (A : Type) :=
  | Ok (a : A)
  | Raise (e : exn).
Arguments Ok {A} a.
Arguments Raise {A} e.

#[global] Instance result_bind : MBind result := λ A B k r,
  match r with
  | Ok a => k a
  | Raise e => Raise e
  end.
#[global] Instance result_ret : MRet result := λ A a, Ok a.

#[global] Instance exn_class_eq_dec : EqDecision exn_class.
Proof. solve_decision. Defined.
#[global] Instance fragment_eq_dec : EqDecision fragment.
Proof. solve_decision. Defined.
#[global] Instance exn_eq_dec : EqDecision exn.
Proof. solve_decision. Defined.

(** ** [int(value)]

    [int] applied to a [str], base 10, as CPython does it: the text is
    first brought to ASCII (a non-ASCII space becomes a blank, a
    non-ASCII decimal digit its ASCII digit, anything else non-ASCII is
    refused), then read as blanks, a sign, digits with single
    underscores between them, blanks.  A text of more digits than the
    limit of the interpreter on such conversions is refused as well:
    the limit is the default one, which the script does not change. *)

Module PyInt.
Section with_ucd.
Context {U : UnicodeData}.

Fixpoint to_ascii (s : pystr) : option pystr :=
  match s with
  | [] => Some []
  | c :: rest =>
      if c <? 127 then cons c <$> to_ascii rest
      else if isspace c then cons 32 <$> to_ascii rest
      else match todecimal c with
           | Some d => cons (48 + d) <$> to_ascii rest
           | None => None
           end
  end.

(** [Py_ISSPACE] *)
Definition c_isspace (c : N) : bool := in_range 9 13 c || (c =? 32).

Fixpoint skip_spaces (s : pystr) : pystr :=
  match s with
  | [] => []
  | c :: rest => if c_isspace c then skip_spaces rest else s
  end.

(** The digit loop: [prev_us] tells whether the previous character
    was an underscore, [acc] is the value read so far and [digits]
    the number of digits read.  Two underscores in a row, or one at
    the end, are refused. *)
Fixpoint scan_digits (prev_us : bool) (acc : Z) (digits : nat) (s : pystr)
  : option (Z * nat * pystr) :=
  match s with
  | [] => if prev_us then None else Some (acc, digits, [])
  | c :: rest =>
      if ascii_digit c then
        scan_digits false (acc * 10 + Z.of_N (c - 48))%Z (S digits) rest
      else if c =? 95 then
        (if prev_us then None else scan_digits true acc digits rest)
      else
        (if prev_us then None else Some (acc, digits, s))
  end.

(** [sys.int_info.default_max_str_digits] *)
Definition max_str_digits : Z := 4300.

Definition from_ascii (s : pystr) : option Z :=
  let s1 := skip_spaces s in
  let '(negative, s2) :=
    match s1 with
    | c :: r =>
        if c =? 43 then (false, r)
        else if c =? 45 then (true, r)
        else (false, s1)
    | [] => (false, s1)
    end in
  if (if s2 is c :: _ then c =? 95 else false) then None
  else
    '(n, digits, s3) ← scan_digits false 0%Z 0 s2;
    if (max_str_digits <? Z.of_nat digits)%Z then None
    else if decide (digits = 0%nat) then None
    else match skip_spaces s3 with
         | [] => Some (if negative then - n else n)%Z
         | _ => None
         end.

Definition int (s : pystr) : option Z := to_ascii s ≫= from_ascii.

End with_ucd.
End PyInt.

(** ** [re.match(r"^\d{4}\.\d{2}\.\d{2}$", value)] *)

Module Re.
Section with_ucd.
Context {U : UnicodeData}.

(** [\d{n}]: [n] decimal digits (of any script). *)
Fixpoint digits (n : nat) (s : pystr) : option pystr :=
  match n with
  | O => Some s
  | S n' =>
      match s with
      | c :: rest => if isdecimal c then digits n' rest else None
      | [] => None
      end
  end.

Definition char (c : N) (s : pystr) : option pystr :=
  match s with
  | c' :: rest => if c' =? c then Some rest else None
  | [] => None
  end.

(** [$] without [re.MULTILINE]: the end of the text, or just before
    a line feed that ends it. *)
Definition at_end (s : pystr) : bool :=
  match s with
  | [] => true
  | [c] => c =? 10
  | _ => false
  end.

Definition match_date (value : pystr) : bool :=
  let m : option pystr :=
    r1 ← digits 4 value; r2 ← char 46 r1; r3 ← digits 2 r2;
    r4 ← char 46 r3; digits 2 r4 in
  match m with
  | Some rest => at_end rest
  | None => false
  end.

End with_ucd.
End Re.

(** ** [datetime.strptime(value, "%Y.%m.%d")] *)

Module Datetime.
Section with_ucd.
Context {U : UnicodeData}.

(** A character class of the pattern a directive stands for. *)
Inductive cls :=
  | Digit                (* \d    *)
  | Between (lo hi : N)  (* [a-b] *)
  | Blank.               (* ' '   *)

Definition cls_match (k : cls) (c : N) : bool :=
  match k with
  | Digit => isdecimal c
  | Between lo hi => in_range lo hi c
  | Blank => c =? 32
  end.

Fixpoint seq_match (ks : list cls) (s : pystr) : option (pystr * pystr) :=
  match ks with
  | [] => Some ([], s)
  | k :: ks' =>
      match s with
      | c :: rest =>
          if cls_match k c then
            '(g, r) ← seq_match ks' rest; Some (c :: g, r)
          else None
      | [] => None
      end
  end.

(** An alternation gives its matches in the order of its branches;
    the matcher takes the first one the rest of the pattern agrees
    with. *)
Definition alt_match (alts : list (list cls)) (s : pystr)
  : list (pystr * pystr) :=
  omap (λ ks, seq_match ks s) alts.

(** [%Y]: \d\d\d\d *)
Definition dir_Y : list (list cls) := [[Digit; Digit; Digit; Digit]].
(** [%m]: 1[0-2]|0[1-9]|[1-9] *)
Definition dir_m : list (list cls) :=
  [[Between 49 49; Between 48 50]; [Between 48 48; Between 49 57];
   [Between 49 57]].
(** [%d]: 3[0-1]|[1-2]\d|0[1-9]|[1-9]| [1-9] *)
Definition dir_d : list (list cls) :=
  [[Between 51 51; Between 48 49]; [Between 49 50; Digit];
   [Between 48 48; Between 49 57]; [Between 49 57];
   [Blank; Between 49 57]].

Definition dot (s : pystr) : list pystr :=
  match s with
  | c :: rest => if c =? 46 then [rest] else []
  | [] => []
  end.

(** The matches of [%m.%d], in the order the matcher tries them. *)
Definition month_day_matches (s : pystr) : list (pystr * pystr * pystr) :=
  '(gm, r1) ← alt_match dir_m s; r2 ← dot r1;
  '(gd, r3) ← alt_match dir_d r2;
  [(gm, gd, r3)].

(** The groups [Y], [m], [d] of the first match of the pattern at the
    start of the text, and what follows the match. *)
Definition format_match (s : pystr)
  : option (pystr * pystr * pystr * pystr) :=
  head ('(gY, r1) ← alt_match dir_Y s; r2 ← dot r1;
        '(gm, gd, r3) ← month_day_matches r2;
        [(gY, gm, gd, r3)]).

Definition is_leap (year : Z) : bool :=
  ((year mod 4 =? 0) && (negb (year mod 100 =? 0) || (year mod 400 =? 0)))%Z.

Definition days_in_month (year month : Z) : Z :=
  (if month =? 2 then (if is_leap year then 29 else 28)
   else if (month =? 4) || (month =? 6) || (month =? 9) || (month =? 11)
        then 30 else 31)%Z.

(** The check of the [date] constructor. *)
Definition valid_date (year month day : Z) : bool :=
  ((1 <=? year) && (year <=? 9999) && (1 <=? month) && (month <=? 12)
   && (1 <=? day) && (day <=? days_in_month year month))%Z.

(** [None] stands for the [ValueError] of [strptime]: no match,
    text left over after the match, or an impossible date. *)
Definition strptime_Ymd (s : pystr) : option (Z * Z * Z) :=
  '(gY, gm, gd, rest) ← format_match s;
  if rest is [] then
    year ← PyInt.int gY;
    month ← PyInt.int gm;
    day ← PyInt.int gd;
    if valid_date year month day then Some (year, month, day) else None
  else None.

End with_ucd.
End Datetime.

(** ** [str.splitlines] and [csv.DictReader] *)

Module Csv.

(** The characters [str.splitlines()] breaks a text at. *)
Definition is_linebreak (c : N) : bool :=
  in_range 0x0A 0x0D c || in_range 0x1C 0x1E c
  || (c =? 0x85) || (c =? 0x2028) || (c =? 0x2029).

(** [cur] holds, reversed, the characters of the line being read.  A
    carriage return followed by a line feed is one break.  What
    follows the last break is a line only when it is not empty. *)
Fixpoint splitlines_from (cur : pystr) (s : pystr) : list pystr :=
  match s with
  | [] => if cur is [] then [] else [reverse cur]
  | c :: rest =>
      if is_linebreak c then
        reverse cur ::
          match rest with
          | c' :: rest' =>
              if (c =? 13) && (c' =? 10) then splitlines_from [] rest'
              else splitlines_from [] rest
          | [] => splitlines_from [] rest
          end
      else splitlines_from (c :: cur) rest
  end.

Definition splitlines (s : pystr) : list pystr := splitlines_from [] s.

(** The reader of the [excel] dialect: the delimiter is a comma, the
    quote character the double quote, a doubled quote inside a quoted
    field stands for one, there is no escape character and the reader
    is not strict. *)
Inductive state :=
  | START_RECORD | START_FIELD | IN_FIELD | IN_QUOTED_FIELD
  | QUOTE_IN_QUOTED_FIELD | EAT_CRNL.

Record ReaderObj := {
  r_state : state;
  r_fields : list pystr;   (* the fields of the record so far *)
  r_field : pystr;         (* the field being read, reversed *)
  r_field_len : N
}.

Definition field_size_limit : N := 131072.
Definition delimiter : N := 44.
Definition quotechar : N := 34.

Definition set_state (self : ReaderObj) (st : state) : ReaderObj :=
  {| r_state := st; r_fields := r_fields self;
     r_field := r_field self; r_field_len := r_field_len self |}.

Definition parse_reset : ReaderObj :=
  {| r_state := START_RECORD; r_fields := []; r_field := []; r_field_len := 0 |}.

Definition parse_save_field (self : ReaderObj) : ReaderObj :=
  {| r_state := r_state self;
     r_fields := r_fields self ++ [reverse (r_field self)];
     r_field := []; r_field_len := 0 |}.

Definition parse_add_char (self : ReaderObj) (c : N) : result ReaderObj :=
  if field_size_limit <=? r_field_len self then
    Raise (Exn CsvError [Text (u"field larger than field limit (131072)")])
  else
    Ok {| r_state := r_state self; r_fields := r_fields self;
          r_field := c :: r_field self;
          r_field_len := r_field_len self + 1 |}.

Definition is_newline (c : N) : bool := (c =? 10) || (c =? 13).

(** One step of the reader; [None] is the end of a line. *)
Definition parse_process_char (self : ReaderObj) (c : option N)
  : result ReaderObj :=
  let start_field :=
    match c with
    | None => Ok (set_state (parse_save_field self) START_RECORD)
    | Some ch =>
        if is_newline ch then Ok (set_state (parse_save_field self) EAT_CRNL)
        else if ch =? quotechar then Ok (set_state self IN_QUOTED_FIELD)
        else if ch =? delimiter then
          Ok (set_state (parse_save_field self) START_FIELD)
        else self' ← parse_add_char self ch; Ok (set_state self' IN_FIELD)
    end in
  match r_state self with
  | START_RECORD =>
      match c with
      | None => Ok self
      | Some ch =>
          if is_newline ch then Ok (set_state self EAT_CRNL) else start_field
      end
  | START_FIELD => start_field
  | IN_FIELD =>
      match c with
      | None => Ok (set_state (parse_save_field self) START_RECORD)
      | Some ch =>
          if is_newline ch then Ok (set_state (parse_save_field self) EAT_CRNL)
          else if ch =? delimiter then
            Ok (set_state (parse_save_field self) START_FIELD)
          else parse_add_char self ch
      end
  | IN_QUOTED_FIELD =>
      match c with
      | None => Ok self
      | Some ch =>
          if ch =? quotechar then Ok (set_state self QUOTE_IN_QUOTED_FIELD)
          else parse_add_char self ch
      end
  | QUOTE_IN_QUOTED_FIELD =>
      match c with
      | None => Ok (set_state (parse_save_field self) START_RECORD)
      | Some ch =>
          if ch =? quotechar then
            self' ← parse_add_char self ch; Ok (set_state self' IN_QUOTED_FIELD)
          else if ch =? delimiter then
            Ok (set_state (parse_save_field self) START_FIELD)
          else if is_newline ch then
            Ok (set_state (parse_save_field self) EAT_CRNL)
          else self' ← parse_add_char self ch; Ok (set_state self' IN_FIELD)
      end
  | EAT_CRNL =>
      match c with
      | None => Ok (set_state self START_RECORD)
      | Some ch =>
          if is_newline ch then Ok self
          else Raise (Exn CsvError
                 [Text (u"new-line character seen in unquoted field - do you need to open the file with newline=''?")])
      end
  end.

Fixpoint process_chars (self : ReaderObj) (line : pystr) : result ReaderObj :=
  match line with
  | [] => Ok self
  | c :: rest => self' ← parse_process_char self (Some c); process_chars self' rest
  end.

Definition process_line (self : ReaderObj) (line : pystr) : result ReaderObj :=
  self' ← process_chars self line; parse_process_char self' None.

(** The records the reader yields over the given lines, in order, and
    the exception that ends the iteration if one is raised.  A record
    is complete when a line leaves the reader at [START_RECORD]; when
    the lines run out inside a quoted field the record read so far is
    yielded. *)
Fixpoint records_from (self : ReaderObj) (lines : list pystr)
  : list (list pystr) * option exn :=
  match lines with
  | [] =>
      if negb (r_field_len self =? 0)
         || (if r_state self is IN_QUOTED_FIELD then true else false)
      then ([r_fields (parse_save_field self)], None)
      else ([], None)
  | line :: rest =>
      match process_line self line with
      | Raise e => ([], Some e)
      | Ok self' =>
          if r_state self' is START_RECORD then
            let '(recs, e) := records_from parse_reset rest in
            (r_fields self' :: recs, e)
          else records_from self' rest
      end
  end.

Definition reader (lines : list pystr) : list (list pystr) * option exn :=
  records_from parse_reset lines.

(** *** [DictReader]

    A row is a [dict] in insertion order.  Its keys are the field
    names, its values a cell or [None] (a short row); the cells a long
    row has beyond the field names go under the key [None]. *)
Record raw_row := {
  items : list (pystr * option pystr);
  rest_item : option (list pystr)
}.

(** [d[key] = value] on a [dict] kept in insertion order. *)
Fixpoint dict_set {V} (d : list (pystr * V)) (key : pystr) (value : V)
  : list (pystr * V) :=
  match d with
  | [] => [(key, value)]
  | (k, v) :: d' =>
      if decide (k = key) then (k, value) :: d'
      else (k, v) :: dict_set d' key value
  end.

Definition dict_row (fieldnames row : list pystr) : raw_row :=
  let d := foldl (λ d kv, dict_set d kv.1 (Some kv.2)) [] (zip fieldnames row) in
  let lf := length fieldnames in
  let lr := length row in
  if decide (lf < lr)%nat then
    {| items := d; rest_item := Some (drop lf row) |}
  else
    {| items := foldl (λ d key, dict_set d key None) d (drop lr fieldnames);
       rest_item := None |}.

(** The rows [DictReader] yields after the header: empty records are
    passed over. *)
Definition dict_rows (fieldnames : list pystr) (recs : list (list pystr))
  : list raw_row :=
  dict_row fieldnames <$> filter (λ r, r ≠ []) recs.

End Csv.

(** ** [json.dumps(data, ensure_ascii=False, indent=2)] *)

Module Json.

Inductive value :=
  | JInt (n : Z)
  | JStr (s : pystr).

Definition hex_digit (n : N) : N := if n <? 10 then 48 + n else 87 + n.

(** With [ensure_ascii=False] only the quote, the backslash and the
    control characters are escaped. *)
Definition escape_char (c : N) : pystr :=
  if c =? 34 then u"\" ++ [34]
  else if c =? 92 then u"\\"
  else if c =? 8 then u"\b"
  else if c =? 12 then u"\f"
  else if c =? 10 then u"\n"
  else if c =? 13 then u"\r"
  else if c =? 9 then u"\t"
  else if c <? 32 then u"\u00" ++ [hex_digit (c / 16); hex_digit (c mod 16)]
  else [c].

Definition encode_str (s : pystr) : pystr :=
  [34] ++ (s ≫= escape_char) ++ [34].

Definition encode (v : value) : pystr :=
  match v with
  | JInt n => str_of_int n
  | JStr s => encode_str s
  end.

Definition encode_item (kv : pystr * value) : pystr :=
  u"  " ++ encode_str kv.1 ++ u": " ++ encode kv.2.

(** A [dict] with [str] keys, in insertion order. *)
Definition dumps (data : list (pystr * value)) : pystr :=
  match data with
  | [] => u"{}"
  | _ => u"{" ++ [10] ++ join (u"," ++ [10]) (encode_item <$> data)
           ++ [10] ++ u"}"
  end.

End Json.

(** ** The script *)

Record Draw := {
  round : Z;
  num1 : Z; num2 : Z; num3 : Z; num4 : Z; num5 : Z; num6 : Z;
  bonus : Z;
  date : pystr
}.

(** The [dict] the script builds for a draw, in the order of its keys. *)
Definition draw_items (d : Draw) : list (pystr * Json.value) :=
  [(u"round", Json.JInt (round d));
   (u"num1", Json.JInt (num1 d)); (u"num2", Json.JInt (num2 d));
   (u"num3", Json.JInt (num3 d)); (u"num4", Json.JInt (num4 d));
   (u"num5", Json.JInt (num5 d)); (u"num6", Json.JInt (num6 d));
   (u"bonus", Json.JInt (bonus d));
   (u"date", Json.JStr (date d))].

(** What the script reads and writes: the environment variables, the
    network (the decoded body a GET of a URL gives, or the exception it
    raises), the files and the standard output.

    The system may refuse what the script asks of it.  [mkdir_raises]
    gives the exception, if any, of
    [Path(path).parent.mkdir(parents=True, exist_ok=True)].
    [write_text_raises] gives the exception, if any, of
    [Path(path).write_text(text, encoding="utf-8")] (the file cannot be
    opened or written, the text cannot be encoded), with what the file
    holds afterwards when the exception comes once the file has been
    opened, [None] when the file is as it was.  [print_raises] gives
    the exception, if any, of [print(line)] (the output is closed, the
    line cannot be encoded), with what has reached the output before
    it. *)
Record World := {
  environ : gmap pystr pystr;
  network : pystr → result pystr;
  files : gmap pystr pystr;
  stdout : list pystr;
  mkdir_raises : pystr → option exn;
  write_text_raises : pystr → pystr → option (exn * option pystr);
  print_raises : pystr → option (exn * list pystr)
}.

Definition set_files (f : gmap pystr pystr) (w : World) : World :=
  {| environ := environ w; network := network w; files := f;
     stdout := stdout w; mkdir_raises := mkdir_raises w;
     write_text_raises := write_text_raises w;
     print_raises := print_raises w |}.

Definition set_stdout (out : list pystr) (w : World) : World :=
  {| environ := environ w; network := network w; files := files w;
     stdout := out; mkdir_raises := mkdir_raises w;
     write_text_raises := write_text_raises w;
     print_raises := print_raises w |}.

(** A computation of the script: the world it leaves, and its value or
    the exception that ends it. *)
Definition io (A : Type) : Type := World → World * result A.

#[global] Instance io_ret : MRet io := λ A a w, (w, Ok a).
#[global] Instance io_bind : MBind io := λ A B k m w,
  match m w with
  | (w', Ok a) => k a w'
  | (w', Raise e) => (w', Raise e)
  end.

(** A computation that only looks at the world. *)
Definition reads {A} (f : World → result A) : io A := λ w, (w, f w).

Definition FIELD_ALIASES : gmap pystr (list pystr) :=
  list_to_map
    [(u"round", [u"round"; u"drawno"; u"drawnum"; u"draw"; u"회차"]);
     (u"date", [u"date"; u"drawdate"; u"추첨일"]);
     (u"num1", [u"num1"; u"n1"; u"no1"; u"번호1"]);
     (u"num2", [u"num2"; u"n2"; u"no2"; u"번호2"]);
     (u"num3", [u"num3"; u"n3"; u"no3"; u"번호3"]);
     (u"num4", [u"num4"; u"n4"; u"no4"; u"번호4"]);
     (u"num5", [u"num5"; u"n5"; u"no5"; u"번호5"]);
     (u"num6", [u"num6"; u"n6"; u"no6"; u"번호6"]);
     (u"bonus", [u"bonusnumber"; u"bonus"; u"보너스"; u"보너스번호"])].

Fixpoint pick_value (row : gmap pystr pystr) (aliases : list pystr)
  : option pystr :=
  match aliases with
  | [] => None
  | alias :: aliases' =>
      match row !! alias with
      | Some value => if truthy value then Some value else pick_value row aliases'
      | None => pick_value row aliases'
      end
  end.

(** Python truth value of a [str | None]. *)
Definition truthy_opt (v : option pystr) : bool :=
  match v with
  | Some s => truthy s
  | None => false
  end.

Definition get_csv_source_url (env : gmap pystr pystr) : result pystr :=
  let custom_url := env !! u"GOOGLE_SHEET_CSV_URL" in
  if truthy_opt custom_url then Ok (default [] custom_url)
  else
    let sheet_id := env !! u"GOOGLE_SHEET_ID" in
    if negb (truthy_opt sheet_id) then
      Raise (Exn RuntimeError
        [Text (u"GOOGLE_SHEET_ID is required (or set GOOGLE_SHEET_CSV_URL directly).")])
    else
      let gid := default (u"0") (env !! u"GOOGLE_SHEET_GID") in
      Ok (u"https://docs.google.com/spreadsheets/d/" ++ default [] sheet_id
          ++ u"/export?format=csv&gid=" ++ gid).

Definition fetch_csv_text (w : World) (url : pystr) : result pystr :=
  network w url.

(** [path.parent.mkdir(parents=True, exist_ok=True)] *)
Definition mkdir_parent (path : pystr) : io unit := λ w,
  match mkdir_raises w path with
  | Some e => (w, Raise e)
  | None => (w, Ok ())
  end.

(** [path.write_text(text, encoding="utf-8")] *)
Definition write_text (path text : pystr) : io unit := λ w,
  match write_text_raises w path text with
  | Some (e, Some held) => (set_files (<[path := held]> (files w)) w, Raise e)
  | Some (e, None) => (w, Raise e)
  | None => (set_files (<[path := text]> (files w)) w, Ok ())
  end.

Definition write_json (path : pystr) (data : list (pystr * Json.value))
  : io unit :=
  mkdir_parent path;;
  write_text path (Json.dumps data ++ [10]).

(** [draws[-1]] raises [IndexError] on an empty list. *)
Definition write_outputs (draws : list Draw) : io unit :=
  match last draws with
  | Some d => write_json (u"lotto.json") (draw_items d)
  | None => reads (λ _, Raise (Exn IndexError [Text (u"list index out of range")]))
  end.

Definition print (line : pystr) : io unit := λ w,
  match print_raises w line with
  | Some (e, out) => (set_stdout (stdout w ++ out) w, Raise e)
  | None => (set_stdout (stdout w ++ [line]) w, Ok ())
  end.

Section script.
Context {U : UnicodeData}.

Definition normalize_key (key : pystr) : pystr :=
  filter (λ ch, isalnum ch) (lower key).

Definition parse_int (value field_name : pystr) (row_num : Z) : result Z :=
  match PyInt.int value with
  | Some n => Ok n
  | None =>
      Raise (Exn ValueError
        [Text (u"row "); Text (str_of_int row_num);
         Text (u": invalid integer in '"); Text field_name;
         Text (u"' -> "); Repr value])
  end.

Definition parse_date (value field_name : pystr) (row_num : Z)
  : result pystr :=
  if negb (Re.match_date value) then
    Raise (Exn ValueError
      [Text (u"row "); Text (str_of_int row_num);
       Text (u": invalid date format in '"); Text field_name;
       Text (u"' -> "); Repr value; Text (u" (expected yyyy.mm.dd)")])
  else
    match Datetime.strptime_Ymd value with
    | Some _ => Ok value
    | None =>
        Raise (Exn ValueError
          [Text (u"row "); Text (str_of_int row_num);
           Text (u": invalid calendar date in '"); Text field_name;
           Text (u"' -> "); Repr value])
    end.

(** The dict comprehension at the head of the loop: the items of the
    raw row whose key is a non-empty [str], the key normalised and the
    value, [None] read as the empty text, stripped.  A later item
    replaces an earlier one with the same normalised key. *)
Definition normalize_row (raw_row : Csv.raw_row) : gmap pystr pystr :=
  foldl (λ row kv,
           if truthy kv.1
           then <[normalize_key kv.1 := strip (default [] kv.2)]> row
           else row)
        ∅ (Csv.items raw_row).

(** [n_values[i]]; the loop reads it only after it has checked that no
    element is [None]. *)
Definition n_value (n_values : list (option pystr)) (i : nat) : pystr :=
  default [] (mjoin (n_values !! i)).

(** The body of the loop for one row: [None] when the row is skipped,
    the draw when it is valid. *)
Definition parse_row (row_num : Z) (raw_row : Csv.raw_row)
  : result (option Draw) :=
  let row := normalize_row raw_row in
  let round_raw := pick_value row (FIELD_ALIASES !!! u"round") in
  if negb (truthy_opt round_raw) then Ok None
  else
    let draw_date := pick_value row (FIELD_ALIASES !!! u"date") in
    let bonus_raw := pick_value row (FIELD_ALIASES !!! u"bonus") in
    let n_values :=
      (λ i : Z, pick_value row (FIELD_ALIASES !!! (u"num" ++ str_of_int i)))
        <$> [1; 2; 3; 4; 5; 6]%Z in
    let missing :=
      (if negb (truthy_opt draw_date) then [u"date"] else [])
      ++ (if negb (truthy_opt bonus_raw) then [u"bonus"] else [])
      ++ (if existsb (λ value, negb (truthy_opt value)) n_values
          then [u"num1~num6"] else []) in
    if negb (bool_decide (missing = [])) then
      Raise (Exn RuntimeError
        [Text (u"row "); Text (str_of_int row_num);
         Text (u": missing fields ("); Text (join (u", ") missing);
         Text (u")")])
    else
      v_round ← parse_int (default [] round_raw) (u"round") row_num;
      v_num1 ← parse_int (n_value n_values 0) (u"num1") row_num;
      v_num2 ← parse_int (n_value n_values 1) (u"num2") row_num;
      v_num3 ← parse_int (n_value n_values 2) (u"num3") row_num;
      v_num4 ← parse_int (n_value n_values 3) (u"num4") row_num;
      v_num5 ← parse_int (n_value n_values 4) (u"num5") row_num;
      v_num6 ← parse_int (n_value n_values 5) (u"num6") row_num;
      v_bonus ← parse_int (default [] bonus_raw) (u"bonus") row_num;
      v_date ← parse_date (default [] draw_date) (u"date") row_num;
      Ok (Some {| round := v_round;
                  num1 := v_num1; num2 := v_num2; num3 := v_num3;
                  num4 := v_num4; num5 := v_num5; num6 := v_num6;
                  bonus := v_bonus; date := v_date |}).

(** The [for] loop over the rows of the reader.  [pending] is the
    exception the reader raises once its rows are exhausted, if any. *)
Fixpoint parse_rows (row_num : Z) (rows : list Csv.raw_row)
  (pending : option exn) (draws : list Draw) : result (list Draw) :=
  match rows with
  | [] =>
      match pending with
      | Some e => Raise e
      | None => Ok draws
      end
  | raw_row :: rows' =>
      r ← parse_row row_num raw_row;
      match r with
      | None => parse_rows (row_num + 1) rows' pending draws
      | Some draw => parse_rows (row_num + 1) rows' pending (draws ++ [draw])
      end
  end.

(** Insertion of [d] before the first draw whose round is not smaller:
    with [foldr] this is a stable sort, as [sorted] is. *)
Fixpoint insert_by_round (d : Draw) (l : list Draw) : list Draw :=
  match l with
  | [] => [d]
  | d' :: l' =>
      if (round d <=? round d')%Z then d :: l
      else d' :: insert_by_round d l'
  end.

Definition sorted_by_round (draws : list Draw) : list Draw :=
  foldr insert_by_round [] draws.

Definition parse_draws (csv_text : pystr) : result (list Draw) :=
  let '(recs, pending) := Csv.reader (Csv.splitlines csv_text) in
  match recs with
  | [] =>
      match pending with
      | Some e => Raise e
      | None => Raise (Exn RuntimeError [Text (u"CSV header not found.")])
      end
  | [] :: _ => Raise (Exn RuntimeError [Text (u"CSV header not found.")])
  | fieldnames :: recs' =>
      draws ← parse_rows 2 (Csv.dict_rows fieldnames recs') pending [];
      if draws is [] then
        Raise (Exn RuntimeError [Text (u"No valid draw rows found in CSV.")])
      else Ok (sorted_by_round draws)
  end.

Definition main : io unit :=
  source_url ← reads (λ w, get_csv_source_url (environ w));
  csv_text ← reads (λ w, fetch_csv_text w source_url);
  draws ← reads (λ _, parse_draws csv_text);
  write_outputs draws;;
  print (u"Synced " ++ str_of_int (Z.of_nat (length draws))
         ++ u" draw(s) from: " ++ source_url ++ u" -> lotto.json").

End script.


(** * The vocabulary of the statements *)

(** ** Header names *)

(** The characters whose case and class do not depend on the table:
    ASCII and the Hangul syllables. *)
Definition plain (c : N) : bool := is_ascii c || hangul_syllable c.

(** ** Messages *)

Definition row_prefix (row_num : Z) : list fragment :=
  [Text (u"row "); Text (str_of_int row_num)].

Definition err_missing (row_num : Z) (missing : list pystr) : exn :=
  Exn RuntimeError
    (row_prefix row_num ++
     [Text (u": missing fields ("); Text (join (u", ") missing); Text (u")")]).

Definition err_integer (row_num : Z) (field_name value : pystr) : exn :=
  Exn ValueError
    (row_prefix row_num ++
     [Text (u": invalid integer in '"); Text field_name; Text (u"' -> ");
      Repr value]).

Definition err_date_format (row_num : Z) (field_name value : pystr) : exn :=
  Exn ValueError
    (row_prefix row_num ++
     [Text (u": invalid date format in '"); Text field_name; Text (u"' -> ");
      Repr value; Text (u" (expected yyyy.mm.dd)")]).

Definition err_calendar (row_num : Z) (field_name value : pystr) : exn :=
  Exn ValueError
    (row_prefix row_num ++
     [Text (u": invalid calendar date in '"); Text field_name; Text (u"' -> ");
      Repr value]).

Definition err_no_rows : exn :=
  Exn RuntimeError [Text (u"No valid draw rows found in CSV.")].

Definition err_config : exn :=
  Exn RuntimeError
    [Text (u"GOOGLE_SHEET_ID is required (or set GOOGLE_SHEET_CSV_URL directly).")].

(** The message of [e] starts with [row <row_num>]. *)
Definition names_row (e : exn) (row_num : Z) : Prop :=
  ∃ rest, exn_msg e = row_prefix row_num ++ rest.

(** ** Integer literals *)

Section literals.
Context (blank : N → bool) (digit : N → option N).

(** [digit_run acc s n]: [s] is a run of digits, each possibly after one
    underscore, that continues the value [acc] to [n]. *)
Inductive digit_run : Z → pystr → Z → Prop :=
  | run_nil acc : digit_run acc [] acc
  | run_digit acc c d s n :
      digit c = Some d → digit_run (acc * 10 + Z.of_N d) s n →
      digit_run acc (c :: s) n
  | run_underscore acc c d s n :
      digit c = Some d → digit_run (acc * 10 + Z.of_N d) s n →
      digit_run acc (95 :: c :: s) n.

(** [signed sign n z]: the sign [sign], nothing, [+] or [-], makes [z]
    of [n]. *)
Inductive signed : pystr → Z → Z → Prop :=
  | signed_none n : signed [] n n
  | signed_plus n : signed [43] n n
  | signed_minus n : signed [45] n (- n).

(** A literal: blanks, a sign, a digit, a run of digits, blanks. *)
Definition literal (s : pystr) (z : Z) : Prop :=
  ∃ before sign c d digits n after,
    s = before ++ sign ++ c :: digits ++ after
    ∧ Forall (λ b, blank b = true) before
    ∧ Forall (λ b, blank b = true) after
    ∧ digit c = Some d ∧ digit_run (Z.of_N d) digits n
    ∧ signed sign n z.
End literals.

Definition ascii_value (c : N) : option N :=
  if ascii_digit c then Some (c - 48) else None.

(** The blanks [int] accepts around a number: the white space of
    [str.isspace] but for the four separators U+001C..U+001F. *)
Definition int_blank (c : N) : bool := isspace c && negb (in_range 0x1C 0x1F c).

(** What may follow the digits: not a digit, not an underscore. *)
Definition stops (s : pystr) : Prop :=
  match s with
  | [] => True
  | c :: _ => ascii_digit c = false ∧ c ≠ 95
  end.

(** ** Dates *)



(** ** Draws *)

Definition round_le (a b : Draw) : Prop := (round a ≤ round b)%Z.

(** The rows [DictReader] yields for a text whose first record is a
    header with at least one field, and the exception that ends the
    reading, if any. *)
Definition csv_rows (csv_text : pystr) : option (list Csv.raw_row * option exn) :=
  match Csv.reader (Csv.splitlines csv_text) with
  | ((_ :: _) as fieldnames :: recs, pending) =>
      Some (Csv.dict_rows fieldnames recs, pending)
  | _ => None
  end.

(** The fields the loop hands to [parse_int], in that order. *)
Definition numeric_keys : list pystr :=
  [u"round"; u"num1"; u"num2"; u"num3"; u"num4"; u"num5"; u"num6"; u"bonus"].

Definition num_keys : list pystr :=
  [u"num1"; u"num2"; u"num3"; u"num4"; u"num5"; u"num6"].

Section vocabulary.
Context {U : UnicodeData}.

(** The lower-case form of [c] is [l], wherever [c] stands. *)
Definition lowers_to (c : N) (l : pystr) : Prop :=
  ∀ before after, tolower_at before c after = l.

(** Two header names that differ only in case, a character of the one
    standing where the other has a character with the same lower-case
    form, and in characters that are not alphanumeric, those whose
    lower-case form holds nothing alphanumeric. *)
Inductive same_header : pystr → pystr → Prop :=
  | same_nil : same_header [] []
  | same_char a b l h1 h2 :
      lowers_to a l → lowers_to b l →
      same_header h1 h2 → same_header (a :: h1) (b :: h2)
  | same_skip_l c l h1 h2 :
      lowers_to c l → Forall (λ x, isalnum x = false) l →
      same_header h1 h2 → same_header (c :: h1) h2
  | same_skip_r c l h1 h2 :
      lowers_to c l → Forall (λ x, isalnum x = false) l →
      same_header h1 h2 → same_header h1 (c :: h2).

(** [v] is [cell] without the white space at its two ends. *)
Definition trim_of (cell v : pystr) : Prop :=
  ∃ before after,
    cell = before ++ v ++ after
    ∧ Forall (λ c, isspace c = true) before
    ∧ Forall (λ c, isspace c = true) after
    ∧ (∀ c, head v = Some c → isspace c = false)
    ∧ (∀ c, last v = Some c → isspace c = false).

(** The item [kv] of a raw row is kept by the normaliser under the key
    [k]. *)
Definition named (k : pystr) (kv : pystr * option pystr) : bool :=
  truthy kv.1 && bool_decide (normalize_key kv.1 = k).

(** The row has nothing under the alias: no value, or the empty one. *)
Definition blank_in (row : gmap pystr pystr) (alias : pystr) : Prop :=
  row !! alias = None ∨ row !! alias = Some [].

(** The value the loop finds in a raw row for a canonical key. *)
Definition field (raw : Csv.raw_row) (key : pystr) : option pystr :=
  pick_value (normalize_row raw) (FIELD_ALIASES !!! key).

Definition has_field (raw : Csv.raw_row) (key : pystr) : bool :=
  truthy_opt (field raw key).

Definition field_text (raw : Csv.raw_row) (key : pystr) : pystr :=
  default [] (field raw key).

Definition row_int (raw : Csv.raw_row) (key : pystr) : option Z :=
  PyInt.int (field_text raw key).

(** The list [missing] of the loop. *)
Definition missing_fields (raw : Csv.raw_row) : list pystr :=
  (if negb (has_field raw (u"date")) then [u"date"] else [])
  ++ (if negb (has_field raw (u"bonus")) then [u"bonus"] else [])
  ++ (if existsb (λ key, negb (has_field raw key)) num_keys
      then [u"num1~num6"] else []).

(** The body of the loop, read through [field]. *)
Definition validate_row (row_num : Z) (raw : Csv.raw_row) : result (option Draw) :=
  if negb (has_field raw (u"round")) then Ok None
  else if negb (bool_decide (missing_fields raw = [])) then
    Raise (err_missing row_num (missing_fields raw))
  else
    v_round ← parse_int (field_text raw (u"round")) (u"round") row_num;
    v_num1 ← parse_int (field_text raw (u"num1")) (u"num1") row_num;
    v_num2 ← parse_int (field_text raw (u"num2")) (u"num2") row_num;
    v_num3 ← parse_int (field_text raw (u"num3")) (u"num3") row_num;
    v_num4 ← parse_int (field_text raw (u"num4")) (u"num4") row_num;
    v_num5 ← parse_int (field_text raw (u"num5")) (u"num5") row_num;
    v_num6 ← parse_int (field_text raw (u"num6")) (u"num6") row_num;
    v_bonus ← parse_int (field_text raw (u"bonus")) (u"bonus") row_num;
    v_date ← parse_date (field_text raw (u"date")) (u"date") row_num;
    Ok (Some {| round := v_round;
                num1 := v_num1; num2 := v_num2; num3 := v_num3;
                num4 := v_num4; num5 := v_num5; num6 := v_num6;
                bonus := v_bonus; date := v_date |}).

(** The round cell of a raw row is blank: every cell under a name that
    stands for [round] is absent or holds nothing but white space. *)
Definition round_blank (raw : Csv.raw_row) : Prop :=
  ∀ key value, (key, value) ∈ Csv.items raw → truthy key = true →
    normalize_key key ∈ (FIELD_ALIASES !!! u"round" : list pystr) →
    Forall (λ c, isspace c = true) (default [] value).

(** The loop body raises on the row; this does not depend on the number
    the row is given. *)
Definition row_fails (raw : Csv.raw_row) : Prop :=
  ∃ e, parse_row 0 raw = Raise e.

(** The literals [int] reads in base 10: the blanks are those of
    [int_blank], the digits the decimal digits of any script. *)
Definition int_literal : pystr → Z → Prop := literal int_blank todecimal.

(** The number of decimal digits of a text. *)
Definition digit_count (s : pystr) : nat :=
  length (filter (λ c, isdecimal c) s).

(** The text has no more digits than [int] converts. *)
Definition within_limit (s : pystr) : Prop :=
  (Z.of_nat (digit_count s) ≤ PyInt.max_str_digits)%Z.

(** How [to_ascii] maps a character. *)
Definition to_ascii_char (c c' : N) : Prop :=
  (c < 127 ∧ c' = c)
  ∨ (127 ≤ c ∧ isspace c = true ∧ c' = 32)
  ∨ (127 ≤ c ∧ isspace c = false ∧ ∃ d, todecimal c = Some d ∧ c' = 48 + d).

(** Four digits, a dot, two digits, a dot, two digits. *)
Definition date_pattern (v : pystr) : Prop :=
  ∃ y1 y2 y3 y4 m1 m2 d1 d2,
    v = [y1; y2; y3; y4; 46; m1; m2; 46; d1; d2]
    ∧ Forall (λ c, isdecimal c = true) [y1; y2; y3; y4; m1; m2; d1; d2].

(** The text is a date of the calendar as the format [%Y.%m.%d] reads
    it. *)
Definition calendar_date (v : pystr) : Prop :=
  is_Some (Datetime.strptime_Ymd v).



(** The draws the loop has collected when it ends, before they are
    sorted. *)
Definition collected (csv_text : pystr) : option (list Draw) :=
  match csv_rows csv_text with
  | Some (rows, pending) =>
      match parse_rows 2 rows pending [] with
      | Ok draws => Some draws
      | Raise _ => None
      end
  | None => None
  end.

End vocabulary.

(** [parse_int] returns a number exactly for the base-10 literals. *)
Definition reads_every_literal : Prop :=
  ∀ (U : UnicodeData) value name n z,
    parse_int value name n = Ok z ↔ int_literal value z.

(** The digit [1], 4301 times. *)
Definition long_literal : pystr := replicate 4301 49.

(** The numbering of the rows in the messages: the row at position [k]
    (from 0) among the rows the reader yields after the header is
    reported as row [first + k]. *)
Definition row_numbering (first : Z) : Prop :=
  ∀ (U : UnicodeData) csv_text rows pending before raw after,
    csv_rows csv_text = Some (rows, pending) →
    rows = before ++ raw :: after →
    Forall (λ r, ¬ row_fails r) before →
    row_fails raw →
    ∃ e, parse_draws csv_text = Raise e
         ∧ names_row e (first + Z.of_nat (length before)).

(** ** The configuration *)

(** The variable has no value, or the empty one. *)
Definition unset (env : gmap pystr pystr) (name : pystr) : Prop :=
  env !! name = None ∨ env !! name = Some [].

(** The address of the export of a sheet. *)
Definition export_url (sheet_id gid : pystr) : pystr :=
  u"https://docs.google.com/spreadsheets/d/" ++ sheet_id
  ++ u"/export?format=csv&gid=" ++ gid.

(** The line [main] prints when it has written the file. *)
Definition synced_line (count : nat) (source_url : pystr) : pystr :=
  u"Synced " ++ str_of_int (Z.of_nat count) ++ u" draw(s) from: "
  ++ source_url ++ u" -> lotto.json".

(** ** The texts of the examples *)

Definition example_csv : pystr :=
  join [10]
    [u"round,date,num1,num2,num3,num4,num5,num6,bonusNumber";
     u"1,2024.01.06,1,2,3,4,5,6,7";
     u"2,2024.01.13,8,9,10,11,12,13,14"].

Definition example_first : Draw :=
  {| round := 1; num1 := 1; num2 := 2; num3 := 3; num4 := 4; num5 := 5;
     num6 := 6; bonus := 7; date := u"2024.01.06" |}.

Definition example_latest : Draw :=
  {| round := 2; num1 := 8; num2 := 9; num3 := 10; num4 := 11; num5 := 12;
     num6 := 13; bonus := 14; date := u"2024.01.13" |}.

Definition quoted (s : pystr) : pystr := [34] ++ s ++ [34].

(** The text of [lotto.json] for the latest draw of the example. *)
Definition example_json : pystr :=
  join [10]
    [u"{";
     u"  " ++ quoted (u"round") ++ u": 2,";
     u"  " ++ quoted (u"num1") ++ u": 8,";
     u"  " ++ quoted (u"num2") ++ u": 9,";
     u"  " ++ quoted (u"num3") ++ u": 10,";
     u"  " ++ quoted (u"num4") ++ u": 11,";
     u"  " ++ quoted (u"num5") ++ u": 12,";
     u"  " ++ quoted (u"num6") ++ u": 13,";
     u"  " ++ quoted (u"bonus") ++ u": 14,";
     u"  " ++ quoted (u"date") ++ u": " ++ quoted (u"2024.01.13");
     u"}"] ++ [10].

(** A world whose sheet is the example, and whose system refuses
    nothing. *)
Definition example_world : World :=
  {| environ := {[ u"GOOGLE_SHEET_CSV_URL" := u"https://sheet.example/lotto.csv" ]};
     network := λ _, Ok example_csv;
     files := ∅;
     stdout := [];
     mkdir_raises := λ _, None;
     write_text_raises := λ _ _, None;
     print_raises := λ _, None |}.

Definition data_row (cells : list pystr) : Csv.raw_row :=
  {| Csv.items :=
       zip [u"round"; u"date"; u"num1"; u"num2"; u"num3"; u"num4"; u"num5";
            u"num6"; u"bonus"] (Some <$> cells);
     Csv.rest_item := None |}.

(** A header and one data row whose round is not a number. *)
Definition bad_first_row_csv : pystr :=
  join [10]
    [u"round,date,num1,num2,num3,num4,num5,num6,bonus";
     u"x,2024.01.06,1,2,3,4,5,6,7"].

Definition bad_first_row : Csv.raw_row :=
  data_row [u"x"; u"2024.01.06"; u"1"; u"2"; u"3"; u"4"; u"5"; u"6"; u"7"].

(** A row with an empty round cell, an empty line, then the bad row. *)
Definition bad_third_row_csv : pystr :=
  join [10]
    [u"round,date,num1,num2,num3,num4,num5,num6,bonus";
     u",2024.01.06,1,2,3,4,5,6,7";
     [];
     u"x,2024.01.06,1,2,3,4,5,6,7"].

Definition blank_round_row : Csv.raw_row :=
  data_row [[]; u"2024.01.06"; u"1"; u"2"; u"3"; u"4"; u"5"; u"6"; u"7"].

(** A row whose round cell holds white space and whose other cells are
    not what the validator wants. *)
Definition blank_round_junk_row : Csv.raw_row :=
  data_row [u"   "; u"not a date"; u"x"; []; u"3"; u"4"; u"5"; u"6"; u"?"].

(** A row that lacks only its bonus number. *)
Definition no_bonus_row : Csv.raw_row :=
  data_row [u"7"; u"2024.01.06"; u"1"; u"2"; u"3"; u"4"; u"5"; u"6"; []].

(** A header alone. *)
Definition header_only_csv : pystr :=
  u"round,date,num1,num2,num3,num4,num5,num6,bonus".

Definition header_only_world : World :=
  {| environ := {[ u"GOOGLE_SHEET_CSV_URL" := u"https://sheet.example/lotto.csv" ]};
     network := λ _, Ok header_only_csv;
     files := {[ u"lotto.json" := example_json ]};
     stdout := [];
     mkdir_raises := λ _, None;
     write_text_raises := λ _ _, None;
     print_raises := λ _, None |}.

(** An environment whose two variables are set, and empty. *)
Definition empty_settings : gmap pystr pystr :=
  {[ u"GOOGLE_SHEET_CSV_URL" := []; u"GOOGLE_SHEET_ID" := [] ]}.

(** An environment with an empty URL and the identifier of a sheet. *)
Definition empty_url_settings : gmap pystr pystr :=
  {[ u"GOOGLE_SHEET_CSV_URL" := []; u"GOOGLE_SHEET_ID" := u"abc" ]}.

(** * The vocabulary of the further properties *)

(** ** The run of [main] *)

Section runs.
Context {U : UnicodeData}.

(** The exception is the one of the resolver of the source, or the one
    the download of the resolved address raises, or the one the parser
    raises on the text downloaded. *)
Definition source_error (w : World) (e : exn) : Prop :=
  get_csv_source_url (environ w) = Raise e
  ∨ (∃ source_url,
       get_csv_source_url (environ w) = Ok source_url
       ∧ fetch_csv_text w source_url = Raise e)
  ∨ (∃ source_url csv_text,
       get_csv_source_url (environ w) = Ok source_url
       ∧ fetch_csv_text w source_url = Ok csv_text
       ∧ parse_draws csv_text = Raise e).

(** The sheet of the world is read: the address, the text, the draws
    and the last of them. *)
Definition sheet_read (w : World) (source_url csv_text : pystr)
  (draws : list Draw) (latest : Draw) : Prop :=
  get_csv_source_url (environ w) = Ok source_url
  ∧ fetch_csv_text w source_url = Ok csv_text
  ∧ parse_draws csv_text = Ok draws
  ∧ last draws = Some latest.

End runs.

(** The text [main] writes for a draw. *)
Definition json_text (d : Draw) : pystr := Json.dumps (draw_items d) ++ [10].

(** The world with [lotto.json] holding the text. *)
Definition with_json (text : pystr) (w : World) : World :=
  set_files (<[u"lotto.json" := text]> (files w)) w.

(** The world of the example, with an output that is closed. *)
Definition closed_output_world : World :=
  {| environ := environ example_world;
     network := network example_world;
     files := ∅;
     stdout := [];
     mkdir_raises := λ _, None;
     write_text_raises := λ _ _, None;
     print_raises := λ _, Some (Exn OSError [Text (u"Broken pipe")], []) |}.

(** ** Columns *)

(** The keys of a draw, in the order of the table. *)
Definition canonical_keys : list pystr :=
  [u"round"; u"date"; u"num1"; u"num2"; u"num3"; u"num4"; u"num5"; u"num6";
   u"bonus"].

(** The names the table knows: the aliases of the nine keys. *)
Definition known_names : list pystr :=
  canonical_keys ≫= (λ key, FIELD_ALIASES !!! key).

Section columns.
Context {U : UnicodeData}.

(** The column of the item stands for a key of the table. *)
Definition recognised (kv : pystr * option pystr) : bool :=
  bool_decide (normalize_key kv.1 ∈ known_names).

(** The raw row without the columns the table does not know. *)
Definition recognised_only (raw : Csv.raw_row) : Csv.raw_row :=
  {| Csv.items := filter (λ kv, recognised kv) (Csv.items raw);
     Csv.rest_item := Csv.rest_item raw |}.

(** The normalised names of the columns of a raw row that have a
    name. *)
Definition column_names (raw : Csv.raw_row) : list pystr :=
  (λ kv, normalize_key kv.1) <$> filter (λ kv, truthy kv.1) (Csv.items raw).

End columns.

(** The cells of a [dict], [None] read as the empty text. *)
Definition cells_of (d : list (pystr * option pystr)) : list (pystr * pystr) :=
  (λ kv, (kv.1, default [] kv.2)) <$> d.

(** ** White space *)

(** The raw row with every cell trimmed. *)
Definition trimmed (raw : Csv.raw_row) : Csv.raw_row :=
  {| Csv.items :=
       (λ kv : pystr * option pystr, (kv.1, strip <$> kv.2))
         <$> Csv.items raw;
     Csv.rest_item := Csv.rest_item raw |}.

(** ** The reader *)

Definition err_header : exn :=
  Exn RuntimeError [Text (u"CSV header not found.")].

Definition err_field_limit : exn :=
  Exn CsvError [Text (u"field larger than field limit (131072)")].

(** The reader has begun a record. *)
Definition is_open (st : Csv.state) : bool :=
  match st with
  | Csv.START_FIELD | Csv.IN_FIELD | Csv.IN_QUOTED_FIELD
  | Csv.QUOTE_IN_QUOTED_FIELD => true
  | Csv.START_RECORD | Csv.EAT_CRNL => false
  end.

(** The text has no character that breaks a line. *)
Definition one_line (line : pystr) : Prop :=
  Forall (λ c, Csv.is_linebreak c = false) line.

(** The lines [str.splitlines] gives for lines joined by a line break:
    an empty last line is no line. *)
Fixpoint lines_of (lines : list pystr) : list pystr :=
  match lines with
  | [] => []
  | [line] => if line is [] then [] else [line]
  | line :: rest => line :: lines_of rest
  end.

(** The reader in the state [st], with the fields [fields] of the
    record read and the characters [field], the last one first, of the
    field it is reading. *)
Definition reader_at (st : Csv.state) (fields : list pystr) (field : pystr)
  : Csv.ReaderObj :=
  {| Csv.r_state := st; Csv.r_fields := fields; Csv.r_field := field;
     Csv.r_field_len := N.of_nat (length field) |}.

(** A character that stands for itself in a cell that is not quoted. *)
Definition plain_char (c : N) : bool :=
  negb (Csv.is_newline c) && negb (c =? 34) && negb (c =? 44).

(** The cell between double quotes, its double quotes doubled. *)
Definition csv_quoted (cell : pystr) : pystr :=
  [34] ++ (cell ≫= λ c, if c =? 34 then [34; 34] else [c]) ++ [34].

(** [text] is a way to write the cell [cell] in a line: as it is when
    it has no comma, no double quote and no line break, or quoted. *)
Inductive cell_text : pystr → pystr → Prop :=
  | cell_plain cell :
      Forall (λ c, plain_char c = true) cell → cell_text cell cell
  | cell_quoted cell : cell_text cell (csv_quoted cell).

(** The cell is within the limit of the reader on the size of a
    field. *)
Definition fits (cell : pystr) : Prop :=
  N.of_nat (length cell) ≤ Csv.field_size_limit.

(** ** The errors of a row *)

Section row_errors.
Context {U : UnicodeData}.

(** [e] is one of the errors the loop raises for the row [raw] under
    the number [n]. *)
Definition row_error (n : Z) (raw : Csv.raw_row) (e : exn) : Prop :=
  e = err_missing n (missing_fields raw)
  ∨ (∃ key, key ∈ numeric_keys ∧ e = err_integer n key (field_text raw key))
  ∨ e = err_date_format n (u"date") (field_text raw (u"date"))
  ∨ e = err_calendar n (u"date") (field_text raw (u"date")).

End row_errors.

(** The text begins with a line break. *)
Definition blank_first_line (s : pystr) : Prop :=
  ∃ c rest, s = c :: rest ∧ Csv.is_linebreak c = true.

(** ** A sheet written out of draws *)

(** The cells of the row of a draw, in the order of [canonical_keys]. *)
Definition draw_cells (d : Draw) : list pystr :=
  [str_of_int (round d); date d; str_of_int (num1 d); str_of_int (num2 d);
   str_of_int (num3 d); str_of_int (num4 d); str_of_int (num5 d);
   str_of_int (num6 d); str_of_int (bonus d)].

(** The numbers of a draw, in the order the loop reads them. *)
Definition draw_numbers (d : Draw) : list Z :=
  [round d; num1 d; num2 d; num3 d; num4 d; num5 d; num6 d; bonus d].

(** The sheet: the header of the canonical keys, then one line for each
    draw, the cells separated by commas and the lines by a line feed. *)
Definition csv_of_draws (draws : list Draw) : pystr :=
  join [10]
    (join (u",") canonical_keys :: ((λ d, join (u",") (draw_cells d)) <$> draws)).

(** The decimal text of the number is within the default limit of the
    interpreter on the conversions between [int] and [str]. *)
Definition short_int (z : Z) : Prop :=
  (Z.of_nat (length (str_of_int z)) ≤ 4300)%Z.

Section written.
Context {U : UnicodeData}.

(** A draw the validator accepts when it reads it back. *)
Definition writable (d : Draw) : Prop :=
  date_pattern (date d) ∧ calendar_date (date d)
  ∧ Forall short_int (draw_numbers d).

End written.

(** ** The parser on lines *)

Section parse_lines.
Context {U : UnicodeData}.

(** The parser on the lines of a text. *)
Definition parse_lines (lines : list pystr) : result (list Draw) :=
  let '(recs, pending) := Csv.reader lines in
  match recs with
  | [] =>
      match pending with
      | Some e => Raise e
      | None => Raise (Exn RuntimeError [Text (u"CSV header not found.")])
      end
  | [] :: _ => Raise (Exn RuntimeError [Text (u"CSV header not found.")])
  | fieldnames :: recs' =>
      draws ← parse_rows 2 (Csv.dict_rows fieldnames recs') pending [];
      if draws is [] then
        Raise (Exn RuntimeError [Text (u"No valid draw rows found in CSV.")])
      else Ok (sorted_by_round draws)
  end.

End parse_lines.

(** ** The spelling of the headers *)

Section spelling.
Context {U : UnicodeData}.

(** Two items with the same cell under two spellings of one header. *)
Definition same_column (kv kv' : pystr * option pystr) : Prop :=
  same_header kv.1 kv'.1 ∧ kv.2 = kv'.2.

End spelling.

(** ** More examples *)

(** The rows of the example the other way round. *)
Definition example_csv_swapped : pystr :=
  join [10]
    [u"round,date,num1,num2,num3,num4,num5,num6,bonusNumber";
     u"2,2024.01.13,8,9,10,11,12,13,14";
     u"1,2024.01.06,1,2,3,4,5,6,7"].

(** Two rows with the same round. *)
Definition same_round_csv : pystr :=
  join [10]
    [u"round,date,num1,num2,num3,num4,num5,num6,bonus";
     u"7,2024.01.06,1,2,3,4,5,6,7";
     u"7,2024.01.13,8,9,10,11,12,13,14"].

Definition same_round_first : Draw :=
  {| round := 7; num1 := 1; num2 := 2; num3 := 3; num4 := 4; num5 := 5;
     num6 := 6; bonus := 7; date := u"2024.01.06" |}.

Definition same_round_last : Draw :=
  {| round := 7; num1 := 8; num2 := 9; num3 := 10; num4 := 11; num5 := 12;
     num6 := 13; bonus := 14; date := u"2024.01.13" |}.

(** The first row of the example, and the same with its columns the
    other way round. *)
Definition example_row : Csv.raw_row :=
  data_row [u"1"; u"2024.01.06"; u"1"; u"2"; u"3"; u"4"; u"5"; u"6"; u"7"].

Definition example_row_reversed : Csv.raw_row :=
  {| Csv.items := reverse (Csv.items example_row); Csv.rest_item := None |}.

(** * Lemmas *)

(** Comparisons on [N] given as booleans, decided by [lia]. *)
Ltac bool_to_prop :=
  repeat (progress
    rewrite ?andb_true_iff, ?orb_true_iff, ?andb_false_iff, ?orb_false_iff,
      ?negb_true_iff, ?negb_false_iff, ?N.leb_le, ?N.leb_gt, ?N.ltb_lt,
      ?N.ltb_ge, ?N.eqb_eq, ?N.eqb_neq in *).
Ltac bool_lia := bool_to_prop; lia.

Ltac elem_cases :=
  repeat match goal with
  | H : _ ∈ _ :: _ |- _ => apply elem_of_cons in H as [H|H]
  | H : _ ∈ [] |- _ => by apply elem_of_nil in H
  end.

Lemma bind_Ok {A B} (a : A) (k : A → result B) : (Ok a ≫= k) = k a.
Proof. reflexivity. Qed.
Lemma bind_Raise {A B} e (k : A → result B) : (Raise e ≫= k) = Raise e.
Proof. reflexivity. Qed.

#[global] Arguments parse_row : simpl never.
#[global] Arguments parse_int : simpl never.
#[global] Arguments parse_date : simpl never.
#[global] Arguments field_text : simpl never.
#[global] Arguments has_field : simpl never.
#[global] Arguments missing_fields : simpl never.
#[global] Arguments normalize_row : simpl never.

(** ** Strings *)

Section strings.
Context {U : UnicodeData}.

Lemma tolower_at_plain before c after :
  plain c = true → tolower_at before c after = [ascii_tolower c].
Proof.
  unfold plain, tolower_at. destruct (is_ascii c) eqn:Ha; [done|].
  simpl. intros ->. f_equal. unfold ascii_tolower, ascii_upper, in_range, is_ascii in *.
  destruct (_ && _) eqn:E; [|done]. bool_lia.
Qed.

Lemma lower_from_plain s : 
  Forall (λ c, plain c = true) s → ∀ b, lower_from b s = ascii_tolower <$> s.
Proof.
  induction 1 as [|c s Hc Hs IH]; intros b; [done|].
  simpl. rewrite tolower_at_plain; [|done]. rewrite IH. reflexivity.
Qed.

Lemma isalnum_tolower_plain c :
  plain c = true → isalnum (ascii_tolower c) = isalnum c.
Proof.
  intros _. unfold ascii_tolower. destruct (ascii_upper c) eqn:Hu; [|done].
  unfold isalnum, ascii_alnum, ascii_digit, ascii_upper, ascii_lower, is_ascii, in_range in *.
  apply andb_prop in Hu as [?%N.leb_le ?%N.leb_le].
  replace (c + 32 <? 128) with true by (symmetry; apply N.ltb_lt; lia).
  replace (c <? 128) with true by (symmetry; apply N.ltb_lt; lia).
  replace (65 <=? c) with true by (symmetry; apply N.leb_le; lia).
  replace (c <=? 90) with true by (symmetry; apply N.leb_le; lia).
  replace (97 <=? c + 32) with true by (symmetry; apply N.leb_le; lia).
  replace (c + 32 <=? 122) with true by (symmetry; apply N.leb_le; lia).
  simpl. by rewrite !orb_true_r.
Qed.

Lemma normalize_key_plain h :
  Forall (λ c, plain c = true) h →
  normalize_key h = filter (λ ch, isalnum ch) (ascii_tolower <$> h).
Proof. intros. unfold normalize_key, lower. by rewrite lower_from_plain. Qed.

Lemma filter_not_alnum l :
  Forall (λ x, isalnum x = false) l → filter (λ ch, isalnum ch) l = [].
Proof.
  induction 1 as [|x l Hx _ IH]; [done|].
  rewrite filter_cons, decide_False; [done|]. rewrite Hx. intros [].
Qed.

Lemma same_header_lower h1 h2 :
  same_header h1 h2 → ∀ b1 b2,
  filter (λ ch, isalnum ch) (lower_from b1 h1)
  = filter (λ ch, isalnum ch) (lower_from b2 h2).
Proof.
  induction 1 as [|a b l h1 h2 Ha Hb H IH|c l h1 h2 Hc Hl H IH
                  |c l h1 h2 Hc Hl H IH]; intros b1 b2; [done|..].
  - cbn [lower_from]. rewrite Ha, Hb, !filter_app. f_equal. apply IH.
  - cbn [lower_from]. rewrite Hc, filter_app, (filter_not_alnum l) by done.
    apply IH.
  - cbn [lower_from]. rewrite Hc, filter_app, (filter_not_alnum l) by done.
    apply IH.
Qed.

Lemma same_header_normalize h1 h2 :
  same_header h1 h2 → normalize_key h1 = normalize_key h2.
Proof. intros H. apply (same_header_lower _ _ H). Qed.

Lemma lowers_to_plain c : plain c = true → lowers_to c [ascii_tolower c].
Proof. intros H before after. by apply tolower_at_plain. Qed.

Lemma space_not_letter c :
  isspace c = true → ascii_alnum c = false ∧ hangul_syllable c = false.
Proof.
  intros H. split.
  - destruct (ascii_alnum c) eqn:E; [|done]. exfalso.
    unfold isspace, ascii_alnum, ascii_digit, ascii_upper, ascii_lower,
      in_range in *. bool_lia.
  - destruct (hangul_syllable c) eqn:E; [|done]. exfalso.
    unfold isspace, hangul_syllable, in_range in *. bool_lia.
Qed.

Lemma isalnum_space c : isspace c = true → isalnum c = false.
Proof.
  intros H. destruct (space_not_letter c H) as [Ha Hh]. unfold isalnum.
  rewrite Ha, Hh, H. by destruct (is_ascii c).
Qed.

Lemma lowers_to_space c : isspace c = true → lowers_to c [c].
Proof.
  intros H before after. destruct (space_not_letter c H) as [Ha Hh].
  unfold tolower_at. rewrite Hh, H.
  destruct (is_ascii c); [|done]. unfold ascii_tolower.
  destruct (ascii_upper c) eqn:E; [|done].
  unfold ascii_alnum in Ha. rewrite E in Ha. by destruct (ascii_digit c).
Qed.

(** What the relation holds of, whatever the table is: the letters of
    ASCII in either case, the characters of ASCII and the white space
    that are not alphanumeric. *)
Lemma same_header_case a b h1 h2 :
  plain a = true → plain b = true → ascii_tolower a = ascii_tolower b →
  same_header h1 h2 → same_header (a :: h1) (b :: h2).
Proof.
  intros Ha Hb Hab H. apply (same_char a b [ascii_tolower a]); [..|done].
  - by apply lowers_to_plain.
  - rewrite Hab. by apply lowers_to_plain.
Qed.

Lemma ignored_char c :
  plain c = true ∨ isspace c = true → isalnum c = false →
  ∃ l, lowers_to c l ∧ Forall (λ x, isalnum x = false) l.
Proof.
  intros [Hp|Hs] Hn.
  - exists [ascii_tolower c]. split; [by apply lowers_to_plain|].
    apply Forall_singleton. by rewrite isalnum_tolower_plain.
  - exists [c]. split; [by apply lowers_to_space|]. by apply Forall_singleton.
Qed.

Lemma same_header_skip_l c h1 h2 :
  plain c = true ∨ isspace c = true → isalnum c = false →
  same_header h1 h2 → same_header (c :: h1) h2.
Proof.
  intros Hc Hn H. destruct (ignored_char c Hc Hn) as (l & Hl & Hf).
  by apply (same_skip_l c l).
Qed.

Lemma same_header_skip_r c h1 h2 :
  plain c = true ∨ isspace c = true → isalnum c = false →
  same_header h1 h2 → same_header h1 (c :: h2).
Proof.
  intros Hc Hn H. destruct (ignored_char c Hc Hn) as (l & Hl & Hf).
  by apply (same_skip_r c l).
Qed.

Example same_header_draw_no : same_header (u"Draw No") (u"DRAW_NO").
Proof.
  vm_compute.
  repeat first
    [ apply same_nil
    | apply same_header_case; [reflexivity|reflexivity|reflexivity|]
    | apply same_header_skip_l; [left; reflexivity|reflexivity|]
    | apply same_header_skip_r; [left; reflexivity|reflexivity|] ].
Qed.

(** A header with a no-break space and an ideographic space. *)
Example same_header_spaces :
  same_header [68; 114; 97; 119; 0xA0; 78; 111; 0x3000] (u"drawno").
Proof.
  vm_compute.
  repeat first
    [ apply same_nil
    | apply same_header_case; [reflexivity|reflexivity|reflexivity|]
    | apply same_header_skip_l;
        [right; reflexivity|by apply isalnum_space|] ].
Qed.

Lemma normalize_key_alnum h c : c ∈ normalize_key h → isalnum c = true.
Proof. unfold normalize_key. rewrite list_elem_of_filter. intros [? _]. by apply Is_true_true. Qed.

Lemma lstrip_all_space s : Forall (λ c, isspace c = true) s → lstrip s = [].
Proof. induction 1 as [|c s Hc _ IH]; [done|]. simpl. by rewrite Hc. Qed.

Lemma strip_all_space s : Forall (λ c, isspace c = true) s → strip s = [].
Proof. intros H. unfold strip. by rewrite lstrip_all_space. Qed.

Lemma lstrip_head s c : head (lstrip s) = Some c → isspace c = false.
Proof.
  induction s as [|c' s IH]; [done|]. simpl.
  destruct (isspace c') eqn:E; [done|]. simpl. by intros [= <-].
Qed.

Lemma strip_last w c : last (strip w) = Some c → isspace c = false.
Proof.
  unfold strip, rstrip. rewrite last_reverse. apply lstrip_head.
Qed.

Lemma lstrip_split s :
  ∃ a, s = a ++ lstrip s ∧ Forall (λ c, isspace c = true) a.
Proof.
  induction s as [|c s (a & E & Ha)]; [by exists []|]. cbn [lstrip].
  destruct (isspace c) eqn:Hc; [|by exists []].
  exists (c :: a). split; [by rewrite <- app_comm_cons, <- E|by constructor].
Qed.

Lemma rstrip_split s :
  ∃ a, s = rstrip s ++ a ∧ Forall (λ c, isspace c = true) a.
Proof.
  unfold rstrip. destruct (lstrip_split (reverse s)) as (a & E & Ha).
  exists (reverse a). split.
  - rewrite <- reverse_app, <- E. by rewrite reverse_involutive.
  - by apply Forall_reverse.
Qed.

Lemma lstrip_app_space a s :
  Forall (λ c, isspace c = true) a → lstrip (a ++ s) = lstrip s.
Proof. induction 1 as [|c a Hc _ IH]; [done|]. cbn [app lstrip]. by rewrite Hc. Qed.

Lemma lstrip_fixed s :
  (∀ c, head s = Some c → isspace c = false) → lstrip s = s.
Proof.
  destruct s as [|c s]; [done|]. intros H. cbn [lstrip].
  by rewrite (H c).
Qed.

Lemma rstrip_fixed s :
  (∀ c, last s = Some c → isspace c = false) → rstrip s = s.
Proof.
  intros H. unfold rstrip. rewrite lstrip_fixed.
  - apply reverse_involutive.
  - intros c. rewrite head_reverse. apply H.
Qed.

Lemma rstrip_app_space s a :
  Forall (λ c, isspace c = true) a → rstrip (s ++ a) = rstrip s.
Proof.
  intros Ha. unfold rstrip. rewrite reverse_app, lstrip_app_space; [done|].
  by apply Forall_reverse.
Qed.

Lemma strip_head w c : head (strip w) = Some c → isspace c = false.
Proof.
  unfold strip. intros H. apply (lstrip_head w).
  destruct (rstrip_split (lstrip w)) as (sp & E & _). rewrite E.
  by rewrite head_app, H.
Qed.

(** [strip] removes the white space of the two ends and nothing else. *)
Lemma strip_trim_of cell : trim_of cell (strip cell).
Proof.
  destruct (lstrip_split cell) as (before & E1 & Hb).
  destruct (rstrip_split (lstrip cell)) as (after & E2 & Ha).
  exists before, after. split_and!; try done.
  - unfold strip. by rewrite <- E2.
  - apply strip_head.
  - apply strip_last.
Qed.

Lemma trim_of_strip cell v : trim_of cell v → strip cell = v.
Proof.
  intros (before & after & -> & Hb & Ha & Hh & Hl). unfold strip.
  rewrite lstrip_app_space by done.
  destruct v as [|c v].
  - cbn [app]. rewrite lstrip_all_space by done. reflexivity.
  - rewrite lstrip_fixed.
    + rewrite rstrip_app_space by done. by apply rstrip_fixed.
    + intros c' Hc'. apply Hh. by rewrite <- Hc'.
Qed.

End strings.

(** ** The normalised row and the choice of a value *)

Section picking.
Context {U : UnicodeData}.

Lemma pick_value_Some row aliases v :
  pick_value row aliases = Some v ↔
  ∃ skipped alias later,
    aliases = skipped ++ alias :: later ∧ Forall (blank_in row) skipped
    ∧ row !! alias = Some v ∧ v ≠ [].
Proof.
  induction aliases as [|a aliases IH]; simpl.
  - split; [done|]. intros (s & a & l & E & _). by destruct s.
  - destruct (row !! a) as [w|] eqn:Ea.
    + destruct w as [|c w]; simpl.
      * rewrite IH. split.
        -- intros (s & a' & l & -> & Hs & Hv & Hne). exists (a :: s), a', l.
           split_and!; try done. constructor; [by right|done].
        -- intros (s & a' & l & E & Hs & Hv & Hne). destruct s as [|a0 s]; simplify_eq/=.
           inversion Hs; subst. by exists s, a', l.
      * split.
        -- intros [= <-]. by exists [], a, aliases.
        -- intros (s & a' & l & E & Hs & Hv & Hne). destruct s as [|a0 s]; simplify_eq/=; [done|].
           inversion Hs as [|? ? [?|?] ?]; simplify_eq.
    + rewrite IH. split.
      * intros (s & a' & l & -> & Hs & Hv & Hne). exists (a :: s), a', l.
        split_and!; try done. constructor; [by left|done].
      * intros (s & a' & l & E & Hs & Hv & Hne). destruct s as [|a0 s]; simplify_eq/=.
        inversion Hs; subst. by exists s, a', l.
Qed.

Lemma pick_value_None row aliases :
  pick_value row aliases = None ↔ Forall (blank_in row) aliases.
Proof.
  induction aliases as [|a aliases IH]; simpl; [by split|].
  rewrite Forall_cons. unfold blank_in at 1.
  destruct (row !! a) as [[|c w]|] eqn:Ea; simpl; rewrite ?IH.
  - split; [intros; split; [by right|done]|by intros [_ ?]].
  - split; [done|]. by intros [[?|?] _].
  - split; [intros; split; [by left|done]|by intros [_ ?]].
Qed.

Lemma normalize_row_lookup raw k :
  normalize_row raw !! k =
    (λ kv, strip (default [] (kv.2))) <$> last (filter (λ kv, named k kv) (Csv.items raw)).
Proof.
  unfold normalize_row.
  generalize (Csv.items raw). intros l.
  induction l as [|kv l IH] using rev_ind; [done|].
  rewrite foldl_app, filter_app. simpl. rewrite filter_cons, filter_nil.
  destruct (named k kv) eqn:Hn; unfold named in Hn.
  - apply andb_prop in Hn as [Ht Hk]. apply bool_decide_eq_true in Hk.
    rewrite Ht, Hk, lookup_insert_eq. simpl. by rewrite last_snoc.
  - simpl. rewrite app_nil_r.
    destruct (truthy kv.1); [|done].
    simpl in Hn. apply bool_decide_eq_false in Hn.
    by rewrite lookup_insert_ne.
Qed.

Lemma normalize_row_lookup_Some raw k v :
  normalize_row raw !! k = Some v →
  ∃ key value, (key, value) ∈ Csv.items raw ∧ truthy key = true
               ∧ normalize_key key = k ∧ v = strip (default [] value).
Proof.
  rewrite normalize_row_lookup.
  destruct (last _) as [[key value]|] eqn:E; [|done].
  intros [= <-]. apply last_Some_elem_of in E.
  apply list_elem_of_filter in E as [Hn Hin]. unfold named in Hn. simpl in Hn.
  apply Is_true_true in Hn. apply andb_prop in Hn as [? Hk].
  apply bool_decide_eq_true in Hk. by exists key, value.
Qed.

Lemma round_blank_no_field raw :
  round_blank raw → has_field raw (u"round") = false.
Proof.
  intros Hb. unfold has_field, field.
  destruct (pick_value _ _) as [v|] eqn:E; [|done]. simpl.
  apply pick_value_Some in E as (s & a & l & Ea & _ & Hv & Hne).
  apply normalize_row_lookup_Some in Hv as (key & value & Hin & Ht & Hk & ->).
  exfalso. apply Hne. apply strip_all_space. apply (Hb key value); try done.
  rewrite Hk, Ea. apply elem_of_app. right. left.
Qed.

Lemma aliases_normalised key aliases alias :
  FIELD_ALIASES !! key = Some aliases → alias ∈ aliases →
  normalize_key alias = alias.
Proof.
  unfold FIELD_ALIASES. intros H Ha. apply elem_of_list_to_map_2 in H.
  elem_cases; simplify_eq; elem_cases; subst; reflexivity.
Qed.

Lemma four_headers h cell rest :
  h ∈ [u"Draw No"; u"drawno"; u"DRAW_NO"; u"회차"] →
  normalize_key h ∈ (FIELD_ALIASES !!! u"round" : list pystr)
  ∧ field {| Csv.items := [(h, cell)]; Csv.rest_item := rest |} (u"round")
    = (if truthy (strip (default [] cell))
       then Some (strip (default [] cell)) else None).
Proof.
  intros H. elem_cases; subst.
  all: split; [apply (bool_decide_unpack _); vm_compute; exact I|].
  all: unfold field, normalize_row; cbn [foldl Csv.items fst snd].
  all: generalize (strip (default [] cell)); intros v.
  all: vm_compute; reflexivity.
Qed.

End picking.

(** ** [int] reads exactly the literals *)

Section integers.
Context {U : UnicodeData}.
Import PyInt.

Lemma skip_spaces_split s :
  ∃ a, s = a ++ skip_spaces s ∧ Forall (λ b, c_isspace b = true) a.
Proof.
  induction s as [|c s (a & E & Ha)]; [by exists []|]. simpl.
  destruct (c_isspace c) eqn:Hc.
  - exists (c :: a). split; [by rewrite <- app_comm_cons, <- E|by constructor].
  - by exists [].
Qed.

Lemma skip_spaces_app a s :
  Forall (λ b, c_isspace b = true) a → skip_spaces (a ++ s) = skip_spaces s.
Proof. induction 1 as [|c a Hc _ IH]; [done|]. simpl. by rewrite Hc. Qed.

Lemma skip_spaces_all a :
  Forall (λ b, c_isspace b = true) a → skip_spaces a = [].
Proof. intros H. rewrite <- (app_nil_r a). by rewrite skip_spaces_app. Qed.

Lemma skip_spaces_nil_all s :
  skip_spaces s = [] → Forall (λ b, c_isspace b = true) s.
Proof.
  intros H. destruct (skip_spaces_split s) as (a & E & Ha).
  rewrite H, app_nil_r in E. by subst.
Qed.

(** The number of ASCII digits of a text. *)
Lemma ascii_count_cons c s :
  length (filter (λ x, ascii_digit x) (c :: s))
  = ((if ascii_digit c then 1 else 0)
     + length (filter (λ x, ascii_digit x) s))%nat.
Proof. rewrite filter_cons. by destruct (ascii_digit c). Qed.

Lemma ascii_count_blank a :
  Forall (λ b, c_isspace b = true) a → filter (λ x, ascii_digit x) a = [].
Proof.
  induction 1 as [|b a Hb _ IH]; [done|].
  rewrite filter_cons, decide_False; [done|].
  destruct (ascii_digit b) eqn:E; [|by intros []].
  unfold c_isspace, ascii_digit, in_range in *. bool_lia.
Qed.

Lemma ascii_count_signed sign n z :
  signed sign n z → filter (λ x, ascii_digit x) sign = [].
Proof. by destruct 1. Qed.

Lemma scan_digits_run acc ds n :
  digit_run ascii_value acc ds n → ∀ k rest, stops rest →
  scan_digits false acc k (ds ++ rest)
  = Some (n, (k + length (filter (λ x, ascii_digit x) ds))%nat, rest).
Proof.
  induction 1 as [acc|acc c d s n Hd _ IH|acc c d s n Hd _ IH]; intros k rest Hr.
  - rewrite filter_nil. cbn [length]. rewrite Nat.add_0_r.
    destruct rest as [|c rest]; [done|].
    destruct Hr as [Hc1 Hc2]. simpl. rewrite Hc1.
    by rewrite (proj2 (N.eqb_neq _ _) Hc2).
  - unfold ascii_value in Hd. destruct (ascii_digit c) eqn:Hc; [|done].
    injection Hd as <-. rewrite ascii_count_cons, Hc.
    cbn [app scan_digits]. rewrite Hc, (IH (S k) rest Hr).
    do 3 f_equal. lia.
  - unfold ascii_value in Hd. destruct (ascii_digit c) eqn:Hc; [|done].
    injection Hd as <-. rewrite !ascii_count_cons, Hc.
    cbn [app scan_digits].
    change (ascii_digit 95) with false. change (95 =? 95) with true. cbv iota.
    rewrite Hc, (IH (S k) rest Hr). do 3 f_equal. lia.
Qed.

Lemma scan_digits_count s : ∀ p acc k n k' rest,
  scan_digits p acc k s = Some (n, k', rest) →
  ∃ ds, s = ds ++ rest
        ∧ k' = (k + length (filter (λ x, ascii_digit x) ds))%nat.
Proof.
  induction s as [|c s IH]; intros p acc k n k' rest; cbn [scan_digits].
  - destruct p; [done|]. intros [= <- <- <-]. exists []. split; [done|].
    cbn. lia.
  - destruct (ascii_digit c) eqn:Hc.
    + intros E. apply IH in E as (ds & -> & ->). exists (c :: ds).
      split; [done|]. rewrite ascii_count_cons, Hc. lia.
    + destruct (c =? 95) eqn:Hu.
      * destruct p; [done|]. intros E. apply IH in E as (ds & -> & ->).
        exists (c :: ds). split; [done|]. rewrite ascii_count_cons, Hc. lia.
      * destruct p; [done|]. intros [= <- <- <-]. exists []. split; [done|].
        cbn. lia.
Qed.

Lemma scan_digits_inv s : ∀ p acc k n k' rest,
  scan_digits p acc k s = Some (n, k', rest) →
  stops rest ∧
  if p then
    ∃ c d ds, s = c :: ds ++ rest ∧ ascii_value c = Some d
              ∧ digit_run ascii_value (acc * 10 + Z.of_N d) ds n ∧ (k < k')%nat
  else
    ∃ ds, s = ds ++ rest ∧ digit_run ascii_value acc ds n
          ∧ ((ds = [] ∧ k' = k) ∨ (ds ≠ [] ∧ (k < k')%nat)).
Proof.
  induction s as [|c s IH]; intros p acc k n k' rest; simpl.
  - destruct p; [done|]. intros [= <- <- <-]. split; [done|].
    exists []. split_and!; try done; [constructor|by left].
  - destruct (ascii_digit c) eqn:Hc.
    + intros E. apply IH in E as (Hst & ds & -> & Hrun & Hds).
      split; [done|].
      assert (ascii_value c = Some (c - 48)) as Hv by (unfold ascii_value; by rewrite Hc).
      assert (k < k')%nat by (destruct Hds as [[_ ->]|[_ ?]]; lia).
      destruct p.
      * by exists c, (c - 48), ds.
      * exists (c :: ds). split_and!; try done.
        -- by eapply run_digit.
        -- by right.
    + destruct (c =? 95) eqn:Hu.
      * destruct p; [done|]. intros E.
        apply IH in E as (Hst & c' & d & ds & -> & Hv & Hrun & Hlt).
        apply N.eqb_eq in Hu as ->.
        split; [done|].
        exists (95 :: c' :: ds). split_and!; try done.
        -- by eapply run_underscore.
        -- by right.
      * destruct p; [done|]. intros [= <- <- <-]. split.
        -- split; [done|]. by apply N.eqb_neq.
        -- exists []. split_and!; try done; [constructor|by left].
Qed.

Lemma stops_blank after :
  Forall (λ b, c_isspace b = true) after → stops after.
Proof.
  destruct 1 as [|c after Hc _]; [done|]. simpl.
  unfold c_isspace, ascii_digit, in_range in *. bool_lia.
Qed.

Lemma ascii_value_digit c d : ascii_value c = Some d → ascii_digit c = true ∧ d = c - 48.
Proof. unfold ascii_value. destruct (ascii_digit c); [|done]. by intros [= <-]. Qed.

Lemma digit_not_sign c :
  ascii_digit c = true →
  (c =? 43) = false ∧ (c =? 45) = false ∧ (c =? 95) = false ∧ c_isspace c = false.
Proof.
  unfold ascii_digit, c_isspace, in_range. bool_lia.
Qed.

(** [from_ascii] reads exactly the literals written in ASCII that have
    no more digits than the limit. *)
Lemma from_ascii_literal s z :
  from_ascii s = Some z ↔
  literal c_isspace ascii_value s z
  ∧ (Z.of_nat (length (filter (λ x, ascii_digit x) s)) ≤ max_str_digits)%Z.
Proof.
  split.
  - unfold from_ascii.
    destruct (skip_spaces_split s) as (a & Es & Ha).
    set (s1 := skip_spaces s) in *. clearbody s1.
    set (sg := match s1 with
               | c :: r => if c =? 43 then (false, r)
                           else if c =? 45 then (true, r) else (false, s1)
               | [] => (false, s1) end).
    assert (∃ sign, s1 = sign ++ sg.2
              ∧ ∀ n, signed sign n (if sg.1 then - n else n)%Z) as (sign & Esg & Hsg).
    { unfold sg. destruct s1 as [|c r]; [exists []; split; [done|constructor]|].
      destruct (c =? 43) eqn:H43; [apply N.eqb_eq in H43 as ->; exists [43]; split; [done|constructor]|].
      destruct (c =? 45) eqn:H45; [apply N.eqb_eq in H45 as ->; exists [45]; split; [done|constructor]|].
      exists []; split; [done|constructor]. }
    destruct sg as [negative s2]. simpl in Esg, Hsg.
    destruct (if s2 is c :: _ then c =? 95 else false) eqn:Hus; [done|].
    destruct (scan_digits false 0 0 s2) as [[[n k'] s3]|] eqn:Escan; [|done].
    simpl. destruct (max_str_digits <? Z.of_nat k')%Z eqn:Hmax; [done|].
    destruct (decide (k' = 0%nat)) as [|Hk]; [done|].
    destruct (skip_spaces s3) eqn:E3; [|done]. intros [= <-].
    apply skip_spaces_nil_all in E3.
    pose proof (scan_digits_count _ _ _ _ _ _ _ Escan) as (ds0 & Eds0 & Ek).
    apply scan_digits_inv in Escan as (_ & ds & -> & Hrun & [[_ ->]|[Hne _]]); [done|].
    apply app_inv_tail in Eds0 as <-.
    subst s s1. split.
    + inversion Hrun as [|acc c d ds' n' Hd Hrun'|acc c d ds' n' Hd Hrun']; subst.
      * done.
      * by exists a, sign, c, d, ds', n, s3.
      * simpl in Hus. done.
    + rewrite !filter_app, (ascii_count_blank a), (ascii_count_blank s3) by done.
      rewrite (ascii_count_signed _ _ _ (Hsg 0%Z)), app_nil_r.
      cbn [app]. apply Z.ltb_ge in Hmax. lia.
  - intros [(before & sign & c & d & digits & n & after & -> & Hb & Ha & Hd
             & Hrun & Hsg) Hmax].
    rewrite !filter_app, (ascii_count_blank before) in Hmax by done.
    rewrite (ascii_count_signed _ _ _ Hsg) in Hmax. cbn [app] in Hmax.
    change (c :: digits ++ after) with ((c :: digits) ++ after) in Hmax.
    rewrite filter_app, (ascii_count_blank after), app_nil_r in Hmax by done.
    apply ascii_value_digit in Hd as [Hc ->].
    rewrite ascii_count_cons, Hc in Hmax.
    destruct (digit_not_sign c Hc) as (H43 & H45 & H95 & Hsp).
    unfold from_ascii. rewrite skip_spaces_app by done.
    assert (skip_spaces (sign ++ c :: digits ++ after) = sign ++ c :: digits ++ after) as ->.
    { destruct Hsg; simpl; [by rewrite Hsp|done|done]. }
    pose proof (scan_digits_run (0 * 10 + Z.of_N (c - 48)) digits n Hrun 1 after
                  (stops_blank _ Ha)) as Escan.
    set (k' := (1 + length (filter (λ x, ascii_digit x) digits))%nat) in *.
    assert ((max_str_digits <? Z.of_nat k')%Z = false) as Hk
      by (apply Z.ltb_ge; lia).
    assert (k' ≠ 0%nat) as Hk0 by (unfold k'; lia).
    clearbody k'.
    destruct Hsg as [n|n|n]; simpl; rewrite ?H43, ?H45, ?H95; simpl.
    + rewrite Hc, Escan. simpl. rewrite Hk, decide_False by done.
      by rewrite skip_spaces_all.
    + rewrite Hc, Escan. simpl. rewrite Hk, decide_False by done.
      by rewrite skip_spaces_all.
    + rewrite Hc, Escan. simpl. rewrite Hk, decide_False by done.
      by rewrite skip_spaces_all.
Qed.

Lemma to_ascii_Forall2 s t : to_ascii s = Some t ↔ Forall2 to_ascii_char s t.
Proof.
  revert t. induction s as [|c s IH]; intros t; simpl.
  - split; [intros [= <-]; constructor|by inversion 1].
  - split.
    + destruct (c <? 127) eqn:H1.
      { destruct (to_ascii s) as [t'|]; [|done]. intros [= <-].
        constructor; [left; bool_lia|by apply IH]. }
      destruct (isspace c) eqn:H2.
      { destruct (to_ascii s) as [t'|]; [|done]. intros [= <-].
        constructor; [right; left; split_and!; [bool_lia|done..]|by apply IH]. }
      destruct (todecimal c) as [d|] eqn:H3; [|done].
      destruct (to_ascii s) as [t'|]; [|done]. intros [= <-].
      constructor; [|by apply IH].
      right; right; split_and!; [bool_lia|done|by exists d].
    + inversion 1 as [|? c' ? t' Hc Hs]; subst. apply IH in Hs. rewrite Hs.
      destruct Hc as [[? ->]|[(? & Hsp & ->)|(? & Hsp & d & Hd & ->)]].
      * by replace (c <? 127) with true by (symmetry; bool_lia).
      * replace (c <? 127) with false by (symmetry; bool_lia). by rewrite Hsp.
      * replace (c <? 127) with false by (symmetry; bool_lia). by rewrite Hsp, Hd.
Qed.

Lemma todecimal_lt c d : todecimal c = Some d → d < 10.
Proof.
  unfold todecimal. destruct (is_ascii c).
  - destruct (ascii_digit c) eqn:E; [|done]. intros [= <-].
    unfold ascii_digit, in_range in E. bool_lia.
  - destruct (hangul_syllable c); [done|]. apply ucd_decimal_lt.
Qed.

Lemma todecimal_not_space c d : todecimal c = Some d → isspace c = false.
Proof.
  unfold todecimal. destruct (is_ascii c) eqn:Ha.
  - destruct (ascii_digit c) eqn:E; [|done]. intros _.
    unfold ascii_digit, isspace, in_range in *. bool_lia.
  - destruct (hangul_syllable c); [done|]. apply ucd_decimal_not_space.
Qed.

Lemma to_ascii_char_blank c c' : to_ascii_char c c' → int_blank c = c_isspace c'.
Proof.
  intros [[? ->]|[(? & Hsp & ->)|(? & Hsp & d & Hd & ->)]].
  - unfold int_blank, c_isspace, isspace, in_range.
    destruct ((9 <=? c) && (c <=? 13) || (c =? 32)) eqn:E; bool_lia.
  - unfold int_blank. rewrite Hsp. unfold in_range. simpl. bool_lia.
  - unfold int_blank. rewrite Hsp. simpl. symmetry.
    unfold c_isspace, in_range. bool_lia.
Qed.

Lemma to_ascii_char_digit c c' : to_ascii_char c c' → todecimal c = ascii_value c'.
Proof.
  intros [[? ->]|[(? & Hsp & ->)|(? & Hsp & d & Hd & ->)]].
  - unfold todecimal, ascii_value, is_ascii.
    by replace (c <? 128) with true by (symmetry; bool_lia).
  - change (ascii_value 32) with (@None N).
    destruct (todecimal c) as [d|] eqn:Hd; [|done].
    apply todecimal_not_space in Hd. congruence.
  - rewrite Hd. apply todecimal_lt in Hd. unfold ascii_value, ascii_digit, in_range.
    replace ((48 <=? 48 + d) && (48 + d <=? 57)) with true by (symmetry; bool_lia).
    f_equal. lia.
Qed.

Lemma to_ascii_char_mark c c' m :
  to_ascii_char c c' → m = 43 ∨ m = 45 ∨ m = 95 → c = m ↔ c' = m.
Proof.
  intros [[? ->]|[(? & Hsp & ->)|(? & Hsp & d & Hd & ->)]] Hm; [done|lia|].
  apply todecimal_lt in Hd. lia.
Qed.

End integers.

(** Two alphabets whose characters correspond one to one in what [int]
    makes of them have the same literals. *)
Section transfer.
Context (blank1 blank2 : N → bool) (digit1 digit2 : N → option N).
Context (R : N → N → Prop).
Context (R_blank : ∀ c c', R c c' → blank1 c = blank2 c').
Context (R_digit : ∀ c c', R c c' → digit1 c = digit2 c').
Context (R_mark : ∀ c c' m, R c c' → m = 43 ∨ m = 45 ∨ m = 95 → c = m ↔ c' = m).

Lemma transfer_blank a a' :
  Forall2 R a a' → Forall (λ b, blank1 b = true) a → Forall (λ b, blank2 b = true) a'.
Proof.
  induction 1 as [|c c' a a' Hc _ IH]; [done|]. inversion 1; subst.
  constructor; [|by apply IH]. by rewrite <- (R_blank _ _ Hc).
Qed.

Lemma transfer_run ds ds' :
  Forall2 R ds ds' → ∀ acc n, digit_run digit1 acc ds n → digit_run digit2 acc ds' n.
Proof.
  intros H acc n Hrun. revert ds' H.
  induction Hrun as [acc|acc c d s n Hd _ IH|acc c d s n Hd _ IH]; intros ds' H.
  - inversion H; subst. constructor.
  - inversion H as [|? c' ? s' Hc Hs]; subst.
    eapply run_digit; [by rewrite <- (R_digit _ _ Hc)|by apply IH].
  - inversion H as [|? u' ? t' Hu Ht]; subst.
    inversion Ht as [|? c' ? s' Hc Hs]; subst.
    assert (u' = 95) as -> by (by apply (R_mark 95 u' 95 Hu); auto).
    eapply run_underscore; [by rewrite <- (R_digit _ _ Hc)|by apply IH].
Qed.

Lemma transfer_signed sign sign' n z :
  Forall2 R sign sign' → signed sign n z → signed sign' n z.
Proof.
  intros H Hs. destruct Hs; inversion H as [|? c' ? t' Hc Ht]; subst;
    try inversion Ht; subst; try constructor.
  - assert (c' = 43) as -> by (by apply (R_mark 43 c' 43 Hc); auto). constructor.
  - assert (c' = 45) as -> by (by apply (R_mark 45 c' 45 Hc); auto). constructor.
Qed.

Lemma transfer_literal s t z :
  Forall2 R s t → literal blank1 digit1 s z → literal blank2 digit2 t z.
Proof.
  intros H (before & sign & c & d & digits & n & after & -> & Hb & Ha & Hd & Hrun & Hsg).
  apply Forall2_app_inv_l in H as (before' & t1 & Hb' & H & ->).
  apply Forall2_app_inv_l in H as (sign' & t2 & Hs' & H & ->).
  apply Forall2_cons_inv_l in H as (c' & t3 & Hc' & H & ->).
  apply Forall2_app_inv_l in H as (digits' & after' & Hd' & Ha' & ->).
  exists before', sign', c', d, digits', n, after'. split_and!; try done.
  - by eapply transfer_blank.
  - by eapply transfer_blank.
  - by rewrite <- (R_digit _ _ Hc').
  - by eapply transfer_run.
  - by eapply transfer_signed.
Qed.

End transfer.

Section integers_spec.
Context {U : UnicodeData}.

Lemma int_literal_ascii s t z :
  Forall2 to_ascii_char s t →
  int_literal s z ↔ literal PyInt.c_isspace ascii_value t z.
Proof.
  intros H. split.
  - apply (transfer_literal _ _ _ _ to_ascii_char); try done.
    + apply to_ascii_char_blank.
    + apply to_ascii_char_digit.
    + apply to_ascii_char_mark.
  - apply Forall2_flip in H.
    apply (transfer_literal _ _ _ _ (flip to_ascii_char)); try done.
    + intros c c' Hc. symmetry. by apply to_ascii_char_blank.
    + intros c c' Hc. symmetry. by apply to_ascii_char_digit.
    + intros c c' m Hc Hm. symmetry. by apply to_ascii_char_mark.
Qed.

Lemma to_ascii_total_on_literal s z :
  int_literal s z → is_Some (PyInt.to_ascii s).
Proof.
  intros (before & sign & c & d & digits & n & after & -> & Hb & Ha & Hd & Hrun & Hsg).
  assert (∀ a, Forall (λ b, int_blank b = true) a → ∃ a', Forall2 to_ascii_char a a') as Hblank.
  { induction 1 as [|b a Hb' _ [a' IH]]; [by exists []|].
    destruct (b <? 127) eqn:E.
    - exists (b :: a'). constructor; [left; bool_lia|done].
    - exists (32 :: a'). constructor; [|done]. right; left.
      unfold int_blank in Hb'. apply andb_prop in Hb' as [Hsp _].
      split_and!; [bool_lia|done|done]. }
  assert (∀ c d, todecimal c = Some d → ∃ c', to_ascii_char c c') as Hdig.
  { intros c0 d0 H0. destruct (c0 <? 127) eqn:E.
    - exists c0. left. bool_lia.
    - exists (48 + d0). right; right. split_and!; [bool_lia|by eapply todecimal_not_space|by exists d0]. }
  assert (∀ acc ds n, digit_run todecimal acc ds n → ∃ ds', Forall2 to_ascii_char ds ds') as Hr.
  { induction 1 as [acc|acc c0 d0 s0 n0 Hd0 _ [s' IH]|acc c0 d0 s0 n0 Hd0 _ [s' IH]].
    - by exists [].
    - destruct (Hdig _ _ Hd0) as [c' Hc']. exists (c' :: s'). by constructor.
    - destruct (Hdig _ _ Hd0) as [c' Hc']. exists (95 :: c' :: s').
      constructor; [left; lia|by constructor]. }
  destruct (Hblank _ Hb) as [before' Hb'].
  destruct (Hblank _ Ha) as [after' Ha'].
  destruct (Hdig _ _ Hd) as [c' Hc'].
  destruct (Hr _ _ _ Hrun) as [digits' Hd'].
  assert (∃ sign', Forall2 to_ascii_char sign sign') as [sign' Hs'].
  { destruct Hsg; [by exists []|exists [43]|exists [45]];
      (constructor; [left; lia|constructor]). }
  exists (before' ++ sign' ++ c' :: digits' ++ after').
  apply to_ascii_Forall2.
  apply Forall2_app; [done|]. apply Forall2_app; [done|].
  constructor; [done|]. by apply Forall2_app.
Qed.

Lemma digit_count_ascii s t :
  Forall2 to_ascii_char s t →
  digit_count s = length (filter (λ x, ascii_digit x) t).
Proof.
  unfold digit_count. induction 1 as [|c c' s t Hc _ IH]; [done|].
  rewrite !filter_cons. apply to_ascii_char_digit in Hc.
  unfold isdecimal, ascii_value in *. rewrite Hc.
  destruct (ascii_digit c').
  - rewrite bool_decide_true by (by eexists).
    rewrite !decide_True by done. cbn [length]. by rewrite IH.
  - rewrite bool_decide_false by (by intros [? ?]).
    rewrite !decide_False by (by intros []). exact IH.
Qed.

(** [int] reads exactly the base-10 literals that have no more digits
    than the limit. *)
Lemma int_literal_iff s z :
  PyInt.int s = Some z ↔ int_literal s z ∧ within_limit s.
Proof.
  unfold PyInt.int, within_limit. split.
  - destruct (PyInt.to_ascii s) as [t|] eqn:Et; [|done]. simpl.
    rewrite from_ascii_literal. apply to_ascii_Forall2 in Et.
    by rewrite (int_literal_ascii s t z Et), (digit_count_ascii s t Et).
  - intros [H Hmax]. destruct (to_ascii_total_on_literal _ _ H) as [t Et].
    rewrite Et. simpl. apply to_ascii_Forall2 in Et.
    apply from_ascii_literal.
    by rewrite <- (int_literal_ascii s t z Et), <- (digit_count_ascii s t Et).
Qed.

Lemma int_literal_None s :
  (∀ z, ¬ int_literal s z) ∨ ¬ within_limit s → PyInt.int s = None.
Proof.
  intros H. destruct (PyInt.int s) as [z|] eqn:E; [|done].
  apply int_literal_iff in E as [Hl Hw]. by destruct H as [H|H]; [destruct (H z)|].
Qed.

Lemma parse_int_Ok value name n z :
  parse_int value name n = Ok z ↔ int_literal value z ∧ within_limit value.
Proof.
  rewrite <- int_literal_iff. unfold parse_int.
  destruct (PyInt.int value); split; congruence.
Qed.

Lemma parse_int_Raise value name n :
  PyInt.int value = None →
  parse_int value name n = Raise (err_integer n name value).
Proof. unfold parse_int. by intros ->. Qed.

Lemma parse_int_Some value name n z :
  PyInt.int value = Some z → parse_int value name n = Ok z.
Proof. unfold parse_int. by intros ->. Qed.

Lemma parse_int_row_num value name n n' v :
  parse_int value name n = Ok v → parse_int value name n' = Ok v.
Proof. unfold parse_int. by destruct (PyInt.int value). Qed.

End integers_spec.

(** ** Dates *)


Section dates.
Context {U : UnicodeData}.

Lemma re_digits_Some n : ∀ s r,
  Re.digits n s = Some r ↔
  ∃ ds, s = ds ++ r ∧ length ds = n ∧ Forall (λ c, isdecimal c = true) ds.
Proof.
  induction n as [|n IH]; intros s r; simpl.
  - split.
    + intros [= ->]. by exists [].
    + intros (ds & -> & Hl & _). by destruct ds.
  - destruct s as [|c s].
    + split; [done|]. intros (ds & E & Hl & _). by destruct ds.
    + destruct (isdecimal c) eqn:Hc.
      * rewrite IH. split.
        -- intros (ds & -> & <- & Hd). exists (c :: ds). by repeat constructor.
        -- intros (ds & E & Hl & Hd). destruct ds as [|c' ds]; [done|].
           simplify_eq/=. inversion Hd; subst. by exists ds.
      * split; [done|]. intros (ds & E & Hl & Hd). destruct ds as [|c' ds]; [done|].
        simplify_eq/=. inversion Hd; congruence.
Qed.

Lemma re_char_Some c s r : Re.char c s = Some r ↔ s = c :: r.
Proof.
  unfold Re.char. destruct s as [|c' s]; [done|].
  destruct (c' =? c) eqn:E.
  - apply N.eqb_eq in E as ->. split; congruence.
  - apply N.eqb_neq in E. split; [done|congruence].
Qed.

Lemma match_date_spec v :
  Re.match_date v = true ↔
  date_pattern v ∨ ∃ v', v = v' ++ [10] ∧ date_pattern v'.
Proof.
  unfold Re.match_date, date_pattern. split.
  - cbv zeta.
    destruct (Re.digits 4 v) as [r1|] eqn:E1; cbn [mbind option_bind]; [|done].
    destruct (Re.char 46 r1) as [r2|] eqn:E2; cbn [mbind option_bind]; [|done].
    destruct (Re.digits 2 r2) as [r3|] eqn:E3; cbn [mbind option_bind]; [|done].
    destruct (Re.char 46 r3) as [r4|] eqn:E4; cbn [mbind option_bind]; [|done].
    destruct (Re.digits 2 r4) as [r5|] eqn:E5; [|done].
    apply re_digits_Some in E1 as (ys & -> & Ly & Hy).
    apply re_char_Some in E2 as ->.
    apply re_digits_Some in E3 as (ms & -> & Lm & Hm).
    apply re_char_Some in E4 as ->.
    apply re_digits_Some in E5 as (ds & -> & Ld & Hd).
    destruct ys as [|y1 [|y2 [|y3 [|y4 [|]]]]]; try done.
    destruct ms as [|m1 [|m2 [|]]]; try done.
    destruct ds as [|d1 [|d2 [|]]]; try done.
    assert (Forall (λ c, isdecimal c = true) [y1; y2; y3; y4; m1; m2; d1; d2]) as HF.
    { apply (Forall_app _ [y1; y2; y3; y4] [m1; m2; d1; d2]). split; [done|].
      by apply (Forall_app _ [m1; m2] [d1; d2]). }
    destruct r5 as [|c [|]]; simpl; [| |done].
    + intros _. left. by exists y1, y2, y3, y4, m1, m2, d1, d2.
    + intros ->%N.eqb_eq. right. exists [y1; y2; y3; y4; 46; m1; m2; 46; d1; d2].
      split; [done|]. by exists y1, y2, y3, y4, m1, m2, d1, d2.
  - assert (∀ y1 y2 y3 y4 m1 m2 d1 d2 r,
      Forall (λ c, isdecimal c = true) [y1; y2; y3; y4; m1; m2; d1; d2] →
      (r1 ← Re.digits 4 ([y1; y2; y3; y4; 46; m1; m2; 46; d1; d2] ++ r);
       r2 ← Re.char 46 r1; r3 ← Re.digits 2 r2; r4 ← Re.char 46 r3;
       Re.digits 2 r4) = Some r) as Hm.
    { intros y1 y2 y3 y4 m1 m2 d1 d2 r HF.
      repeat match goal with H : Forall _ (_ :: _) |- _ => inversion H; clear H; subst end.
      simpl. by repeat (match goal with H : isdecimal _ = true |- _ => rewrite H; clear H end; simpl). }
    intros [(y1&y2&y3&y4&m1&m2&d1&d2&->&HF)|(v'&->&y1&y2&y3&y4&m1&m2&d1&d2&->&HF)].
    + specialize (Hm y1 y2 y3 y4 m1 m2 d1 d2 [] HF). rewrite app_nil_r in Hm.
      by rewrite Hm.
    + by rewrite (Hm y1 y2 y3 y4 m1 m2 d1 d2 [10] HF).
Qed.

Lemma match_date_stripped w :
  Re.match_date (strip w) = true ↔ date_pattern (strip w).
Proof.
  rewrite match_date_spec. split; [|by left].
  intros [?|(v' & E & _)]; [done|]. exfalso.
  assert (last (strip w) = Some 10) as Hl by (by rewrite E, last_snoc).
  by apply strip_last in Hl.
Qed.

Lemma parse_date_Ok value name n v :
  parse_date value name n = Ok v ↔
  v = value ∧ Re.match_date value = true ∧ calendar_date value.
Proof.
  unfold parse_date, calendar_date.
  destruct (Re.match_date value); simpl.
  - destruct (Datetime.strptime_Ymd value) as [r|].
    + split; [intros [= <-]; eauto|]. by intros (-> & _).
    + split; [done|]. by intros (_ & _ & [? ?]).
  - split; [done|]. by intros (_ & ? & _).
Qed.

Lemma parse_date_row_num value name n n' v :
  parse_date value name n = Ok v → parse_date value name n' = Ok v.
Proof.
  unfold parse_date. destruct (negb _); [done|]. by destruct (Datetime.strptime_Ymd value).
Qed.













End dates.

(** ** One row *)

Section rows.
Context {U : UnicodeData}.

Lemma parse_row_validate n raw : parse_row n raw = validate_row n raw.
Proof. reflexivity. Qed.

Lemma parse_row_blank n raw :
  has_field raw (u"round") = false → parse_row n raw = Ok None.
Proof. intros H. rewrite parse_row_validate. unfold validate_row. by rewrite H. Qed.

Lemma parse_row_missing n raw :
  has_field raw (u"round") = true → missing_fields raw ≠ [] →
  parse_row n raw = Raise (err_missing n (missing_fields raw)).
Proof.
  intros H Hm. rewrite parse_row_validate. unfold validate_row. rewrite H.
  change (negb true) with false. cbv iota.
  by rewrite bool_decide_eq_false_2.
Qed.

Lemma validate_row_present n raw :
  has_field raw (u"round") = true → missing_fields raw = [] →
  validate_row n raw =
    (v_round ← parse_int (field_text raw (u"round")) (u"round") n;
     v_num1 ← parse_int (field_text raw (u"num1")) (u"num1") n;
     v_num2 ← parse_int (field_text raw (u"num2")) (u"num2") n;
     v_num3 ← parse_int (field_text raw (u"num3")) (u"num3") n;
     v_num4 ← parse_int (field_text raw (u"num4")) (u"num4") n;
     v_num5 ← parse_int (field_text raw (u"num5")) (u"num5") n;
     v_num6 ← parse_int (field_text raw (u"num6")) (u"num6") n;
     v_bonus ← parse_int (field_text raw (u"bonus")) (u"bonus") n;
     v_date ← parse_date (field_text raw (u"date")) (u"date") n;
     Ok (Some {| round := v_round;
                 num1 := v_num1; num2 := v_num2; num3 := v_num3;
                 num4 := v_num4; num5 := v_num5; num6 := v_num6;
                 bonus := v_bonus; date := v_date |})).
Proof.
  intros Hr Hm. unfold validate_row. rewrite Hr, Hm.
  change (negb true) with false. cbv iota.
  by rewrite bool_decide_eq_true_2.
Qed.

Lemma row_first_bad_integer raw n before key after :
  has_field raw (u"round") = true → missing_fields raw = [] →
  numeric_keys = before ++ key :: after →
  Forall (λ k, is_Some (row_int raw k)) before →
  row_int raw key = None →
  parse_row n raw = Raise (err_integer n key (field_text raw key)).
Proof.
  intros Hr Hm Hk Hb Hbad.
  rewrite parse_row_validate, validate_row_present by done.
  unfold numeric_keys, row_int in *.
  Opaque parse_int parse_date field_text.
  repeat (destruct before as [|? before];
    [injection Hk as <- <-; rewrite (parse_int_Raise _ _ _ Hbad); reflexivity
    |injection Hk as <- Hk;
     let H := fresh in
     inversion Hb as [|? ? [? H] Hb']; subst; clear Hb; rename Hb' into Hb;
     rewrite (parse_int_Some _ _ _ _ H), bind_Ok]).
  by destruct before.
  Transparent parse_int parse_date field_text.
Qed.

Lemma row_values raw n d :
  parse_row n raw = Ok (Some d) →
  row_int raw (u"round") = Some (round d)
  ∧ row_int raw (u"num1") = Some (num1 d) ∧ row_int raw (u"num2") = Some (num2 d)
  ∧ row_int raw (u"num3") = Some (num3 d) ∧ row_int raw (u"num4") = Some (num4 d)
  ∧ row_int raw (u"num5") = Some (num5 d) ∧ row_int raw (u"num6") = Some (num6 d)
  ∧ row_int raw (u"bonus") = Some (bonus d)
  ∧ date d = field_text raw (u"date").
Proof.
  rewrite parse_row_validate. unfold validate_row, row_int.
  destruct (negb (has_field _ _)); [done|].
  destruct (negb (bool_decide _)); [done|].
  Opaque parse_date field_text.
  unfold parse_int.
  repeat match goal with
  | |- context [PyInt.int ?v] =>
      lazymatch goal with
      | |- context [match PyInt.int v with _ => _ end] =>
          destruct (PyInt.int v); [rewrite bind_Ok|done]
      end
  end.
  destruct (parse_date _ _ n) as [v|] eqn:E; [|done].
  rewrite bind_Ok. intros [= <-]. cbn [round num1 num2 num3 num4 num5 num6 bonus date].
  apply parse_date_Ok in E as [-> _]. done.
  Transparent parse_date field_text.
Qed.

Lemma missing_fields_eq raw :
  missing_fields raw =
    (if has_field raw (u"date") then [] else [u"date"])
    ++ (if has_field raw (u"bonus") then [] else [u"bonus"])
    ++ (if forallb (has_field raw) num_keys then [] else [u"num1~num6"]).
Proof.
  unfold missing_fields.
  assert (existsb (λ key, negb (has_field raw key)) num_keys
          = negb (forallb (has_field raw) num_keys)) as ->.
  { generalize num_keys. intros l. induction l as [|k l IH]; [done|].
    cbn [existsb forallb]. rewrite IH. by destruct (has_field raw k). }
  by destruct (has_field raw (u"date")), (has_field raw (u"bonus")),
    (forallb (has_field raw) num_keys).
Qed.

Lemma missing_only_bonus raw :
  has_field raw (u"date") = true → has_field raw (u"bonus") = false →
  Forall (λ k, has_field raw k = true) num_keys →
  missing_fields raw = [u"bonus"].
Proof.
  intros Hd Hb Hn. rewrite missing_fields_eq, Hd, Hb.
  replace (forallb (has_field raw) num_keys) with true; [done|].
  symmetry. apply forallb_forall. intros k Hk. rewrite Forall_forall in Hn.
  apply Hn. by apply list_elem_of_In.
Qed.

Lemma parse_row_row_num raw n n' r :
  parse_row n raw = Ok r → parse_row n' raw = Ok r.
Proof.
  rewrite (parse_row_validate n), (parse_row_validate n'). unfold validate_row.
  Opaque parse_int parse_date field_text.
  destruct (negb (has_field _ _)); [done|].
  destruct (negb (bool_decide _)); [done|].
  repeat match goal with
  | |- context [parse_int ?v ?f n] =>
      let E := fresh in
      destruct (parse_int v f n) eqn:E; [|intros [=]];
      rewrite (parse_int_row_num _ _ _ n' _ E), !bind_Ok
  end.
  destruct (parse_date _ _ n) eqn:E; [|intros [=]].
  by rewrite (parse_date_row_num _ _ _ n' _ E).
  Transparent parse_int parse_date field_text.
Qed.

Lemma parse_row_names_row raw n e :
  parse_row n raw = Raise e → names_row e n.
Proof.
  rewrite parse_row_validate. unfold validate_row, names_row.
  destruct (negb (has_field _ _)); [done|].
  destruct (negb (bool_decide _)); [intros [= <-]; by eexists|].
  repeat match goal with
  | |- context [parse_int ?v ?f n] =>
      let E := fresh in
      destruct (parse_int v f n) eqn:E;
      [rewrite bind_Ok
      |unfold parse_int in E; destruct (PyInt.int v); [done|];
        injection E as <-; intros [= <-]; by eexists]
  end.
  unfold parse_date. destruct (negb _); [intros [= <-]; by eexists|].
  destruct (Datetime.strptime_Ymd _); [done|intros [= <-]; by eexists].
Qed.

Lemma row_fails_at raw n : row_fails raw ↔ ∃ e, parse_row n raw = Raise e.
Proof.
  unfold row_fails. split; intros [e He].
  - destruct (parse_row n raw) as [r|e'] eqn:E; [|by eexists].
    by rewrite (parse_row_row_num _ _ 0%Z _ E) in He.
  - destruct (parse_row 0 raw) as [r|e'] eqn:E; [|by eexists].
    by rewrite (parse_row_row_num _ _ n _ E) in He.
Qed.

End rows.

Lemma names_row_inj e n m : names_row e n → names_row e m → n = m.
Proof.
  intros [r1 H1] [r2 H2]. rewrite H1 in H2. unfold row_prefix in H2.
  injection H2 as H2 _. unfold str_of_int in H2.
  apply (f_equal (λ s, match s with 45 :: r => Decimal.Neg Decimal.Nil | _ => Decimal.Pos Decimal.Nil end)) in H2 as Hsign.
  assert (∀ d1 d2, uint_digits d1 = uint_digits d2 → d1 = d2) as Hinj.
  { induction d1; destruct d2; simpl; intros [=]; f_equal; auto. }
  assert (∀ d, match uint_digits d with 45 :: _ => False | _ => True end) as Hno.
  { by destruct d. }
  assert (Z.to_int n = Z.to_int m) as Hz.
  { destruct (Z.to_int n) as [d1|d1], (Z.to_int m) as [d2|d2].
    - f_equal. by apply Hinj.
    - specialize (Hno d1). rewrite H2 in Hno. done.
    - specialize (Hno d2). rewrite <- H2 in Hno. done.
    - injection H2 as H2. f_equal. by apply Hinj. }
  by apply DecimalZ.to_int_inj.
Qed.

(** ** The loop *)

Section loop.
Context {U : UnicodeData}.

Lemma parse_rows_nil n pending acc :
  parse_rows n [] pending acc = (if pending is Some e then Raise e else Ok acc).
Proof. reflexivity. Qed.

Lemma parse_rows_cons n raw rows pending acc :
  parse_rows n (raw :: rows) pending acc =
    (r ← parse_row n raw;
     parse_rows (n + 1) rows pending (if r is Some draw then acc ++ [draw] else acc)).
Proof. cbn [parse_rows]. by destruct (parse_row n raw) as [[?|]|]. Qed.

Lemma parse_rows_acc rows : ∀ n pending acc,
  parse_rows n rows pending acc =
    (ds ← parse_rows n rows pending []; Ok (acc ++ ds)).
Proof.
  induction rows as [|raw rows IH]; intros n pending acc.
  - rewrite !parse_rows_nil. destruct pending; [done|].
    rewrite bind_Ok. by rewrite app_nil_r.
  - rewrite !parse_rows_cons.
    destruct (parse_row n raw) as [r|e]; [|done]. rewrite !bind_Ok.
    rewrite (IH _ _ (if r is Some draw then acc ++ [draw] else acc)).
    rewrite (IH _ _ (if r is Some draw then [] ++ [draw] else [])).
    destruct (parse_rows _ rows pending []) as [ds|]; [|done].
    rewrite !bind_Ok. destruct r; [|done]. by rewrite <- app_assoc.
Qed.

Lemma parse_rows_app rows1 rows2 : ∀ n pending acc,
  parse_rows n (rows1 ++ rows2) pending acc =
    (acc' ← parse_rows n rows1 None acc;
     parse_rows (n + Z.of_nat (length rows1)) rows2 pending acc').
Proof.
  induction rows1 as [|raw rows1 IH]; intros n pending acc.
  - rewrite app_nil_l, parse_rows_nil, bind_Ok. f_equal. simpl. lia.
  - rewrite <- app_comm_cons, !parse_rows_cons.
    destruct (parse_row n raw) as [r|e]; [|done]. rewrite !bind_Ok.
    rewrite IH. destruct (parse_rows _ rows1 None _); [|done].
    rewrite !bind_Ok. f_equal. rewrite length_cons. lia.
Qed.

(** The loop stops at the first row that fails, with the exception of
    that row raised under its number. *)
Lemma parse_rows_first_failure before raw after n pending acc e :
  Forall (λ r, ¬ row_fails r) before →
  parse_row (n + Z.of_nat (length before)) raw = Raise e →
  parse_rows n (before ++ raw :: after) pending acc = Raise e.
Proof.
  intros Hb. revert n acc.
  induction Hb as [|r before Hr Hb IH]; intros n acc He.
  - simpl in He. rewrite Z.add_0_r in He.
    by rewrite app_nil_l, parse_rows_cons, He.
  - rewrite <- app_comm_cons, parse_rows_cons.
    destruct (parse_row n r) as [d|e'] eqn:E.
    + rewrite bind_Ok. apply IH. rewrite <- He. f_equal. rewrite length_cons. lia.
    + exfalso. apply Hr. apply (row_fails_at _ n). by eexists.
Qed.

Lemma parse_rows_row_num rows : ∀ n n' pending acc ds,
  parse_rows n rows pending acc = Ok ds → parse_rows n' rows pending acc = Ok ds.
Proof.
  induction rows as [|raw rows IH]; intros n n' pending acc ds; [done|].
  rewrite !parse_rows_cons.
  destruct (parse_row n raw) as [r|] eqn:E; [|done].
  rewrite (parse_row_row_num _ _ n' _ E), !bind_Ok. apply IH.
Qed.

Lemma parse_rows_all_blank rows : ∀ n acc,
  Forall (λ r, has_field r (u"round") = false) rows →
  parse_rows n rows None acc = Ok acc.
Proof.
  induction rows as [|raw rows IH]; intros n acc H; [done|].
  inversion H; subst. rewrite parse_rows_cons, parse_row_blank, bind_Ok by done.
  by apply IH.
Qed.

Lemma parse_draws_rows csv_text rows pending :
  csv_rows csv_text = Some (rows, pending) →
  parse_draws csv_text =
    (draws ← parse_rows 2 rows pending [];
     if draws is [] then Raise err_no_rows else Ok (sorted_by_round draws)).
Proof.
  unfold csv_rows, parse_draws.
  destruct (Csv.reader _) as [[|[|f fs] recs] p]; [done|done|].
  by intros [= <- <-].
Qed.

Lemma first_failure_number csv_text rows pending before raw after :
  csv_rows csv_text = Some (rows, pending) →
  rows = before ++ raw :: after →
  Forall (λ r, ¬ row_fails r) before →
  row_fails raw →
  ∃ e, parse_row (2 + Z.of_nat (length before)) raw = Raise e
       ∧ parse_draws csv_text = Raise e
       ∧ names_row e (2 + Z.of_nat (length before)).
Proof.
  intros Hr -> Hb Hf.
  apply (row_fails_at _ (2 + Z.of_nat (length before))) in Hf as [e He].
  exists e. split_and!; [done| |by eapply parse_row_names_row].
  rewrite (parse_draws_rows _ _ _ Hr).
  by rewrite (parse_rows_first_failure _ _ _ _ _ _ _ Hb He).
Qed.

Lemma dict_rows_empty_line fieldnames recs1 recs2 :
  Csv.dict_rows fieldnames (recs1 ++ [] :: recs2)
  = Csv.dict_rows fieldnames (recs1 ++ recs2).
Proof.
  unfold Csv.dict_rows. by rewrite !filter_app, filter_cons, decide_False by (by intros ?).
Qed.

End loop.

(** ** The configuration *)

Lemma Ok_inj {A} (a b : A) : Ok a = Ok b → a = b.
Proof. by intros [=]. Qed.

Lemma Raise_inj {A} (e e' : exn) : @Raise A e = Raise e' → e = e'.
Proof. by intros [=]. Qed.

Lemma truthy_opt_false v : truthy_opt v = false ↔ v = None ∨ v = Some [].
Proof.
  destruct v as [[|c s]|]; simpl; split; try done; try (by left); try (by right);
    by intros [?|?].
Qed.

Lemma truthy_opt_true v : truthy_opt v = true ↔ ∃ s, v = Some s ∧ s ≠ [].
Proof.
  destruct v as [[|c s]|]; simpl; split; try done.
  - by intros (s & [= <-] & ?).
  - intros _. by eexists.
  - by intros (s & ? & ?).
Qed.

Lemma source_url_custom env url :
  env !! u"GOOGLE_SHEET_CSV_URL" = Some url → url ≠ [] →
  get_csv_source_url env = Ok url.
Proof.
  intros E Hne. unfold get_csv_source_url. rewrite E.
  destruct url; [done|]. cbn [truthy_opt truthy default]. reflexivity.
Qed.

Lemma source_url_sheet env sheet_id :
  unset env (u"GOOGLE_SHEET_CSV_URL") →
  env !! u"GOOGLE_SHEET_ID" = Some sheet_id → sheet_id ≠ [] →
  get_csv_source_url env
  = Ok (export_url sheet_id (default (u"0") (env !! u"GOOGLE_SHEET_GID"))).
Proof.
  intros Hu E Hne. apply truthy_opt_false in Hu.
  unfold get_csv_source_url. rewrite Hu, E.
  destruct sheet_id; [done|]. cbn [truthy_opt truthy negb default]. unfold export_url. reflexivity.
Qed.

Lemma source_url_none env :
  unset env (u"GOOGLE_SHEET_CSV_URL") → unset env (u"GOOGLE_SHEET_ID") →
  get_csv_source_url env = Raise err_config.
Proof.
  intros Hu Hi. apply truthy_opt_false in Hu, Hi.
  unfold get_csv_source_url. by rewrite Hu, Hi.
Qed.

Lemma source_url_cases env :
  (∃ url, env !! u"GOOGLE_SHEET_CSV_URL" = Some url ∧ url ≠ [])
  ∨ (unset env (u"GOOGLE_SHEET_CSV_URL")
     ∧ ∃ sheet_id, env !! u"GOOGLE_SHEET_ID" = Some sheet_id ∧ sheet_id ≠ [])
  ∨ (unset env (u"GOOGLE_SHEET_CSV_URL") ∧ unset env (u"GOOGLE_SHEET_ID")).
Proof.
  destruct (truthy_opt (env !! u"GOOGLE_SHEET_CSV_URL")) eqn:Eu.
  { left. by apply truthy_opt_true. }
  right. apply truthy_opt_false in Eu.
  destruct (truthy_opt (env !! u"GOOGLE_SHEET_ID")) eqn:Ei.
  - left. split; [done|]. by apply truthy_opt_true.
  - right. split; [done|]. by apply truthy_opt_false.
Qed.

Lemma source_url_nonempty (env : gmap pystr pystr) url :
  get_csv_source_url env = Ok url → url ≠ [].
Proof.
  intros H.
  destruct (source_url_cases env)
    as [(url' & E & Hne)|[(Hu & s & E & Hne)|[Hu Hi]]].
  - rewrite (source_url_custom _ _ E Hne) in H. by injection H as <-.
  - rewrite (source_url_sheet _ _ Hu E Hne) in H. by injection H as <-.
  - by rewrite (source_url_none _ Hu Hi) in H.
Qed.

Lemma export_url_inj_gid sheet_id gid gid' :
  export_url sheet_id gid = export_url sheet_id gid' → gid = gid'.
Proof.
  unfold export_url. intros H.
  apply app_inv_head in H. apply app_inv_head in H. by apply app_inv_head in H.
Qed.

(** ** The writer and [main] *)

Lemma write_json_eq path data w :
  write_json path data w =
  match mkdir_raises w path with
  | Some e => (w, Raise e)
  | None => write_text path (Json.dumps data ++ [10]) w
  end.
Proof.
  unfold write_json, mbind, io_bind, mkdir_parent.
  by destruct (mkdir_raises w path).
Qed.

Lemma write_json_Ok path data w :
  mkdir_raises w path = None →
  write_text_raises w path (Json.dumps data ++ [10]) = None →
  write_json path data w
  = (set_files (<[path := Json.dumps data ++ [10]]> (files w)) w, Ok ()).
Proof. intros Hm Hw. rewrite write_json_eq, Hm. unfold write_text. by rewrite Hw. Qed.

Lemma write_json_Ok_iff path data w :
  (write_json path data w).2 = Ok () ↔
  mkdir_raises w path = None
  ∧ write_text_raises w path (Json.dumps data ++ [10]) = None.
Proof.
  split.
  - rewrite write_json_eq. unfold write_text.
    destruct (mkdir_raises w path) as [e|]; [done|].
    by destruct (write_text_raises w path _) as [[e [held|]]|].
  - intros [Hm Hw]. by rewrite (write_json_Ok _ _ _ Hm Hw).
Qed.

Lemma write_json_written path data w :
  (write_json path data w).2 = Ok () →
  write_json path data w
  = (set_files (<[path := Json.dumps data ++ [10]]> (files w)) w, Ok ()).
Proof. intros [Hm Hw]%write_json_Ok_iff. by apply write_json_Ok. Qed.

Lemma write_outputs_last draws latest w :
  last draws = Some latest →
  write_outputs draws w = write_json (u"lotto.json") (draw_items latest) w.
Proof. intros H. unfold write_outputs. by rewrite H. Qed.

Section running.
Context {U : UnicodeData}.

Lemma main_eq w :
  main w =
  match get_csv_source_url (environ w) with
  | Raise e => (w, Raise e)
  | Ok source_url =>
      match fetch_csv_text w source_url with
      | Raise e => (w, Raise e)
      | Ok csv_text =>
          match parse_draws csv_text with
          | Raise e => (w, Raise e)
          | Ok draws =>
              match write_outputs draws w with
              | (w', Raise e) => (w', Raise e)
              | (w', Ok _) => print (synced_line (length draws) source_url) w'
              end
          end
      end
  end.
Proof.
  unfold main, mbind, io_bind, reads, synced_line.
  destruct (get_csv_source_url (environ w)) as [source_url|e]; [|done].
  destruct (fetch_csv_text w source_url) as [csv_text|e]; [|done].
  by destruct (parse_draws csv_text) as [draws|e].
Qed.

Lemma main_parsed w source_url csv_text draws :
  get_csv_source_url (environ w) = Ok source_url →
  network w source_url = Ok csv_text →
  parse_draws csv_text = Ok draws →
  main w =
  match write_outputs draws w with
  | (w', Raise e) => (w', Raise e)
  | (w', Ok _) => print (synced_line (length draws) source_url) w'
  end.
Proof.
  intros Hg Hn Hp. rewrite main_eq, Hg. unfold fetch_csv_text.
  by rewrite Hn, Hp.
Qed.

End running.

(** ** The sort *)

Section sorting.
Context {U : UnicodeData}.

Lemma insert_by_round_perm d l : insert_by_round d l ≡ₚ d :: l.
Proof.
  induction l as [|d' l IH]; [done|]. simpl.
  destruct (round d <=? round d')%Z; [done|].
  rewrite IH. apply Permutation_swap.
Qed.

Lemma sorted_by_round_perm l : sorted_by_round l ≡ₚ l.
Proof.
  induction l as [|d l IH]; [done|]. simpl.
  by rewrite insert_by_round_perm, IH.
Qed.

Lemma insert_by_round_sorted d l :
  StronglySorted round_le l → StronglySorted round_le (insert_by_round d l).
Proof.
  induction 1 as [|d' l Hs IH Hall]; simpl.
  - repeat constructor.
  - destruct (round d <=? round d')%Z eqn:E.
    + apply Z.leb_le in E. constructor; [by constructor|].
      constructor; [done|]. eapply Forall_impl; [done|].
      unfold round_le. intros; simpl in *. lia.
    + apply Z.leb_gt in E. constructor; [done|].
      rewrite insert_by_round_perm. constructor; [|done].
      unfold round_le. lia.
Qed.

Lemma sorted_by_round_sorted l : StronglySorted round_le (sorted_by_round l).
Proof.
  induction l as [|d l IH]; simpl; [constructor|by apply insert_by_round_sorted].
Qed.

Lemma sorted_last_max l latest :
  StronglySorted round_le l → last l = Some latest → Forall (λ d, round_le d latest) l.
Proof.
  induction 1 as [|d l Hs IH Hall]; [done|]. intros Hl.
  destruct l as [|d' l'].
  - simpl in Hl. injection Hl as <-. repeat constructor. unfold round_le. lia.
  - rewrite last_cons_cons in Hl. specialize (IH Hl). constructor; [|done].
    apply last_Some_elem_of in Hl. rewrite Forall_forall in Hall. by apply Hall.
Qed.

(** The sort is stable: the draws of one round keep their order. *)
Lemma insert_by_round_filter k d l :
  StronglySorted round_le l →
  filter (λ x, round x = k) (insert_by_round d l)
  = filter (λ x, round x = k) (d :: l).
Proof.
  induction 1 as [|d' l Hs IH Hall]; [done|]. simpl.
  destruct (round d <=? round d')%Z eqn:E; [done|].
  apply Z.leb_gt in E.
  rewrite (filter_cons _ d'), IH, !(filter_cons _ d), (filter_cons _ d').
  destruct (decide (round d' = k)) as [Hk|]; [|done].
  destruct (decide (round d = k)) as [Hk'|]; [lia|done].
Qed.

Lemma sorted_by_round_stable k l :
  filter (λ x, round x = k) (sorted_by_round l) = filter (λ x, round x = k) l.
Proof.
  induction l as [|d l IH]; [done|]. simpl.
  rewrite insert_by_round_filter by apply sorted_by_round_sorted.
  by rewrite !filter_cons, IH.
Qed.

Lemma sorted_by_round_nil l : sorted_by_round l = [] → l = [].
Proof.
  intros H. apply Permutation_nil_r. rewrite <- H. symmetry. apply sorted_by_round_perm.
Qed.


End sorting.

(** * Lemmas for the further properties *)

(** ** The result of the parser and [main] *)

Section outcome.
Context {U : UnicodeData}.

Lemma parse_rows_pending rows e : ∀ n acc,
  ∃ e', parse_rows n rows (Some e) acc = Raise e'.
Proof.
  induction rows as [|raw rows IH]; intros n acc.
  - exists e. by rewrite parse_rows_nil.
  - rewrite parse_rows_cons. destruct (parse_row n raw) as [r|e'].
    + rewrite bind_Ok. apply IH.
    + exists e'. by rewrite bind_Raise.
Qed.

Lemma csv_rows_None csv_text :
  csv_rows csv_text = None → ∃ e, parse_draws csv_text = Raise e.
Proof.
  unfold csv_rows, parse_draws.
  destruct (Csv.reader _) as [[|[|f fs] recs] [e|]]; intros H; try done;
    by eexists.
Qed.

Lemma parse_draws_Ok csv_text draws :
  parse_draws csv_text = Ok draws ↔
  ∃ rows parsed,
    csv_rows csv_text = Some (rows, None)
    ∧ parse_rows 2 rows None [] = Ok parsed
    ∧ parsed ≠ [] ∧ draws = sorted_by_round parsed.
Proof.
  split.
  - intros H. destruct (csv_rows csv_text) as [[rows pending]|] eqn:Er.
    2:{ apply csv_rows_None in Er as [e Er]. congruence. }
    rewrite (parse_draws_rows _ _ _ Er) in H.
    destruct pending as [e|].
    { destruct (parse_rows_pending rows e 2 []) as [e' He'].
      by rewrite He', bind_Raise in H. }
    destruct (parse_rows 2 rows None []) as [parsed|] eqn:Ep;
      [|by rewrite bind_Raise in H].
    rewrite bind_Ok in H. exists rows, parsed.
    destruct parsed; [done|]. by injection H as <-.
  - intros (rows & parsed & Er & Ep & Hne & ->).
    rewrite (parse_draws_rows _ _ _ Er), Ep, bind_Ok. by destruct parsed.
Qed.

Lemma parse_draws_last csv_text draws :
  parse_draws csv_text = Ok draws → ∃ latest, last draws = Some latest.
Proof.
  intros (rows & parsed & _ & _ & Hne & ->)%parse_draws_Ok.
  destruct (last (sorted_by_round parsed)) as [latest|] eqn:El; [by eexists|].
  apply last_None, sorted_by_round_nil in El. done.
Qed.

Lemma parse_row_skips n raw :
  parse_row n raw = Ok None ↔ has_field raw (u"round") = false.
Proof.
  split; [|apply parse_row_blank].
  intros H. destruct (has_field raw (u"round")) eqn:Eh; [|done].
  destruct (decide (missing_fields raw = [])) as [Em|Em].
  - rewrite parse_row_validate, (validate_row_present _ _ Eh Em) in H.
    repeat match type of H with
    | (?r ≫= _) = _ => destruct r; [rewrite bind_Ok in H|by rewrite bind_Raise in H]
    end.
    done.
  - by rewrite (parse_row_missing _ _ Eh Em) in H.
Qed.

Lemma parse_rows_length rows : ∀ n acc ds,
  parse_rows n rows None acc = Ok ds →
  length ds
  = (length acc + length (filter (λ r, has_field r (u"round")) rows))%nat.
Proof.
  induction rows as [|raw rows IH]; intros n acc ds H.
  - rewrite parse_rows_nil in H. injection H as <-. simpl. lia.
  - rewrite parse_rows_cons in H.
    destruct (parse_row n raw) as [[d|]|e] eqn:Er; [..|by rewrite bind_Raise in H];
      rewrite bind_Ok in H; apply IH in H; rewrite H.
    + assert (has_field raw (u"round") = true) as Eh.
      { destruct (has_field raw (u"round")) eqn:Eh; [done|].
        by rewrite (parse_row_blank n _ Eh) in Er. }
      rewrite filter_cons_True by (by rewrite Eh).
      rewrite length_app. cbn [length]. lia.
    + apply parse_row_skips in Er.
      rewrite filter_cons_False by (rewrite Er; exact id). done.
Qed.

Lemma main_cases w :
  (∃ source_url csv_text draws latest,
     sheet_read w source_url csv_text draws latest)
  ∨ (∃ e, source_error w e).
Proof.
  unfold sheet_read, source_error.
  destruct (get_csv_source_url (environ w)) as [source_url|e] eqn:Hg.
  2:{ right. exists e. by left. }
  destruct (fetch_csv_text w source_url) as [csv_text|e] eqn:Hn.
  2:{ right. exists e. right; left. by eexists. }
  destruct (parse_draws csv_text) as [draws|e] eqn:Hp.
  2:{ right. exists e. right; right. by do 2 eexists. }
  left. destruct (parse_draws_last _ _ Hp) as [latest Hl].
  by exists source_url, csv_text, draws, latest.
Qed.

Lemma main_source_error w e : source_error w e → main w = (w, Raise e).
Proof.
  rewrite main_eq.
  intros [Hg|[(url & Hg & Hn)|(url & text & Hg & Hn & Hp)]].
  - by rewrite Hg.
  - by rewrite Hg, Hn.
  - by rewrite Hg, Hn, Hp.
Qed.

Lemma source_error_read w e source_url csv_text draws latest :
  source_error w e → sheet_read w source_url csv_text draws latest → False.
Proof.
  intros [Hg|[(url & Hg & Hn)|(url & text & Hg & Hn & Hp)]] (Hg' & Hn' & Hp' & _);
    congruence.
Qed.

(** The run of [main] once the sheet is read: the directory, the file,
    the line. *)
Lemma main_read w source_url csv_text draws latest :
  sheet_read w source_url csv_text draws latest →
  main w =
  match mkdir_raises w (u"lotto.json") with
  | Some e => (w, Raise e)
  | None =>
      match write_text_raises w (u"lotto.json") (json_text latest) with
      | Some (e, Some held) => (with_json held w, Raise e)
      | Some (e, None) => (w, Raise e)
      | None =>
          match print_raises w (synced_line (length draws) source_url) with
          | Some (e, out) =>
              (set_stdout (stdout w ++ out) (with_json (json_text latest) w),
               Raise e)
          | None =>
              (set_stdout (stdout w ++ [synced_line (length draws) source_url])
                 (with_json (json_text latest) w), Ok ())
          end
      end
  end.
Proof.
  intros (Hg & Hn & Hp & Hl). rewrite main_eq, Hg, Hn, Hp.
  rewrite (write_outputs_last _ _ _ Hl), write_json_eq.
  destruct (mkdir_raises w (u"lotto.json")) as [e|]; [done|].
  unfold write_text, json_text, with_json.
  destruct (write_text_raises w (u"lotto.json") _) as [[e [held|]]|]; [done..|].
  unfold print. cbn [print_raises set_files stdout].
  by destruct (print_raises w _) as [[e out]|].
Qed.

End outcome.

(** ** What a row depends on *)

Section columns_lemmas.
Context {U : UnicodeData}.

Lemma pick_value_ext row row' aliases :
  (∀ a, a ∈ aliases → row !! a = row' !! a) →
  pick_value row aliases = pick_value row' aliases.
Proof.
  induction aliases as [|a aliases IH]; intros H; [done|].
  cbn [pick_value]. rewrite <- (H a) by left.
  rewrite IH; [done|]. intros b Hb. apply H. by right.
Qed.

Lemma known_names_alias key a :
  key ∈ canonical_keys → a ∈ (FIELD_ALIASES !!! key : list pystr) →
  a ∈ known_names.
Proof. intros Hk Ha. unfold known_names. apply list_elem_of_bind. eauto. Qed.

Lemma field_ext raw raw' key :
  (∀ a, a ∈ known_names → normalize_row raw !! a = normalize_row raw' !! a) →
  key ∈ canonical_keys → field raw key = field raw' key.
Proof.
  intros H Hk. unfold field. apply pick_value_ext.
  intros a Ha. apply H. by apply (known_names_alias key).
Qed.

Lemma validate_row_ext n raw raw' :
  (∀ key, key ∈ canonical_keys → field raw key = field raw' key) →
  validate_row n raw = validate_row n raw'.
Proof.
  intros H.
  assert (field raw (u"round") = field raw' (u"round")) as E0
    by (apply H; left).
  assert (field raw (u"date") = field raw' (u"date")) as E1
    by (apply H; right; left).
  assert (field raw (u"num1") = field raw' (u"num1")) as E2
    by (apply H; do 2 right; left).
  assert (field raw (u"num2") = field raw' (u"num2")) as E3
    by (apply H; do 3 right; left).
  assert (field raw (u"num3") = field raw' (u"num3")) as E4
    by (apply H; do 4 right; left).
  assert (field raw (u"num4") = field raw' (u"num4")) as E5
    by (apply H; do 5 right; left).
  assert (field raw (u"num5") = field raw' (u"num5")) as E6
    by (apply H; do 6 right; left).
  assert (field raw (u"num6") = field raw' (u"num6")) as E7
    by (apply H; do 7 right; left).
  assert (field raw (u"bonus") = field raw' (u"bonus")) as E8
    by (apply H; do 8 right; left).
  unfold validate_row, missing_fields, num_keys. cbn [existsb].
  unfold has_field, field_text.
  rewrite E0, E1, E2, E3, E4, E5, E6, E7, E8. reflexivity.
Qed.

Lemma parse_row_ext n raw raw' :
  (∀ a, a ∈ known_names → normalize_row raw !! a = normalize_row raw' !! a) →
  parse_row n raw = parse_row n raw'.
Proof.
  intros H. rewrite (parse_row_validate n raw), (parse_row_validate n raw').
  apply validate_row_ext. intros key Hk. by apply field_ext.
Qed.

Lemma parse_row_normalize n raw raw' :
  normalize_row raw = normalize_row raw' → parse_row n raw = parse_row n raw'.
Proof. intros H. apply parse_row_ext. intros a _. by rewrite H. Qed.

Lemma named_recognised k kv :
  k ∈ known_names → named k kv = true → recognised kv = true.
Proof.
  intros Hk [_ Hn%bool_decide_eq_true]%andb_prop.
  unfold recognised. apply bool_decide_eq_true. by rewrite Hn.
Qed.

Lemma normalize_row_recognised raw a :
  a ∈ known_names →
  normalize_row (recognised_only raw) !! a = normalize_row raw !! a.
Proof.
  intros Ha. rewrite !normalize_row_lookup. cbn [recognised_only Csv.items].
  rewrite list_filter_filter_l; [done|].
  intros kv Hn. apply Is_true_true in Hn. apply Is_true_true.
  by apply (named_recognised a).
Qed.

(** *** Rows against the header *)

Lemma dict_row_items_long fieldnames row :
  (length fieldnames ≤ length row)%nat →
  Csv.items (Csv.dict_row fieldnames row)
  = foldl (λ d kv, Csv.dict_set d kv.1 (Some kv.2)) [] (zip fieldnames row).
Proof.
  intros Hl. unfold Csv.dict_row.
  destruct (decide (length fieldnames < length row)%nat); [done|].
  cbn [Csv.items]. rewrite drop_ge by lia. done.
Qed.

Lemma dict_row_take fieldnames row :
  Csv.items (Csv.dict_row fieldnames (take (length fieldnames) row))
  = Csv.items (Csv.dict_row fieldnames row).
Proof.
  destruct (decide (length fieldnames < length row)%nat) as [Hl|Hl].
  - rewrite !dict_row_items_long by (rewrite ?length_take; lia).
    by rewrite (zip_with_take_r pair fieldnames row).
  - by rewrite take_ge by lia.
Qed.

Lemma parse_row_items n raw raw' :
  Csv.items raw = Csv.items raw' → parse_row n raw = parse_row n raw'.
Proof.
  intros H. apply parse_row_normalize. unfold normalize_row. by rewrite H.
Qed.

Lemma cells_of_dict_set d key value :
  cells_of (Csv.dict_set d key value)
  = Csv.dict_set (cells_of d) key (default [] value).
Proof.
  unfold cells_of. induction d as [|[k v] d IH]; [done|].
  cbn [Csv.dict_set fmap list_fmap fst snd].
  destruct (decide (k = key)); [done|].
  cbn [fmap list_fmap fst snd]. by rewrite IH.
Qed.

Lemma cells_of_foldl_Some d kvs :
  cells_of (foldl (λ d kv, Csv.dict_set d kv.1 (Some kv.2)) d kvs)
  = foldl (λ d kv, Csv.dict_set d kv.1 kv.2) (cells_of d) kvs.
Proof.
  revert d. induction kvs as [|kv kvs IH]; intros d; [done|].
  cbn [foldl]. by rewrite IH, cells_of_dict_set.
Qed.

Lemma cells_of_foldl_None d keys :
  cells_of (foldl (λ d key, Csv.dict_set d key None) d keys)
  = foldl (λ d kv, Csv.dict_set d kv.1 kv.2) (cells_of d)
      (zip keys (replicate (length keys) [])).
Proof.
  revert d. induction keys as [|key keys IH]; intros d; [done|].
  cbn [foldl length replicate zip zip_with]. by rewrite IH, cells_of_dict_set.
Qed.

Lemma normalize_row_cells raw raw' :
  cells_of (Csv.items raw) = cells_of (Csv.items raw') →
  normalize_row raw = normalize_row raw'.
Proof.
  intros H. unfold normalize_row.
  transitivity
    (foldl (λ (row : gmap pystr pystr) (kv : pystr * pystr),
              if truthy kv.1 then <[normalize_key kv.1 := strip kv.2]> row
              else row) ∅ (cells_of (Csv.items raw))).
  - unfold cells_of. by rewrite foldl_fmap.
  - rewrite H. unfold cells_of. by rewrite foldl_fmap.
Qed.

Lemma dict_row_pad fieldnames row :
  cells_of (Csv.items (Csv.dict_row fieldnames
              (row ++ replicate (length fieldnames - length row) [])))
  = cells_of (Csv.items (Csv.dict_row fieldnames row)).
Proof.
  destruct (decide (length fieldnames < length row)%nat) as [Hl|Hl].
  { replace (length fieldnames - length row)%nat with 0%nat by lia.
    by rewrite app_nil_r. }
  rewrite dict_row_items_long by (rewrite length_app, length_replicate; lia).
  unfold Csv.dict_row. destruct (decide _) as [|_]; [done|]. cbn [Csv.items].
  rewrite cells_of_foldl_None, !cells_of_foldl_Some.
  rewrite <- (take_drop (length row) fieldnames) at 1.
  rewrite (zip_with_app pair (take (length row) fieldnames)
             (drop (length row) fieldnames) row
             (replicate (length fieldnames - length row) []))
    by (rewrite length_take; lia).
  rewrite foldl_app, length_drop.
  by rewrite (zip_with_take_l pair fieldnames row).
Qed.

(** *** The order of the columns *)

Lemma named_spec k kv :
  named k kv ↔ truthy kv.1 = true ∧ normalize_key kv.1 = k.
Proof.
  unfold named. by rewrite Is_true_true, andb_true_iff, bool_decide_eq_true.
Qed.

Lemma filter_named_nil k items :
  k ∉ (λ kv : pystr * option pystr, normalize_key kv.1)
        <$> filter (λ kv, truthy kv.1) items →
  filter (λ kv, named k kv) items = [].
Proof.
  intros Hk.
  destruct (filter (λ kv, named k kv) items) as [|kv l] eqn:E; [done|].
  exfalso. apply Hk.
  assert (kv ∈ filter (λ kv, named k kv) items) as Hin by (rewrite E; left).
  apply list_elem_of_filter in Hin as [[Ht Hn]%named_spec Hin].
  apply list_elem_of_fmap. exists kv. split; [done|].
  apply list_elem_of_filter. split; [by apply Is_true_true|done].
Qed.

Lemma filter_named_short k items :
  NoDup ((λ kv : pystr * option pystr, normalize_key kv.1)
           <$> filter (λ kv, truthy kv.1) items) →
  (length (filter (λ kv, named k kv) items) ≤ 1)%nat.
Proof.
  induction items as [|kv items IH]; [simpl; lia|]. intros Hnd.
  rewrite filter_cons. destruct (decide (named k kv)) as [Hn|Hn].
  - apply named_spec in Hn as [Ht Hn].
    rewrite filter_cons_True in Hnd by (by apply Is_true_true).
    rewrite fmap_cons, NoDup_cons in Hnd. destruct Hnd as [Hnot Hnd].
    cbn beta in Hnot. rewrite Hn in Hnot.
    rewrite filter_named_nil by done. simpl. lia.
  - apply IH. destruct (decide (truthy kv.1)) as [Ht|Ht].
    + rewrite filter_cons_True in Hnd by done.
      rewrite fmap_cons in Hnd. by apply NoDup_cons in Hnd as [_ ?].
    + by rewrite filter_cons_False in Hnd.
Qed.

Lemma normalize_row_perm raw raw' :
  Csv.items raw ≡ₚ Csv.items raw' → NoDup (column_names raw) →
  normalize_row raw = normalize_row raw'.
Proof.
  intros Hp Hnd. apply map_eq. intros k. rewrite !normalize_row_lookup.
  assert (filter (λ kv, named k kv) (Csv.items raw)
          ≡ₚ filter (λ kv, named k kv) (Csv.items raw')) as Hf by (by rewrite Hp).
  pose proof (filter_named_short k _ Hnd) as Hs.
  destruct (filter (λ kv, named k kv) (Csv.items raw)) as [|kv [|kv' l]].
  - apply Permutation_nil_l in Hf. by rewrite <- Hf.
  - apply Permutation_singleton_l in Hf. by rewrite <- Hf.
  - simpl in Hs. lia.
Qed.

End columns_lemmas.

(** *** The spelling of the headers *)

Section spelling_lemmas.
Context {U : UnicodeData}.

Lemma known_names_nonempty a : a ∈ known_names → a ≠ [].
Proof.
  intros Ha ->. revert Ha. apply (bool_decide_unpack _). vm_compute. exact I.
Qed.

Lemma normalize_key_nil : normalize_key [] = [].
Proof. reflexivity. Qed.

Lemma same_column_named a kv kv' :
  a ≠ [] → same_column kv kv' → named a kv = named a kv'.
Proof.
  intros Ha [Hh _]. apply same_header_normalize in Hh. unfold named.
  rewrite <- Hh.
  destruct (bool_decide (normalize_key kv.1 = a)) eqn:E;
    [|by rewrite !andb_false_r].
  apply bool_decide_eq_true in E. rewrite !andb_true_r.
  assert (∀ h, normalize_key h = a → truthy h = true) as Ht.
  { intros [|c h] Hn; [|done]. rewrite normalize_key_nil in Hn. congruence. }
  rewrite (Ht kv.1 E). symmetry. apply Ht. congruence.
Qed.

Lemma same_column_last a items items' :
  a ≠ [] → Forall2 same_column items items' →
  (λ kv : pystr * option pystr, strip (default [] kv.2))
    <$> last (filter (λ kv, named a kv) items)
  = (λ kv : pystr * option pystr, strip (default [] kv.2))
    <$> last (filter (λ kv, named a kv) items').
Proof.
  intros Ha. induction 1 as [|kv kv' items items' Hkv Hitems IH]; [done|].
  rewrite !filter_cons, <- (same_column_named a kv kv' Ha Hkv).
  destruct (decide (named a kv)); [|done].
  rewrite !last_cons.
  destruct (last (filter _ items)) as [x|], (last (filter _ items')) as [y|];
    try done.
  cbn [fmap option_fmap option_map]. destruct Hkv as [_ ->]. done.
Qed.

Lemma normalize_row_spelling raw raw' a :
  a ∈ known_names → Forall2 same_column (Csv.items raw) (Csv.items raw') →
  normalize_row raw !! a = normalize_row raw' !! a.
Proof.
  intros Ha%known_names_nonempty H. rewrite !normalize_row_lookup.
  by apply same_column_last.
Qed.

End spelling_lemmas.

(** ** Ties and the order of the rows *)

Section order.
Context {U : UnicodeData}.

Lemma last_filter {A} (P : A → Prop) `{!∀ x, Decision (P x)} (l : list A) x :
  last l = Some x → P x → last (filter P l) = Some x.
Proof.
  intros Hl HP. apply last_Some in Hl as [l' ->].
  rewrite filter_app, filter_cons_True by done. by rewrite filter_nil, last_snoc.
Qed.

Lemma same_round_eq (l : list Draw) x y :
  NoDup (round <$> l) → x ∈ l → y ∈ l → round x = round y → x = y.
Proof.
  induction l as [|z l IH]; intros Hnd Hx Hy Hr; [by apply elem_of_nil in Hx|].
  rewrite fmap_cons, NoDup_cons in Hnd. destruct Hnd as [Hz Hnd].
  apply elem_of_cons in Hx as [->|Hx]; apply elem_of_cons in Hy as [->|Hy].
  - done.
  - exfalso. apply Hz. rewrite Hr. by apply list_elem_of_fmap_2.
  - exfalso. apply Hz. rewrite <- Hr. by apply list_elem_of_fmap_2.
  - by apply IH.
Qed.

Lemma sorted_perm_eq (l l' : list Draw) :
  StronglySorted round_le l → StronglySorted round_le l' →
  l ≡ₚ l' → NoDup (round <$> l) → l = l'.
Proof.
  revert l'. induction l as [|x l IH]; intros l' Hs Hs' Hp Hnd.
  { by apply Permutation_nil_l in Hp. }
  destruct l' as [|y l']; [by apply Permutation_nil_r in Hp|].
  apply StronglySorted_inv in Hs as [Hs Hx].
  apply StronglySorted_inv in Hs' as [Hs' Hy].
  assert (x = y) as <-.
  { apply (same_round_eq (x :: l)); [done|left|by rewrite Hp; left|].
    assert (y ∈ x :: l) as Hyin by (rewrite Hp; left).
    assert (x ∈ y :: l') as Hxin by (rewrite <- Hp; left).
    rewrite Forall_forall in Hx, Hy. unfold round_le in *.
    apply elem_of_cons in Hyin as [->|Hyin]; [done|].
    apply elem_of_cons in Hxin as [->|Hxin]; [done|].
    specialize (Hx _ Hyin). specialize (Hy _ Hxin). lia. }
  f_equal. apply IH; try done.
  - by apply (inj (cons x)).
  - rewrite fmap_cons in Hnd. by apply NoDup_cons in Hnd as [_ ?].
Qed.

Lemma sorted_by_round_order l l' :
  l ≡ₚ l' → NoDup (round <$> l) → sorted_by_round l = sorted_by_round l'.
Proof.
  intros Hp Hnd. apply sorted_perm_eq.
  - apply sorted_by_round_sorted.
  - apply sorted_by_round_sorted.
  - by rewrite !sorted_by_round_perm.
  - by rewrite sorted_by_round_perm.
Qed.

Lemma collected_parse_draws csv_text parsed :
  collected csv_text = Some parsed →
  parse_draws csv_text
  = (if parsed is [] then Raise err_no_rows else Ok (sorted_by_round parsed)).
Proof.
  unfold collected. destruct (csv_rows csv_text) as [[rows pending]|] eqn:Er; [|done].
  rewrite (parse_draws_rows _ _ _ Er).
  destruct (parse_rows 2 rows pending []) as [ds|]; [|done].
  intros [= ->]. by rewrite bind_Ok.
Qed.

Lemma parse_draws_collected csv_text draws :
  parse_draws csv_text = Ok draws →
  ∃ parsed, collected csv_text = Some parsed ∧ parsed ≠ []
            ∧ draws = sorted_by_round parsed.
Proof.
  intros (rows & parsed & Er & Ep & Hne & ->)%parse_draws_Ok.
  exists parsed. unfold collected. by rewrite Er, Ep.
Qed.

(** *** Where the draws come from *)

Lemma parse_rows_elem rows : ∀ n acc ds d,
  parse_rows n rows None acc = Ok ds → d ∈ ds →
  d ∈ acc ∨ ∃ raw n', raw ∈ rows ∧ parse_row n' raw = Ok (Some d).
Proof.
  induction rows as [|raw rows IH]; intros n acc ds d H Hd.
  - rewrite parse_rows_nil in H. injection H as <-. by left.
  - rewrite parse_rows_cons in H.
    destruct (parse_row n raw) as [[d'|]|e] eqn:Er; [..|by rewrite bind_Raise in H];
      rewrite bind_Ok in H;
      destruct (IH _ _ _ _ H Hd) as [Hacc|(raw' & n' & Hin & Hr)].
    + apply elem_of_app in Hacc as [?|Hs]; [by left|].
      apply list_elem_of_singleton in Hs as ->. right. exists raw, n. split; [left|done].
    + right. exists raw', n'. split; [by right|done].
    + by left.
    + right. exists raw', n'. split; [by right|done].
Qed.

Lemma field_text_stripped raw key :
  ∃ w, field_text raw key = strip w.
Proof.
  unfold field_text, field.
  destruct (pick_value _ _) as [v|] eqn:E.
  - apply pick_value_Some in E as (s & a & l & _ & _ & Hv & _).
    apply normalize_row_lookup_Some in Hv as (k & value & _ & _ & _ & ->).
    by eexists.
  - exists []. reflexivity.
Qed.

Lemma parse_row_date n raw d :
  parse_row n raw = Ok (Some d) →
  date_pattern (date d) ∧ calendar_date (date d).
Proof.
  intros H. pose proof (row_values _ _ _ H) as (_ & _ & _ & _ & _ & _ & _ & _ & Hd).
  rewrite parse_row_validate in H. unfold validate_row in H.
  destruct (negb (has_field _ _)); [done|].
  destruct (negb (bool_decide _)); [done|].
  repeat match type of H with
  | (parse_int ?v ?f ?m ≫= _) = _ =>
      destruct (parse_int v f m); [rewrite bind_Ok in H|by rewrite bind_Raise in H]
  end.
  destruct (parse_date _ _ _) as [v|] eqn:E; [|by rewrite bind_Raise in H].
  apply parse_date_Ok in E as (-> & Hm & Hc).
  rewrite Hd. split; [|done].
  destruct (field_text_stripped raw (u"date")) as [w Hw].
  rewrite Hw in Hm |- *. by apply match_date_stripped.
Qed.

End order.

(** ** White space around a cell *)

Section trimming.
Context {U : UnicodeData}.

Lemma lstrip_suffix s : ∃ sp, s = sp ++ lstrip s.
Proof.
  induction s as [|c s [sp IH]]; [by exists []|]. cbn [lstrip].
  destruct (isspace c); [|by exists []].
  exists (c :: sp). cbn [app]. by rewrite <- IH.
Qed.

Lemma rstrip_prefix s : ∃ sp, s = rstrip s ++ sp.
Proof.
  unfold rstrip. destruct (lstrip_suffix (reverse s)) as [sp H].
  exists (reverse sp).
  rewrite <- reverse_app, <- H. by rewrite reverse_involutive.
Qed.

Lemma strip_strip w : strip (strip w) = strip w.
Proof.
  unfold strip at 1. rewrite lstrip_fixed by apply strip_head.
  apply rstrip_fixed, strip_last.
Qed.

Lemma strip_fixed s :
  (∀ c, head s = Some c → isspace c = false) →
  (∀ c, last s = Some c → isspace c = false) → strip s = s.
Proof.
  intros Hh Hl. unfold strip. rewrite lstrip_fixed by done. by apply rstrip_fixed.
Qed.

Lemma foldl_ext_in {A B} (f g : A → B → A) (l : list B) :
  (∀ a b, b ∈ l → f a b = g a b) → ∀ a, foldl f a l = foldl g a l.
Proof.
  induction l as [|b l IH]; intros H a; [done|]. cbn [foldl].
  rewrite (H a b) by left. apply IH. intros a' b' Hb. apply H. by right.
Qed.

Lemma normalize_row_trimmed raw : normalize_row (trimmed raw) = normalize_row raw.
Proof.
  unfold normalize_row, trimmed. cbn [Csv.items]. rewrite foldl_fmap.
  apply foldl_ext_in. intros row [k [v|]] _; [|done].
  cbn [fst snd]. change (default [] (strip <$> Some v)) with (strip v).
  cbn [default]. by rewrite strip_strip.
Qed.

End trimming.

(** ** [int] reads what [str] writes *)

Section int_of_str.
Context {U : UnicodeData}.

Lemma uint_digits_ascii d : Forall (λ c, ascii_digit c = true) (uint_digits d).
Proof. induction d; constructor; done. Qed.

Lemma str_of_int_chars z :
  Forall (λ c, ascii_digit c = true ∨ c = 45) (str_of_int z).
Proof.
  unfold str_of_int. destruct (Z.to_int z) as [d|d].
  - eapply Forall_impl; [apply uint_digits_ascii|]. by left.
  - constructor; [by right|].
    eapply Forall_impl; [apply uint_digits_ascii|]. by left.
Qed.

Lemma to_ascii_below s : Forall (λ c, c < 127) s → PyInt.to_ascii s = Some s.
Proof.
  induction 1 as [|c s Hc _ IH]; [done|].
  cbn [PyInt.to_ascii]. apply N.ltb_lt in Hc. by rewrite Hc, IH.
Qed.

Lemma digit_run_acc d : ∀ acc,
  digit_run ascii_value (Z.pos acc) (uint_digits d)
    (Z.pos (Pos.of_uint_acc d acc)).
Proof.
  induction d as [|d IH|d IH|d IH|d IH|d IH|d IH|d IH|d IH|d IH|d IH]; intros acc;
    cbn [uint_digits Pos.of_uint_acc]; [constructor|..].
  all: eapply run_digit; [reflexivity|].
  all: match goal with
       | |- digit_run _ ?a _ (Z.pos (Pos.of_uint_acc _ ?b)) =>
           replace a with (Z.pos b) by (cbn; lia)
       end; apply IH.
Qed.

Lemma digit_run_uint d :
  digit_run ascii_value 0 (uint_digits d) (Z.of_uint d).
Proof.
  unfold Z.of_uint.
  induction d as [|d IH|d IH|d IH|d IH|d IH|d IH|d IH|d IH|d IH|d IH];
    cbn [uint_digits Pos.of_uint]; [constructor|..].
  all: eapply run_digit; [reflexivity|].
  - exact IH.
  - apply (digit_run_acc d 1).
  - apply (digit_run_acc d 2).
  - apply (digit_run_acc d 3).
  - apply (digit_run_acc d 4).
  - apply (digit_run_acc d 5).
  - apply (digit_run_acc d 6).
  - apply (digit_run_acc d 7).
  - apply (digit_run_acc d 8).
  - apply (digit_run_acc d 9).
Qed.

Lemma digit_run_head acc c ds n :
  digit_run ascii_value acc (c :: ds) n → ascii_digit c = true →
  ∃ d, ascii_value c = Some d
       ∧ digit_run ascii_value (acc * 10 + Z.of_N d) ds n.
Proof.
  inversion 1; subst; intros Hc; [by eexists|]. by vm_compute in Hc.
Qed.

Lemma to_int_digits z d :
  Z.to_int z = Decimal.Pos d ∨ Z.to_int z = Decimal.Neg d →
  ∃ c ds, uint_digits d = c :: ds.
Proof.
  intros H. destruct d; cbn [uint_digits]; try by do 2 eexists.
  exfalso. assert (z = 0%Z) as ->.
  { rewrite <- (DecimalZ.of_to z). by destruct H as [->| ->]. }
  by destruct H.
Qed.

Lemma uint_literal d c ds :
  uint_digits d = c :: ds →
  ∃ dv, ascii_value c = Some dv
        ∧ digit_run ascii_value (Z.of_N dv) ds (Z.of_uint d).
Proof.
  intros E. pose proof (digit_run_uint d) as Hr.
  pose proof (uint_digits_ascii d) as Ha. rewrite E in Hr, Ha.
  apply Forall_cons in Ha as [Hc _].
  destruct (digit_run_head _ _ _ _ Hr Hc) as (dv & Hdv & Hrun). by exists dv.
Qed.

Lemma str_of_int_literal z :
  literal PyInt.c_isspace ascii_value (str_of_int z) z.
Proof.
  unfold str_of_int. destruct (Z.to_int z) as [d|d] eqn:E.
  - destruct (to_int_digits z d) as (c & ds & Ed); [by left|].
    destruct (uint_literal _ _ _ Ed) as (dv & Hdv & Hrun).
    exists [], [], c, dv, ds, (Z.of_uint d), [].
    rewrite Ed, app_nil_r. split_and!; try done.
    replace z with (Z.of_uint d); [constructor|].
    rewrite <- (DecimalZ.of_to z), E. done.
  - destruct (to_int_digits z d) as (c & ds & Ed); [by right|].
    destruct (uint_literal _ _ _ Ed) as (dv & Hdv & Hrun).
    exists [], [45], c, dv, ds, (Z.of_uint d), [].
    rewrite Ed, app_nil_r. split_and!; try done.
    replace z with (- Z.of_uint d)%Z; [constructor|].
    rewrite <- (DecimalZ.of_to z), E. done.
Qed.

Lemma int_str_of_int z : short_int z → PyInt.int (str_of_int z) = Some z.
Proof.
  intros Hz. unfold PyInt.int. rewrite to_ascii_below.
  - apply from_ascii_literal. split; [apply str_of_int_literal|].
    pose proof (length_filter (λ x, ascii_digit x) (str_of_int z)).
    unfold short_int, PyInt.max_str_digits in *. lia.
  - eapply Forall_impl; [apply str_of_int_chars|].
    intros c [Hc| ->]; [|done]. unfold ascii_digit, in_range in Hc. bool_lia.
Qed.

Lemma str_of_int_inj z z' : str_of_int z = str_of_int z' → z = z'.
Proof.
  intros H. apply DecimalZ.to_int_inj.
  assert (∀ d d', uint_digits d = uint_digits d' → d = d') as Hinj.
  { induction d; destruct d'; cbn [uint_digits]; intros E; try done;
      injection E as E; f_equal; auto. }
  assert (∀ d d', uint_digits d ≠ 45 :: uint_digits d') as Hne.
  { intros d d' E. pose proof (uint_digits_ascii d) as Ha. rewrite E in Ha.
    by apply Forall_cons in Ha as [? _]. }
  unfold str_of_int in H.
  destruct (Z.to_int z) as [d|d], (Z.to_int z') as [d'|d'].
  - f_equal. by apply Hinj.
  - by apply Hne in H.
  - symmetry in H. by apply Hne in H.
  - injection H as H. f_equal. by apply Hinj.
Qed.

End int_of_str.

(** ** The text of the file determines the draw *)

Lemma hex_digit_inj n m :
  n < 16 → m < 16 → Json.hex_digit n = Json.hex_digit m → n = m.
Proof.
  unfold Json.hex_digit. intros Hn Hm.
  destruct (n <? 10) eqn:En, (m <? 10) eqn:Em; bool_lia.
Qed.

Lemma escape_char_cases c :
  (Json.escape_char c = [c] ∧ c ≠ 92)
  ∨ (∃ e, e ∈ [(34, 34); (92, 92); (8, 98); (12, 102); (10, 110); (13, 114);
               (9, 116)]
          ∧ c = e.1 ∧ Json.escape_char c = [92; e.2])
  ∨ (c < 32
     ∧ Json.escape_char c
       = [92; 117; 48; 48; Json.hex_digit (c / 16); Json.hex_digit (c mod 16)]).
Proof.
  unfold Json.escape_char.
  destruct (c =? 34) eqn:E1.
  { apply N.eqb_eq in E1 as ->. right; left. exists (34, 34). split; [left|done]. }
  destruct (c =? 92) eqn:E2.
  { apply N.eqb_eq in E2 as ->. right; left. exists (92, 92).
    split; [right; left|done]. }
  destruct (c =? 8) eqn:E3.
  { apply N.eqb_eq in E3 as ->. right; left. exists (8, 98).
    split; [do 2 right; left|done]. }
  destruct (c =? 12) eqn:E4.
  { apply N.eqb_eq in E4 as ->. right; left. exists (12, 102).
    split; [do 3 right; left|done]. }
  destruct (c =? 10) eqn:E5.
  { apply N.eqb_eq in E5 as ->. right; left. exists (10, 110).
    split; [do 4 right; left|done]. }
  destruct (c =? 13) eqn:E6.
  { apply N.eqb_eq in E6 as ->. right; left. exists (13, 114).
    split; [do 5 right; left|done]. }
  destruct (c =? 9) eqn:E7.
  { apply N.eqb_eq in E7 as ->. right; left. exists (9, 116).
    split; [do 6 right; left|done]. }
  destruct (c <? 32) eqn:E8.
  { apply N.ltb_lt in E8. right; right. done. }
  left. split; [done|]. by apply N.eqb_neq.
Qed.

Lemma escape_char_app_inj c c' r r' :
  Json.escape_char c ++ r = Json.escape_char c' ++ r' → c = c' ∧ r = r'.
Proof.
  destruct (escape_char_cases c) as [[-> Hc]|[(e & He & -> & ->)|[Hc ->]]];
    destruct (escape_char_cases c') as [[-> Hc']|[(e' & He' & -> & ->)|[Hc' ->]]];
    cbn [app]; intros H.
  - by injection H as -> ->.
  - injection H as -> _. done.
  - injection H as -> _. done.
  - injection H as <- _. done.
  - injection H as H ->. split; [|done].
    elem_cases; subst; cbn [fst snd] in *; done.
  - injection H as H _. exfalso. elem_cases; subst; by cbn [snd] in H.
  - injection H as <- _. done.
  - injection H as H _. exfalso. elem_cases; subst; by cbn [snd] in H.
  - injection H as H1 H2 ->. split; [|done].
    apply hex_digit_inj in H1, H2;
      try (apply N.mod_lt; lia); try (apply N.Div0.div_lt_upper_bound; lia).
    rewrite (N.div_mod c 16), (N.div_mod c' 16) by lia. by rewrite H1, H2.
Qed.

Lemma escape_inj s : ∀ s',
  s ≫= Json.escape_char = s' ≫= Json.escape_char → s = s'.
Proof.
  assert (∀ c r, Json.escape_char c ++ r ≠ []) as Hne.
  { intros c r.
    destruct (escape_char_cases c) as [[-> _]|[(e & _ & _ & ->)|[_ ->]]]; done. }
  induction s as [|c s IH]; intros [|c' s']; cbn [mbind list_bind]; intros H.
  - done.
  - symmetry in H. by apply Hne in H.
  - by apply Hne in H.
  - apply escape_char_app_inj in H as [-> H]. f_equal. by apply IH.
Qed.

Lemma encode_str_inj s s' : Json.encode_str s = Json.encode_str s' → s = s'.
Proof.
  unfold Json.encode_str. intros H.
  apply app_inv_head, app_inv_tail in H. by apply escape_inj.
Qed.

Lemma app_stop_inj (P : N → Prop) a a' c c' x x' :
  Forall P a → Forall P a' → ¬ P c → ¬ P c' →
  a ++ c :: x = a' ++ c' :: x' → a = a' ∧ x = x'.
Proof.
  intros Ha. revert a'. induction Ha as [|b a Hb Ha IH]; intros a' Ha' Hc Hc' H.
  - destruct Ha' as [|b' a' Hb' Ha']; [by injection H|].
    injection H as -> _. done.
  - destruct Ha' as [|b' a' Hb' Ha']; [injection H as -> _; done|].
    injection H as -> H. destruct (IH a' Ha' Hc Hc' H) as [-> ->]. done.
Qed.

Lemma str_of_int_app_inj z z' x x' :
  str_of_int z ++ u"," ++ x = str_of_int z' ++ u"," ++ x' → z = z' ∧ x = x'.
Proof.
  change (u",") with [44]. cbn [app]. intros H.
  apply (app_stop_inj (λ c, ascii_digit c = true ∨ c = 45)) in H as [H ->];
    try apply str_of_int_chars; try (by intros [?|?]).
  split; [|done]. by apply str_of_int_inj.
Qed.

Lemma dumps_draw_inj d d' :
  Json.dumps (draw_items d) = Json.dumps (draw_items d') → d = d'.
Proof.
  unfold Json.dumps, draw_items.
  cbn [fmap list_fmap join]. unfold Json.encode_item, Json.encode.
  cbn [fst snd]. intros H. do 2 apply app_inv_head in H. apply app_inv_tail in H.
  rewrite <- !app_assoc in H.
  repeat (repeat (apply app_inv_head in H);
          apply str_of_int_app_inj in H;
          let E := fresh "E" in destruct H as [E H]).
  repeat (apply app_inv_head in H). apply app_inv_tail, escape_inj in H.
  destruct d as [r n1 n2 n3 n4 n5 n6 b dt], d' as [r' n1' n2' n3' n4' n5' n6' b' dt'].
  cbn [round num1 num2 num3 num4 num5 num6 bonus date] in *. by subst.
Qed.

(** ** The lines and the reader *)

Lemma linebreak_newline c : Csv.is_linebreak c = false → Csv.is_newline c = false.
Proof. unfold Csv.is_linebreak, Csv.is_newline, in_range. intros H. bool_lia. Qed.

Lemma one_line_newline line :
  one_line line → Forall (λ c, Csv.is_newline c = false) line.
Proof. intros H. eapply Forall_impl; [exact H|apply linebreak_newline]. Qed.

(** *** [splitlines] *)

Lemma splitlines_from_app line : ∀ cur s,
  one_line line →
  Csv.splitlines_from cur (line ++ s) = Csv.splitlines_from (reverse line ++ cur) s.
Proof.
  induction line as [|c line IH]; intros cur s Hl; [done|].
  apply Forall_cons in Hl as [Hc Hl]. cbn [app Csv.splitlines_from].
  rewrite Hc, IH by done. by rewrite reverse_cons, <- app_assoc.
Qed.

Lemma splitlines_from_one_line cur line :
  one_line line →
  Csv.splitlines_from cur line
  = (if reverse line ++ cur is [] then [] else [reverse (reverse line ++ cur)]).
Proof.
  intros Hl. rewrite <- (app_nil_r line) at 1.
  by rewrite splitlines_from_app.
Qed.

Lemma splitlines_from_lines (n : nat) : ∀ s cur,
  (length s ≤ n)%nat → one_line cur →
  Forall one_line (Csv.splitlines_from cur s).
Proof.
  induction n as [|n IH]; intros s cur Hn Hcur.
  { destruct s; [|simpl in Hn; lia]. cbn [Csv.splitlines_from].
    destruct cur; [constructor|]. repeat constructor.
    unfold one_line. by rewrite Forall_reverse. }
  destruct s as [|c rest].
  { cbn [Csv.splitlines_from].
    destruct cur; [constructor|]. repeat constructor.
    unfold one_line. by rewrite Forall_reverse. }
  cbn [length] in Hn. cbn [Csv.splitlines_from].
  destruct (Csv.is_linebreak c) eqn:Ec.
  - constructor; [unfold one_line; by rewrite Forall_reverse|].
    destruct rest as [|c' rest'].
    + constructor.
    + destruct ((c =? 13) && (c' =? 10)).
      * apply IH; [cbn [length] in Hn; lia|constructor].
      * apply IH; [lia|constructor].
  - apply IH; [lia|]. by constructor.
Qed.

Lemma splitlines_lines s : Forall one_line (Csv.splitlines s).
Proof. apply (splitlines_from_lines (length s)); [lia|constructor]. Qed.

Lemma splitlines_from_first cur s :
  cur ≠ [] → ∃ line lines, Csv.splitlines_from cur s = line :: lines ∧ line ≠ [].
Proof.
  revert cur. induction s as [|c rest IH]; intros cur Hcur.
  - cbn [Csv.splitlines_from]. destruct cur as [|c cur]; [done|].
    do 2 eexists. split; [done|]. rewrite reverse_cons. by destruct (reverse cur).
  - cbn [Csv.splitlines_from]. destruct (Csv.is_linebreak c).
    + do 2 eexists. split; [done|].
      destruct cur as [|c0 cur]; [done|]. rewrite reverse_cons. by destruct (reverse cur).
    + by apply IH.
Qed.

Lemma splitlines_first s :
  match s with
  | [] => Csv.splitlines s = []
  | c :: _ =>
      if Csv.is_linebreak c then ∃ lines, Csv.splitlines s = [] :: lines
      else ∃ line lines, Csv.splitlines s = line :: lines ∧ line ≠ []
  end.
Proof.
  destruct s as [|c rest]; [done|]. unfold Csv.splitlines.
  cbn [Csv.splitlines_from]. destruct (Csv.is_linebreak c); [by eexists|].
  by apply splitlines_from_first.
Qed.

(** The lines do not depend on the line break that separates them. *)
Lemma splitlines_join sep lines :
  sep = [10] ∨ sep = [13] ∨ sep = [13; 10] →
  Forall one_line lines →
  Csv.splitlines (join sep lines) = lines_of lines.
Proof.
  intros Hsep Hl. unfold Csv.splitlines.
  induction Hl as [|line lines Hline Hlines IH]; [done|].
  destruct lines as [|line' lines'].
  { cbn [join lines_of]. rewrite splitlines_from_one_line by done.
    rewrite app_nil_r. destruct line as [|c line]; [done|].
    rewrite reverse_involutive. rewrite reverse_cons. by destruct (reverse line). }
  change (join sep (line :: line' :: lines'))
    with (line ++ sep ++ join sep (line' :: lines')).
  change (lines_of (line :: line' :: lines'))
    with (line :: lines_of (line' :: lines')).
  rewrite splitlines_from_app by done. rewrite app_nil_r, <- IH.
  destruct Hsep as [->|[->| ->]]; cbn [app Csv.splitlines_from].
  - change (Csv.is_linebreak 10) with true. cbv iota.
    rewrite reverse_involutive.
    by destruct (join [10] (line' :: lines')).
  - change (Csv.is_linebreak 13) with true. cbv iota.
    rewrite reverse_involutive. f_equal.
    destruct (join [13] (line' :: lines')) as [|c' r] eqn:E; [done|].
    assert ((c' =? 10) = false) as ->; [|done].
    apply Forall_cons in Hlines as [Hl' _].
    destruct lines' as [|l'' ls'']; cbn [join] in E.
    + subst line'. apply Forall_cons in Hl' as [Hc' _].
      apply N.eqb_neq. intros ->. done.
    + destruct line' as [|c0 l0]; cbn [app] in E.
      * injection E as <- _. done.
      * injection E as <- _. apply Forall_cons in Hl' as [Hc' _].
        apply N.eqb_neq. intros ->. done.
  - change (Csv.is_linebreak 13) with true. cbv iota.
    by rewrite reverse_involutive.
Qed.

Lemma lines_of_nonempty lines :
  Forall (λ line, line ≠ []) lines → lines_of lines = lines.
Proof.
  induction 1 as [|line lines Hline Hlines IH]; [done|].
  destruct lines as [|line' lines']; [by destruct line|].
  change (lines_of (line :: line' :: lines'))
    with (line :: lines_of (line' :: lines')).
  by rewrite IH.
Qed.

Lemma parse_draws_splitlines `{U : UnicodeData} s s' :
  Csv.splitlines s = Csv.splitlines s' → parse_draws s = parse_draws s'.
Proof. intros H. unfold parse_draws. by rewrite H. Qed.

(** *** What the reader raises, and its first record *)

Lemma ppc_char self ch :
  Csv.is_newline ch = false → Csv.r_state self ≠ Csv.EAT_CRNL →
  Csv.parse_process_char self (Some ch) = Raise err_field_limit
  ∨ ∃ self', Csv.parse_process_char self (Some ch) = Ok self'
             ∧ is_open (Csv.r_state self') = true.
Proof.
  intros Hnl Hst. unfold Csv.parse_process_char, Csv.parse_add_char.
  rewrite Hnl. destruct (Csv.r_state self); try done;
    repeat match goal with
    | |- context [if ?b then _ else _] => destruct b
    end;
    first [by left | right; eexists; split; reflexivity].
Qed.

Lemma ppc_end self :
  Csv.r_state self ≠ Csv.EAT_CRNL →
  ∃ self', Csv.parse_process_char self None = Ok self'
    ∧ match Csv.r_state self with
      | Csv.START_RECORD | Csv.IN_QUOTED_FIELD => self' = self
      | _ => Csv.r_state self' = Csv.START_RECORD
             ∧ Csv.r_fields self'
               = Csv.r_fields self ++ [reverse (Csv.r_field self)]
      end.
Proof.
  intros Hst. unfold Csv.parse_process_char.
  destruct (Csv.r_state self); try done; eexists; split; reflexivity || done.
Qed.

Lemma is_open_not_eat self :
  is_open (Csv.r_state self) = true → Csv.r_state self ≠ Csv.EAT_CRNL.
Proof. by destruct (Csv.r_state self). Qed.

Lemma process_chars_cases line : ∀ self,
  Forall (λ c, Csv.is_newline c = false) line →
  Csv.r_state self ≠ Csv.EAT_CRNL →
  Csv.process_chars self line = Raise err_field_limit
  ∨ ∃ self', Csv.process_chars self line = Ok self'
             ∧ (line = [] ∧ self' = self
                ∨ line ≠ [] ∧ is_open (Csv.r_state self') = true).
Proof.
  induction line as [|c line IH]; intros self Hl Hst.
  { right. exists self. split; [done|by left]. }
  apply Forall_cons in Hl as [Hc Hl]. cbn [Csv.process_chars].
  destruct (ppc_char self c Hc Hst) as [->|(self1 & -> & Hopen)]; [by left|].
  rewrite bind_Ok.
  destruct (IH self1 Hl (is_open_not_eat _ Hopen)) as [->|(self' & -> & Hor)];
    [by left|].
  right. exists self'. split; [done|]. right. split; [done|].
  by destruct Hor as [[_ ->]|[_ ?]].
Qed.

Lemma process_line_cases self line :
  Forall (λ c, Csv.is_newline c = false) line →
  Csv.r_state self ≠ Csv.EAT_CRNL →
  Csv.process_line self line = Raise err_field_limit
  ∨ ∃ self', Csv.process_line self line = Ok self'
      ∧ (Csv.r_state self' = Csv.START_RECORD
         ∧ (Csv.r_state self = Csv.IN_QUOTED_FIELD ∨ line ≠ [] →
            Csv.r_fields self' ≠ [])
         ∨ Csv.r_state self' = Csv.IN_QUOTED_FIELD).
Proof.
  intros Hl Hst. unfold Csv.process_line.
  destruct (process_chars_cases line self Hl Hst) as [->|(self1 & -> & Hor)];
    [by left|].
  rewrite bind_Ok. right.
  assert (Csv.r_state self1 ≠ Csv.EAT_CRNL) as Hst1.
  { destruct Hor as [[_ ->]|[_ ?]]; [done|by apply is_open_not_eat]. }
  destruct (ppc_end self1 Hst1) as (self' & -> & Hend).
  exists self'. split; [done|].
  destruct (Csv.r_state self1) eqn:E1; try done.
  - subst self'. left. split; [done|]. intros Hc.
    destruct Hor as [[-> ->]|[_ Ho]]; [|done].
    destruct Hc as [Hc|Hc]; [congruence|done].
  - destruct Hend as [Hs Hf]. left. split; [done|]. intros _. rewrite Hf.
    by destruct (Csv.r_fields self1).
  - destruct Hend as [Hs Hf]. left. split; [done|]. intros _. rewrite Hf.
    by destruct (Csv.r_fields self1).
  - subst self'. by right.
  - destruct Hend as [Hs Hf]. left. split; [done|]. intros _. rewrite Hf.
    by destruct (Csv.r_fields self1).
Qed.

Lemma records_from_cases lines : ∀ self recs e,
  Forall (Forall (λ c, Csv.is_newline c = false)) lines →
  Csv.r_state self ≠ Csv.EAT_CRNL →
  Csv.records_from self lines = (recs, e) →
  (e = None ∨ e = Some err_field_limit)
  ∧ (Csv.r_state self = Csv.IN_QUOTED_FIELD
     ∨ (∃ line rest, lines = line :: rest ∧ line ≠ []) →
     (∃ rec recs', recs = rec :: recs' ∧ rec ≠ [])
     ∨ (recs = [] ∧ e = Some err_field_limit)).
Proof.
  induction lines as [|line lines IH]; intros self recs e Hl Hst H.
  { cbn [Csv.records_from] in H. split.
    - left. by destruct (_ || _); injection H.
    - intros [Hq|(? & ? & ? & _)]; [|done]. rewrite Hq, orb_true_r in H.
      injection H as <- <-. left. do 2 eexists. split; [done|].
      cbn [Csv.parse_save_field Csv.r_fields]. by destruct (Csv.r_fields self). }
  apply Forall_cons in Hl as [Hline Hl]. cbn [Csv.records_from] in H.
  destruct (process_line_cases self line Hline Hst) as [E|(self' & E & Hor)];
    rewrite E in H.
  { injection H as <- <-. split; [by right|]. intros _. by right. }
  destruct Hor as [[Hs Hf]|Hq].
  - rewrite Hs in H.
    destruct (Csv.records_from Csv.parse_reset lines) as [recs' e'] eqn:E'.
    injection H as <- <-.
    destruct (IH _ _ _ Hl (ltac:(done) : Csv.r_state Csv.parse_reset ≠ Csv.EAT_CRNL) E')
      as [He' _].
    split; [done|]. intros Hc. left. do 2 eexists. split; [done|].
    apply Hf. destruct Hc as [?|(? & ? & [= <- <-] & ?)]; [by left|by right].
  - rewrite Hq in H.
    assert (Csv.r_state self' ≠ Csv.EAT_CRNL) as Hst' by (by rewrite Hq).
    destruct (IH _ _ _ Hl Hst' H) as [He Hrec].
    split; [done|]. intros _. apply Hrec. by left.
Qed.

Lemma reader_cases s recs e :
  Csv.reader (Csv.splitlines s) = (recs, e) →
  (e = None ∨ e = Some err_field_limit)
  ∧ match s with
    | [] => recs = [] ∧ e = None
    | c :: _ =>
        if Csv.is_linebreak c then ∃ recs', recs = [] :: recs'
        else (∃ rec recs', recs = rec :: recs' ∧ rec ≠ [])
             ∨ (recs = [] ∧ e = Some err_field_limit)
    end.
Proof.
  unfold Csv.reader. intros H.
  assert (Forall (Forall (λ c, Csv.is_newline c = false)) (Csv.splitlines s)) as Hl.
  { eapply Forall_impl; [apply splitlines_lines|]. apply one_line_newline. }
  destruct (records_from_cases _ _ _ _ Hl
              (ltac:(done) : Csv.r_state Csv.parse_reset ≠ Csv.EAT_CRNL) H)
    as [He Hrec].
  split; [done|]. pose proof (splitlines_first s) as Hs.
  destruct s as [|c rest].
  - rewrite Hs in H. cbn in H. by injection H.
  - destruct (Csv.is_linebreak c).
    + destruct Hs as [lines Hs]. rewrite Hs in H.
      cbn [Csv.records_from] in H.
      change (Csv.process_line Csv.parse_reset []) with (Ok Csv.parse_reset) in H.
      cbn [Csv.r_state Csv.parse_reset Csv.r_fields] in H.
      destruct (Csv.records_from _ lines) as [recs' e']. injection H as <- _.
      by eexists.
    + destruct Hs as (line & lines & Hs & Hne). apply Hrec. right.
      by exists line, lines.
Qed.

(** ** The errors of the parser *)

Section errors.
Context {U : UnicodeData}.

Lemma parse_row_Raise n raw e : parse_row n raw = Raise e → row_error n raw e.
Proof.
  rewrite parse_row_validate. unfold validate_row, row_error.
  destruct (negb (has_field _ _)); [done|].
  destruct (negb (bool_decide _)); [intros [= <-]; by left|].
  intros H. right.
  repeat match type of H with
  | (parse_int ?v ?f n ≫= _) = _ =>
      let E := fresh in
      destruct (parse_int v f n) eqn:E;
      [rewrite bind_Ok in H
      |rewrite bind_Raise in H; injection H as <-;
       unfold parse_int in E; destruct (PyInt.int v); [done|];
       injection E as <-; left; eexists; split; [|reflexivity];
       unfold numeric_keys; repeat first [left | right]]
  end.
  right. destruct (parse_date _ _ n) eqn:E; [by rewrite bind_Ok in H|].
  rewrite bind_Raise in H. injection H as <-. unfold parse_date in E.
  destruct (negb _); [injection E as <-; by left|].
  destruct (Datetime.strptime_Ymd _); [done|injection E as <-; by right].
Qed.

Lemma row_error_names_row n raw e : row_error n raw e → names_row e n.
Proof.
  intros [->|[(key & _ & ->)|[->| ->]]]; by eexists.
Qed.

Lemma names_row_not_header e n : names_row e n → e ≠ err_header ∧ e ≠ err_no_rows
                                  ∧ e ≠ err_field_limit.
Proof.
  intros [rest H]. split_and!; intros ->; cbn [exn_msg err_header err_no_rows
    err_field_limit row_prefix app] in H; injection H as H _; vm_compute in H;
    discriminate H.
Qed.

Lemma parse_rows_Raise rows : ∀ n pending acc e,
  parse_rows n rows pending acc = Raise e →
  (pending = Some e ∧ Forall (λ r, ¬ row_fails r) rows)
  ∨ ∃ k raw, rows !! k = Some raw ∧ parse_row (n + Z.of_nat k) raw = Raise e
             ∧ Forall (λ r, ¬ row_fails r) (take k rows).
Proof.
  induction rows as [|raw rows IH]; intros n pending acc e H.
  - rewrite parse_rows_nil in H. destruct pending; [|done].
    injection H as <-. by left.
  - rewrite parse_rows_cons in H.
    destruct (parse_row n raw) as [r|e'] eqn:Er.
    + rewrite bind_Ok in H.
      assert (¬ row_fails raw) as Hok.
      { intros [e' He']%(row_fails_at _ n). congruence. }
      destruct (IH _ _ _ _ H) as [[-> Hall]|(k & raw' & Hk & Hr & Hall)].
      * left. split; [done|]. by constructor.
      * right. exists (S k), raw'. split; [done|]. split.
        -- rewrite <- Hr. f_equal. lia.
        -- cbn [take]. by constructor.
    + rewrite bind_Raise in H. injection H as <-.
      right. exists 0%nat, raw. split; [done|]. split.
      * rewrite <- Er. f_equal. lia.
      * constructor.
Qed.

Lemma parse_draws_header s :
  s = [] ∨ blank_first_line s → parse_draws s = Raise err_header.
Proof.
  intros Hs. unfold parse_draws.
  destruct (Csv.reader (Csv.splitlines s)) as [recs e] eqn:E.
  apply reader_cases in E as [He Hrec].
  destruct Hs as [->|(c & rest & -> & Hc)].
  - by destruct Hrec as [-> ->].
  - rewrite Hc in Hrec. by destruct Hrec as [recs' ->].
Qed.

Lemma parse_draws_Raise s e :
  parse_draws s = Raise e →
  (e = err_header ∧ (s = [] ∨ blank_first_line s))
  ∨ e = err_no_rows
  ∨ e = err_field_limit
  ∨ ∃ rows pending k raw,
      csv_rows s = Some (rows, pending) ∧ rows !! k = Some raw
      ∧ Forall (λ r, ¬ row_fails r) (take k rows)
      ∧ row_error (2 + Z.of_nat k) raw e.
Proof.
  intros H.
  assert (s = [] ∨ blank_first_line s
          ∨ ∃ c rest, s = c :: rest ∧ Csv.is_linebreak c = false) as Hs.
  { destruct s as [|c rest]; [by left|]. right.
    destruct (Csv.is_linebreak c) eqn:Ec; [left|right]; by exists c, rest. }
  destruct Hs as [Hs|[Hs|(c & rest & Es & Ec)]].
  { rewrite parse_draws_header in H by (by left).
    injection H as <-. left. split; [done|by left]. }
  { rewrite parse_draws_header in H by (by right).
    injection H as <-. left. split; [done|by right]. }
  destruct (csv_rows s) as [[rows pending]|] eqn:Er.
  - rewrite (parse_draws_rows _ _ _ Er) in H.
    assert (pending = None ∨ pending = Some err_field_limit) as Hp.
    { unfold csv_rows in Er.
      destruct (Csv.reader (Csv.splitlines s)) as [recs p] eqn:E.
      apply reader_cases in E as [He _].
      destruct recs as [|[|f fs] recs]; try done. by injection Er as _ <-. }
    destruct (parse_rows 2 rows pending []) as [draws|e'] eqn:Ep.
    + rewrite bind_Ok in H. destruct draws; [|done]. injection H as <-.
      by right; left.
    + rewrite bind_Raise in H. injection H as <-.
      apply parse_rows_Raise in Ep as [[Hpe _]|(k & raw & Hk & Hr & Hall)].
      * destruct Hp as [->| ->]; [done|]. injection Hpe as <-.
        by right; right; left.
      * do 3 right. exists rows, pending, k, raw. split_and!; try done.
        by apply parse_row_Raise.
  - unfold csv_rows in Er. unfold parse_draws in H.
    destruct (Csv.reader (Csv.splitlines s)) as [recs p] eqn:E.
    apply reader_cases in E as [He Hrec]. rewrite Es, Ec in Hrec.
    destruct Hrec as [(rec & recs' & -> & Hne)|[-> ->]].
    + by destruct rec.
    + injection H as <-. by right; right; left.
Qed.

End errors.

(** *** Reading the cells of a line *)

Lemma reader_at_state st st' fields fld :
  Csv.set_state (reader_at st fields fld) st' = reader_at st' fields fld.
Proof. reflexivity. Qed.

Lemma reader_at_save st fields fld :
  Csv.parse_save_field (reader_at st fields fld)
  = reader_at st (fields ++ [reverse fld]) [].
Proof. reflexivity. Qed.

Lemma reader_at_add st fields fld c :
  N.of_nat (length fld) < 131072 →
  Csv.parse_add_char (reader_at st fields fld) c
  = Ok (reader_at st fields (c :: fld)).
Proof.
  intros Hl. unfold Csv.parse_add_char, reader_at, Csv.field_size_limit.
  cbn [Csv.r_field_len Csv.r_state Csv.r_fields Csv.r_field].
  rewrite (proj2 (N.leb_gt _ _)) by lia. do 2 f_equal. cbn [length]. lia.
Qed.

Lemma plain_char_spec c :
  plain_char c = true →
  Csv.is_newline c = false ∧ (c =? Csv.quotechar) = false
  ∧ (c =? Csv.delimiter) = false.
Proof.
  unfold plain_char, Csv.quotechar, Csv.delimiter.
  rewrite !andb_true_iff, !negb_true_iff. tauto.
Qed.

Lemma step_field_plain fields fld c :
  plain_char c = true →
  Csv.parse_process_char (reader_at Csv.IN_FIELD fields fld) (Some c)
  = Csv.parse_add_char (reader_at Csv.IN_FIELD fields fld) c.
Proof.
  intros (Hn & Hq & Hd)%plain_char_spec. unfold Csv.parse_process_char.
  cbn [Csv.r_state reader_at]. by rewrite Hn, Hd.
Qed.

Lemma step_start_plain fields fld c :
  plain_char c = true →
  Csv.parse_process_char (reader_at Csv.START_FIELD fields fld) (Some c)
  = (self' ← Csv.parse_add_char (reader_at Csv.START_FIELD fields fld) c;
     Ok (Csv.set_state self' Csv.IN_FIELD)).
Proof.
  intros (Hn & Hq & Hd)%plain_char_spec. unfold Csv.parse_process_char.
  cbn [Csv.r_state reader_at]. by rewrite Hn, Hq, Hd.
Qed.

Lemma step_quoted_char fields fld c :
  (c =? 34) = false →
  Csv.parse_process_char (reader_at Csv.IN_QUOTED_FIELD fields fld) (Some c)
  = Csv.parse_add_char (reader_at Csv.IN_QUOTED_FIELD fields fld) c.
Proof.
  intros Hc. unfold Csv.parse_process_char, Csv.quotechar.
  cbn [Csv.r_state reader_at]. by rewrite Hc.
Qed.

Lemma step_quoted_quote fields fld :
  Csv.parse_process_char (reader_at Csv.IN_QUOTED_FIELD fields fld) (Some 34)
  = Ok (reader_at Csv.QUOTE_IN_QUOTED_FIELD fields fld).
Proof. reflexivity. Qed.

Lemma step_quote_quote fields fld :
  Csv.parse_process_char (reader_at Csv.QUOTE_IN_QUOTED_FIELD fields fld) (Some 34)
  = (self' ← Csv.parse_add_char
               (reader_at Csv.QUOTE_IN_QUOTED_FIELD fields fld) 34;
     Ok (Csv.set_state self' Csv.IN_QUOTED_FIELD)).
Proof. reflexivity. Qed.

Lemma step_comma st fields fld :
  st = Csv.START_FIELD ∨ st = Csv.IN_FIELD ∨ st = Csv.QUOTE_IN_QUOTED_FIELD →
  Csv.parse_process_char (reader_at st fields fld) (Some 44)
  = Ok (reader_at Csv.START_FIELD (fields ++ [reverse fld]) []).
Proof. intros [->|[->| ->]]; reflexivity. Qed.

Lemma step_end st fields fld :
  st = Csv.START_FIELD ∨ st = Csv.IN_FIELD ∨ st = Csv.QUOTE_IN_QUOTED_FIELD →
  Csv.parse_process_char (reader_at st fields fld) None
  = Ok (reader_at Csv.START_RECORD (fields ++ [reverse fld]) []).
Proof. intros [->|[->| ->]]; reflexivity. Qed.

Lemma in_field_chars fields s : ∀ fld,
  Forall (λ c, plain_char c = true) s →
  N.of_nat (length fld + length s) ≤ 131072 →
  Csv.process_chars (reader_at Csv.IN_FIELD fields fld) s
  = Ok (reader_at Csv.IN_FIELD fields (reverse s ++ fld)).
Proof.
  induction s as [|c s IH]; intros fld Hs Hl; [done|].
  apply Forall_cons in Hs as [Hc Hs].
  cbn [length] in Hl. cbn [Csv.process_chars].
  rewrite step_field_plain, reader_at_add by (done || lia).
  rewrite bind_Ok, IH by (done || cbn [length]; lia).
  by rewrite reverse_cons, <- app_assoc.
Qed.

Lemma in_quoted_chars fields s : ∀ fld,
  N.of_nat (length fld + length s) ≤ 131072 →
  Csv.process_chars (reader_at Csv.IN_QUOTED_FIELD fields fld)
    (s ≫= λ c, if c =? 34 then [34; 34] else [c])
  = Ok (reader_at Csv.IN_QUOTED_FIELD fields (reverse s ++ fld)).
Proof.
  induction s as [|c s IH]; intros fld Hl; [done|].
  cbn [length] in Hl. cbn [mbind list_bind].
  assert (reverse (c :: s) ++ fld = reverse s ++ c :: fld) as ->
    by (by rewrite reverse_cons, <- app_assoc).
  destruct (c =? 34) eqn:Ec.
  - apply N.eqb_eq in Ec as ->. cbn [app Csv.process_chars].
    rewrite step_quoted_quote, bind_Ok, step_quote_quote.
    rewrite reader_at_add by lia. rewrite !bind_Ok, reader_at_state.
    apply IH. cbn [length]. lia.
  - cbn [app Csv.process_chars].
    rewrite step_quoted_char, reader_at_add by (done || lia).
    rewrite bind_Ok. apply IH. cbn [length]. lia.
Qed.

Lemma process_chars_app a : ∀ self b,
  Csv.process_chars self (a ++ b)
  = (self' ← Csv.process_chars self a; Csv.process_chars self' b).
Proof.
  induction a as [|c a IH]; intros self b; [reflexivity|].
  cbn [app Csv.process_chars].
  destruct (Csv.parse_process_char self (Some c)) as [self1|e].
  - rewrite !bind_Ok. apply IH.
  - by rewrite !bind_Raise.
Qed.

(** After the text of a cell, read from the start of a field, a comma
    or the end of the line adds the cell to the record. *)
Lemma cell_read fields cell text :
  cell_text cell text → fits cell →
  ∃ self,
    Csv.process_chars (reader_at Csv.START_FIELD fields []) text = Ok self
    ∧ Csv.parse_process_char self (Some 44)
      = Ok (reader_at Csv.START_FIELD (fields ++ [cell]) [])
    ∧ Csv.parse_process_char self None
      = Ok (reader_at Csv.START_RECORD (fields ++ [cell]) []).
Proof.
  unfold fits, Csv.field_size_limit.
  intros Ht Hl. destruct Ht as [cell Hp|cell].
  - destruct cell as [|c s].
    { exists (reader_at Csv.START_FIELD fields []). split; [reflexivity|].
      split; reflexivity. }
    apply Forall_cons in Hp as [Hc Hs].
    cbn [length] in Hl.
    exists (reader_at Csv.IN_FIELD fields (reverse s ++ [c])). split; [|split].
    + cbn [Csv.process_chars].
      rewrite step_start_plain, reader_at_add by (done || cbn [length]; lia).
      rewrite !bind_Ok, reader_at_state. apply in_field_chars; [done|].
      cbn [length]. lia.
    + rewrite step_comma by (right; by left).
      by rewrite reverse_app, reverse_involutive.
    + rewrite step_end by (right; by left).
      by rewrite reverse_app, reverse_involutive.
  - exists (reader_at Csv.QUOTE_IN_QUOTED_FIELD fields (reverse cell)).
    split; [|split].
    + unfold csv_quoted. cbn [app Csv.process_chars].
      change (Csv.parse_process_char (reader_at Csv.START_FIELD fields []) (Some 34))
        with (Ok (reader_at Csv.IN_QUOTED_FIELD fields [])).
      rewrite bind_Ok, process_chars_app.
      rewrite in_quoted_chars by (cbn [length]; lia).
      rewrite bind_Ok, app_nil_r. cbn [Csv.process_chars].
      by rewrite step_quoted_quote, bind_Ok.
    + rewrite step_comma by (right; by right). by rewrite reverse_involutive.
    + rewrite step_end by (right; by right). by rewrite reverse_involutive.
Qed.

Lemma cells_read cells : ∀ texts fields,
  Forall2 cell_text cells texts → cells ≠ [] → Forall fits cells →
  Csv.process_line (reader_at Csv.START_FIELD fields []) (join (u",") texts)
  = Ok (reader_at Csv.START_RECORD (fields ++ cells) []).
Proof.
  induction cells as [|cell cells IH]; intros texts fields Ht Hne Hl; [done|].
  apply Forall2_cons_inv_l in Ht as (text & texts' & Htext & Ht & ->).
  apply Forall_cons in Hl as [Hcell Hl].
  destruct (cell_read fields cell text Htext Hcell) as (self & Hs & Hcomma & Hend).
  destruct cells as [|cell' cells'].
  - apply Forall2_nil_inv_l in Ht as ->. cbn [join].
    unfold Csv.process_line. by rewrite Hs, bind_Ok.
  - destruct texts' as [|text' texts'']; [by apply Forall2_cons_nil_inv in Ht|].
    change (join (u",") (text :: text' :: texts''))
      with (text ++ [44] ++ join (u",") (text' :: texts'')).
    unfold Csv.process_line. rewrite process_chars_app, Hs, bind_Ok.
    cbn [app Csv.process_chars]. rewrite Hcomma, bind_Ok.
    specialize (IH (text' :: texts'') (fields ++ [cell]) Ht ltac:(done) Hl).
    unfold Csv.process_line in IH. rewrite IH. by rewrite <- app_assoc.
Qed.

(** A line that is not empty is read from the start of a record as
    from the start of a field. *)
Lemma step_reset c :
  Csv.is_newline c = false →
  Csv.parse_process_char Csv.parse_reset (Some c)
  = Csv.parse_process_char (reader_at Csv.START_FIELD [] []) (Some c).
Proof.
  intros Hc. unfold Csv.parse_process_char.
  cbn [Csv.r_state Csv.parse_reset reader_at]. by rewrite Hc.
Qed.

Lemma process_line_start c line :
  Csv.is_newline c = false →
  Csv.process_line Csv.parse_reset (c :: line)
  = Csv.process_line (reader_at Csv.START_FIELD [] []) (c :: line).
Proof.
  intros Hc. unfold Csv.process_line. cbn [Csv.process_chars].
  by rewrite step_reset.
Qed.

Lemma cell_text_head cell c text :
  cell_text cell (c :: text) → Csv.is_newline c = false.
Proof.
  intros H. remember (c :: text) as t eqn:Et. destruct H as [cell Hp|cell].
  - subst. apply Forall_cons in Hp as [Hp _].
    by apply plain_char_spec in Hp as [? _].
  - unfold csv_quoted in Et. cbn [app] in Et. by injection Et as <- _.
Qed.

Lemma record_read cells texts :
  Forall2 cell_text cells texts → join (u",") texts ≠ [] →
  Forall fits cells →
  Csv.process_line Csv.parse_reset (join (u",") texts)
  = Ok (reader_at Csv.START_RECORD cells []).
Proof.
  intros Ht Hne Hl.
  assert (cells ≠ []) as Hc.
  { intros ->. apply Forall2_nil_inv_l in Ht as ->. done. }
  destruct (join (u",") texts) as [|c line] eqn:E; [done|].
  assert (Csv.is_newline c = false) as Hnl.
  { destruct Ht as [|cell text cells' texts' Htext Ht]; [done|].
    destruct text as [|c0 text].
    - destruct Ht; [done|]. cbn [join app] in E. by injection E as <- _.
    - apply cell_text_head in Htext.
      destruct Ht; cbn [join app] in E; by injection E as <- _. }
  rewrite process_line_start by done. rewrite <- E.
  by apply (cells_read cells texts []).
Qed.

Lemma records_read rows : ∀ lines,
  Forall2 (λ cells line,
             ∃ texts, line = join (u",") texts ∧ Forall2 cell_text cells texts
                      ∧ line ≠ [] ∧ Forall fits cells) rows lines →
  Csv.records_from Csv.parse_reset lines = (rows, None).
Proof.
  induction rows as [|cells rows IH]; intros lines H.
  - by apply Forall2_nil_inv_l in H as ->.
  - apply Forall2_cons_inv_l in H as (line & lines' & (texts & -> & Ht & Hne & Hf) & H & ->).
    cbn [Csv.records_from]. rewrite (record_read cells texts) by done.
    cbn [Csv.r_state reader_at Csv.r_fields]. by rewrite (IH lines').
Qed.

(** *** The size of a field *)

Lemma ppc_char_len self ch :
  Csv.is_newline ch = false → Csv.r_state self ≠ Csv.EAT_CRNL →
  Csv.r_field_len self < Csv.field_size_limit →
  ∃ self', Csv.parse_process_char self (Some ch) = Ok self'
           ∧ Csv.r_state self' ≠ Csv.EAT_CRNL
           ∧ Csv.r_field_len self' ≤ Csv.r_field_len self + 1.
Proof.
  intros Hnl Hst Hlen. unfold Csv.parse_process_char, Csv.parse_add_char.
  rewrite Hnl. apply N.leb_gt in Hlen. rewrite Hlen.
  destruct (Csv.r_state self); try done;
    repeat match goal with
    | |- context [if ?b then _ else _] => destruct b
    end;
    eexists; (split; [reflexivity|]); (split; [done|]);
    cbn [Csv.r_field_len Csv.set_state Csv.parse_save_field]; lia.
Qed.

Lemma ppc_end_len self :
  Csv.r_state self ≠ Csv.EAT_CRNL →
  ∃ self', Csv.parse_process_char self None = Ok self'
           ∧ Csv.r_state self' ≠ Csv.EAT_CRNL
           ∧ Csv.r_field_len self' ≤ Csv.r_field_len self.
Proof.
  intros Hst. unfold Csv.parse_process_char.
  destruct (Csv.r_state self) eqn:E; try done;
    eexists; (split; [reflexivity|]);
    cbn [Csv.r_field_len Csv.r_state Csv.set_state Csv.parse_save_field];
    (split; [by rewrite ?E|lia]).
Qed.

Lemma process_chars_len line : ∀ self,
  Forall (λ c, Csv.is_newline c = false) line →
  Csv.r_state self ≠ Csv.EAT_CRNL →
  Csv.r_field_len self + N.of_nat (length line) ≤ Csv.field_size_limit →
  ∃ self', Csv.process_chars self line = Ok self'
           ∧ Csv.r_state self' ≠ Csv.EAT_CRNL
           ∧ Csv.r_field_len self'
             ≤ Csv.r_field_len self + N.of_nat (length line).
Proof.
  induction line as [|c line IH]; intros self Hl Hst Hlen.
  { exists self. split; [done|]. split; [done|]. cbn [length]. lia. }
  apply Forall_cons in Hl as [Hc Hl]. cbn [length] in Hlen.
  destruct (ppc_char_len self c Hc Hst) as (self1 & E1 & Hst1 & Hlen1); [lia|].
  destruct (IH self1 Hl Hst1) as (self' & E' & Hst' & Hlen'); [lia|].
  exists self'. cbn [Csv.process_chars]. rewrite E1, bind_Ok.
  split; [done|]. split; [done|]. cbn [length]. lia.
Qed.

Lemma process_line_len self line :
  Forall (λ c, Csv.is_newline c = false) line →
  Csv.r_state self ≠ Csv.EAT_CRNL →
  Csv.r_field_len self + N.of_nat (length line) ≤ Csv.field_size_limit →
  ∃ self', Csv.process_line self line = Ok self'
           ∧ Csv.r_state self' ≠ Csv.EAT_CRNL
           ∧ Csv.r_field_len self'
             ≤ Csv.r_field_len self + N.of_nat (length line).
Proof.
  intros Hl Hst Hlen.
  destruct (process_chars_len line self Hl Hst Hlen) as (self1 & E1 & Hst1 & Hlen1).
  destruct (ppc_end_len self1 Hst1) as (self' & E' & Hst' & Hlen').
  exists self'. unfold Csv.process_line. rewrite E1, bind_Ok.
  split; [done|]. split; [done|]. lia.
Qed.

(** The number of the characters of the lines. *)
Lemma records_from_len lines : ∀ self,
  Forall (Forall (λ c, Csv.is_newline c = false)) lines →
  Csv.r_state self ≠ Csv.EAT_CRNL →
  Csv.r_field_len self + N.of_nat (length (concat lines))
    ≤ Csv.field_size_limit →
  (Csv.records_from self lines).2 = None.
Proof.
  induction lines as [|line lines IH]; intros self Hl Hst Hlen.
  { cbn [Csv.records_from]. by destruct (_ || _). }
  apply Forall_cons in Hl as [Hline Hl].
  cbn [concat] in Hlen. rewrite length_app in Hlen.
  destruct (process_line_len self line Hline Hst) as (self' & E & Hst' & Hlen');
    [lia|].
  cbn [Csv.records_from]. rewrite E.
  assert ((Csv.records_from self' lines).2 = None) as Hrest
    by (apply IH; [done|done|lia]).
  assert ((Csv.records_from Csv.parse_reset lines).2 = None) as Hreset.
  { apply IH; [done|done|]. cbn [Csv.r_field_len Csv.parse_reset]. lia. }
  destruct (Csv.r_state self'); try exact Hrest.
  by destruct (Csv.records_from Csv.parse_reset lines) as [recs e].
Qed.

Lemma splitlines_from_length (n : nat) : ∀ s cur,
  (length s ≤ n)%nat →
  (length (concat (Csv.splitlines_from cur s)) ≤ length cur + length s)%nat.
Proof.
  induction n as [|n IH]; intros s cur Hn.
  { destruct s; [|simpl in Hn; lia]. cbn [Csv.splitlines_from].
    destruct cur; cbn [concat length]; [lia|].
    rewrite app_nil_r, length_reverse. cbn [length]. lia. }
  destruct s as [|c rest].
  { cbn [Csv.splitlines_from].
    destruct cur; cbn [concat length]; [lia|].
    rewrite app_nil_r, length_reverse. cbn [length]. lia. }
  cbn [length] in Hn. cbn [Csv.splitlines_from].
  destruct (Csv.is_linebreak c).
  - cbn [concat]. rewrite length_app, length_reverse.
    destruct rest as [|c' rest'].
    + cbn [Csv.splitlines_from concat length]. lia.
    + destruct ((c =? 13) && (c' =? 10)).
      * specialize (IH rest' [] ltac:(cbn [length] in Hn; lia)).
        cbn [length] in *. lia.
      * specialize (IH (c' :: rest') [] ltac:(lia)). cbn [length] in *. lia.
  - specialize (IH rest (c :: cur) ltac:(lia)). cbn [length] in *. lia.
Qed.

Lemma reader_short s :
  N.of_nat (length s) ≤ Csv.field_size_limit →
  (Csv.reader (Csv.splitlines s)).2 = None.
Proof.
  intros Hlen. unfold Csv.reader. apply records_from_len; [|done|].
  - eapply Forall_impl; [apply splitlines_lines|]. apply one_line_newline.
  - pose proof (splitlines_from_length (length s) s [] ltac:(lia)) as H.
    unfold Csv.splitlines. cbn [Csv.r_field_len Csv.parse_reset length] in *. lia.
Qed.

Section short_texts.
Context {U : UnicodeData}.

Lemma row_error_class n raw e : row_error n raw e → exn_cls e ≠ CsvError.
Proof. intros [->|[(key & _ & ->)|[->| ->]]]; discriminate. Qed.

Lemma parse_draws_short s e :
  N.of_nat (length s) ≤ Csv.field_size_limit →
  parse_draws s = Raise e → exn_cls e ≠ CsvError.
Proof.
  intros Hlen H. pose proof (reader_short s Hlen) as Hp.
  unfold parse_draws in H.
  destruct (Csv.reader (Csv.splitlines s)) as [recs pending].
  cbn [snd] in Hp. subst pending.
  destruct recs as [|[|f fs] recs]; try (injection H as <-; discriminate).
  destruct (parse_rows 2 _ None []) as [draws|e'] eqn:Ep.
  - rewrite bind_Ok in H. destruct draws; [|done]. injection H as <-. discriminate.
  - rewrite bind_Raise in H. injection H as <-.
    apply parse_rows_Raise in Ep as [[? _]|(k & raw & _ & Hr & _)]; [done|].
    by apply parse_row_Raise, row_error_class in Hr.
Qed.

End short_texts.

(** *** A line break at the end of the text *)

Lemma splitlines_from_final (n : nat) : ∀ s cur sep,
  (length s ≤ n)%nat →
  sep = [10] ∨ sep = [13] ∨ sep = [13; 10] →
  (∀ c, last s = Some c → Csv.is_linebreak c = false) →
  (s = [] → cur ≠ []) →
  Csv.splitlines_from cur (s ++ sep) = Csv.splitlines_from cur s.
Proof.
  induction n as [|n IH]; intros s cur sep Hn Hsep Hlast Hcur.
  { destruct s; [|simpl in Hn; lia]. specialize (Hcur eq_refl).
    destruct cur; [done|]. by destruct Hsep as [->|[->| ->]]. }
  destruct s as [|c rest].
  { specialize (Hcur eq_refl).
    destruct cur; [done|]. by destruct Hsep as [->|[->| ->]]. }
  cbn [length] in Hn. cbn [app Csv.splitlines_from].
  destruct (Csv.is_linebreak c) eqn:Ec.
  - f_equal. destruct rest as [|c' rest'].
    { exfalso. specialize (Hlast c eq_refl). congruence. }
    cbn [app]. destruct ((c =? 13) && (c' =? 10)) eqn:Ecr.
    + apply IH; [cbn [length] in Hn; lia|done| |].
      * intros x Hx. apply Hlast. destruct rest'; [done|]. exact Hx.
      * intros ->. exfalso. apply andb_prop in Ecr as [_ Hc'].
        apply N.eqb_eq in Hc' as ->. specialize (Hlast 10 eq_refl). done.
    + apply (IH (c' :: rest')); [lia|done| |done].
      intros x Hx. apply Hlast. exact Hx.
  - apply IH; [lia|done| |done].
    intros x Hx. apply Hlast. destruct rest; [done|]. exact Hx.
Qed.

Lemma splitlines_final s sep :
  sep = [10] ∨ sep = [13] ∨ sep = [13; 10] →
  (∃ c, last s = Some c ∧ Csv.is_linebreak c = false) →
  Csv.splitlines (s ++ sep) = Csv.splitlines s.
Proof.
  intros Hsep (c & Hc & Hb). unfold Csv.splitlines.
  apply (splitlines_from_final (length s)); [lia|done| |].
  - intros c' Hc'. congruence.
  - intros ->. done.
Qed.

(** *** Normalising twice *)

Section keys.
Context {U : UnicodeData}.

Lemma ascii_tolower_plain c : plain c = true → plain (ascii_tolower c) = true.
Proof.
  intros H. unfold ascii_tolower. destruct (ascii_upper c) eqn:E; [|done].
  unfold plain, ascii_upper, is_ascii, hangul_syllable, in_range in *. bool_lia.
Qed.

Lemma ascii_tolower_idemp c : ascii_tolower (ascii_tolower c) = ascii_tolower c.
Proof.
  unfold ascii_tolower. destruct (ascii_upper c) eqn:E; [|by rewrite E].
  destruct (ascii_upper (c + 32)) eqn:E'; [|done].
  unfold ascii_upper, in_range in *. bool_lia.
Qed.

Lemma normalize_key_idemp h :
  Forall (λ c, plain c = true) h →
  normalize_key (normalize_key h) = normalize_key h.
Proof.
  intros Hp. rewrite (normalize_key_plain h Hp).
  assert (Forall (λ c, plain c = true)
            (filter (λ ch, isalnum ch) (ascii_tolower <$> h))) as Hp'.
  { apply Forall_forall. intros c [_ Hc]%list_elem_of_filter.
    apply list_elem_of_fmap in Hc as (c0 & -> & Hc0).
    rewrite Forall_forall in Hp. by apply ascii_tolower_plain, Hp. }
  rewrite (normalize_key_plain _ Hp'). clear Hp'.
  induction Hp as [|c h Hc Hp IH]; [done|].
  rewrite fmap_cons, filter_cons.
  destruct (decide (isalnum (ascii_tolower c))) as [Ha|Ha].
  - rewrite fmap_cons, filter_cons, ascii_tolower_idemp.
    rewrite decide_True by done. by rewrite IH.
  - exact IH.
Qed.

End keys.

(** *** The lines of a text written cell by cell *)

Lemma one_line_join cells :
  Forall one_line cells → one_line (join (u",") cells).
Proof.
  induction 1 as [|cell cells Hc Hcs IH]; [constructor|].
  destruct cells as [|cell' cells']; [done|].
  change (join (u",") (cell :: cell' :: cells'))
    with (cell ++ [44] ++ join (u",") (cell' :: cells')).
  unfold one_line in *. rewrite !Forall_app. split_and!; try done.
  by repeat constructor.
Qed.

Lemma join_nonempty sep cell cells : cell ≠ [] → join sep (cell :: cells) ≠ [].
Proof. intros Hne. destruct cells; cbn [join]; by destruct cell. Qed.

Lemma cell_text_one_line cell text :
  cell_text cell text → one_line cell → one_line text.
Proof.
  intros [cell' _|cell'] Hc; [done|].
  unfold csv_quoted, one_line in *. rewrite !Forall_app. split_and!.
  - by repeat constructor.
  - induction Hc as [|c s Hc Hs IH]; [constructor|].
    cbn [mbind list_bind]. rewrite Forall_app. split; [|done].
    destruct (c =? 34); by repeat constructor.
  - by repeat constructor.
Qed.

Lemma one_line_texts cells texts :
  Forall2 cell_text cells texts → Forall one_line cells →
  one_line (join (u",") texts).
Proof.
  intros Ht Hc. apply one_line_join.
  induction Ht as [|cell text cells texts Htext Ht IH]; [constructor|].
  apply Forall_cons in Hc as [Hcell Hc]. constructor; [|by apply IH].
  by apply (cell_text_one_line cell).
Qed.

(** *** Empty lines *)

Lemma process_line_state self line self' :
  Csv.process_line self line = Ok self' →
  Csv.r_state self' = Csv.START_RECORD
  ∨ Csv.r_state self' = Csv.IN_QUOTED_FIELD.
Proof.
  unfold Csv.process_line.
  destruct (Csv.process_chars self line) as [self1|e]; [|done].
  rewrite bind_Ok. unfold Csv.parse_process_char.
  destruct (Csv.r_state self1) eqn:E; intros [= <-]; cbn [Csv.r_state Csv.set_state];
    auto.
Qed.

Lemma records_from_blank before after : ∀ self,
  Csv.r_state self = Csv.IN_QUOTED_FIELD ∨ self = Csv.parse_reset →
  let r1 := Csv.records_from self (before ++ [] :: after) in
  let r2 := Csv.records_from self (before ++ after) in
  r1.2 = r2.2
  ∧ filter (λ r, r ≠ []) r1.1 = filter (λ r, r ≠ []) r2.1
  ∧ (before ≠ [] ∨ Csv.r_state self = Csv.IN_QUOTED_FIELD →
     head r1.1 = head r2.1).
Proof.
  induction before as [|line before IH]; intros self Hself; cbv zeta.
  - cbn [app]. destruct Hself as [Hq| ->].
    + cbn [Csv.records_from]. unfold Csv.process_line.
      cbn [Csv.process_chars]. rewrite bind_Ok.
      unfold Csv.parse_process_char. rewrite Hq. rewrite Hq. done.
    + cbn [Csv.records_from].
      change (Csv.process_line Csv.parse_reset []) with (Ok Csv.parse_reset).
      cbn [Csv.r_state Csv.parse_reset Csv.r_fields].
      destruct (Csv.records_from _ after) as [recs e]. cbn [fst snd].
      split; [done|]. split; [by rewrite filter_cons_False by (by intros ?)|].
      by intros [?|?].
  - cbn [app Csv.records_from].
    destruct (Csv.process_line self line) as [self'|e] eqn:E; [|done].
    destruct (process_line_state _ _ _ E) as [Hs|Hs]; rewrite Hs.
    + destruct (IH Csv.parse_reset (or_intror eq_refl)) as (He & Hf & _).
      destruct (Csv.records_from _ (before ++ [] :: after)) as [recs1 e1].
      destruct (Csv.records_from _ (before ++ after)) as [recs2 e2].
      cbn [fst snd] in *. split; [done|]. split; [|done].
      rewrite !filter_cons. by rewrite Hf.
    + destruct (IH self' (or_introl Hs)) as (He & Hf & Hh).
      split; [done|]. split; [done|]. intros _. apply Hh. by right.
Qed.

Section blank_lines.
Context {U : UnicodeData}.

Lemma parse_draws_lines s : parse_draws s = parse_lines (Csv.splitlines s).
Proof. reflexivity. Qed.

Lemma parse_lines_records lines1 lines2 :
  (Csv.reader lines1).2 = (Csv.reader lines2).2 →
  filter (λ r, r ≠ []) (Csv.reader lines1).1
  = filter (λ r, r ≠ []) (Csv.reader lines2).1 →
  head (Csv.reader lines1).1 = head (Csv.reader lines2).1 →
  parse_lines lines1 = parse_lines lines2.
Proof.
  unfold parse_lines.
  destruct (Csv.reader lines1) as [recs1 e1], (Csv.reader lines2) as [recs2 e2].
  cbn [fst snd]. intros -> Hf Hh.
  destruct recs1 as [|f1 recs1], recs2 as [|f2 recs2]; try done.
  cbn [head] in Hh. injection Hh as <-.
  destruct f1 as [|c f1]; [done|].
  rewrite !filter_cons_True in Hf by done. injection Hf as Hf.
  unfold Csv.dict_rows. by rewrite Hf.
Qed.

Lemma parse_lines_blank before after :
  before ≠ [] ∨ after = [] →
  parse_lines (before ++ [] :: after) = parse_lines (before ++ after).
Proof.
  intros Hc. destruct before as [|line before].
  { destruct Hc as [?| ->]; [done|]. reflexivity. }
  destruct (records_from_blank (line :: before) after Csv.parse_reset
              (or_intror eq_refl)) as (He & Hf & Hh).
  apply parse_lines_records; try done. apply Hh. by left.
Qed.

Lemma lines_of_cases lines :
  lines_of lines = lines ∨ ∃ lines', lines = lines' ++ [[]] ∧ lines_of lines = lines'.
Proof.
  induction lines as [|line lines IH]; [by left|].
  destruct lines as [|line' lines'].
  { destruct line; [right; by exists []|by left]. }
  change (lines_of (line :: line' :: lines'))
    with (line :: lines_of (line' :: lines')).
  destruct IH as [->|(ls & -> & ->)]; [by left|].
  right. by exists (line :: ls).
Qed.

Lemma parse_lines_of lines : parse_lines (lines_of lines) = parse_lines lines.
Proof.
  destruct (lines_of_cases lines) as [->|(ls & -> & ->)]; [done|].
  symmetry. rewrite <- (app_nil_r ls) at 2. apply parse_lines_blank. by right.
Qed.

End blank_lines.

(** ** Reading back a sheet written out of draws *)

Section written_lemmas.
Context {U : UnicodeData}.

Lemma digit_not_space c : ascii_digit c = true ∨ c = 45 → isspace c = false.
Proof.
  intros [H| ->]; [|done]. unfold ascii_digit, isspace, in_range in *. bool_lia.
Qed.

Lemma digit_plain_char c : ascii_digit c = true ∨ c = 45 → plain_char c = true.
Proof.
  intros [H| ->]; [|done].
  unfold ascii_digit, plain_char, Csv.is_newline, in_range in *. bool_lia.
Qed.

Lemma linebreak_space c : Csv.is_linebreak c = true → isspace c = true.
Proof. unfold Csv.is_linebreak, isspace, in_range. intros H. bool_lia. Qed.

Lemma space_free_one_line s :
  Forall (λ c, isspace c = false) s → one_line s.
Proof.
  intros H. eapply Forall_impl; [exact H|]. intros c Hc. cbv beta in *.
  destruct (Csv.is_linebreak c) eqn:E; [|done].
  apply linebreak_space in E. congruence.
Qed.

Lemma space_free_strip s : Forall (λ c, isspace c = false) s → strip s = s.
Proof.
  intros H. rewrite Forall_forall in H.
  apply strip_fixed; intros c Hc; apply H.
  - by apply head_Some_elem_of.
  - by apply last_Some_elem_of.
Qed.

Lemma str_of_int_space_free z : Forall (λ c, isspace c = false) (str_of_int z).
Proof.
  eapply Forall_impl; [apply str_of_int_chars|]. apply digit_not_space.
Qed.

Lemma str_of_int_plain z : Forall (λ c, plain_char c = true) (str_of_int z).
Proof.
  eapply Forall_impl; [apply str_of_int_chars|]. apply digit_plain_char.
Qed.

Lemma str_of_int_nonempty z : str_of_int z ≠ [].
Proof.
  unfold str_of_int. destruct (Z.to_int z) as [d|d] eqn:E; [|done].
  destruct (to_int_digits z d) as (c & ds & ->); [by left|done].
Qed.

Lemma isdecimal_chars c :
  isdecimal c = true → isspace c = false ∧ plain_char c = true.
Proof.
  unfold isdecimal. intros [d Hd]%bool_decide_eq_true.
  split; [by apply (todecimal_not_space c d)|].
  unfold todecimal in Hd. destruct (is_ascii c) eqn:Ea.
  - destruct (ascii_digit c) eqn:Ed; [|done]. apply digit_plain_char. by left.
  - unfold is_ascii in Ea. unfold plain_char, Csv.is_newline. bool_lia.
Qed.

Lemma date_pattern_chars v :
  date_pattern v →
  Forall (λ c, isspace c = false) v ∧ Forall (λ c, plain_char c = true) v
  ∧ length v = 10%nat.
Proof.
  intros (y1 & y2 & y3 & y4 & m1 & m2 & d1 & d2 & -> & H).
  repeat match goal with
  | H : Forall _ (_ :: _) |- _ =>
      let Hc := fresh "Hc" in
      apply Forall_cons in H as [Hc%isdecimal_chars H]; destruct Hc
  end.
  split_and!; [..|done]; repeat constructor; done.
Qed.

Lemma data_row_fields c1 c2 c3 c4 c5 c6 c7 c8 c9 :
  let raw := data_row [c1; c2; c3; c4; c5; c6; c7; c8; c9] in
  let value c := if truthy (strip c) then Some (strip c) else None in
  field raw (u"round") = value c1 ∧ field raw (u"date") = value c2
  ∧ field raw (u"num1") = value c3 ∧ field raw (u"num2") = value c4
  ∧ field raw (u"num3") = value c5 ∧ field raw (u"num4") = value c6
  ∧ field raw (u"num5") = value c7 ∧ field raw (u"num6") = value c8
  ∧ field raw (u"bonus") = value c9.
Proof.
  intros raw value. subst raw value. cbv beta.
  unfold field, normalize_row, data_row.
  cbn [zip zip_with fmap list_fmap foldl Csv.items fst snd].
  repeat match goal with
  | |- context [default [] (Some ?c)] => change (default [] (Some c)) with c
  end.
  generalize (strip c1), (strip c2), (strip c3), (strip c4), (strip c5),
    (strip c6), (strip c7), (strip c8), (strip c9).
  intros v1 v2 v3 v4 v5 v6 v7 v8 v9.
  split_and!; vm_compute; reflexivity.
Qed.

Lemma dict_row_canonical c1 c2 c3 c4 c5 c6 c7 c8 c9 :
  Csv.dict_row canonical_keys [c1; c2; c3; c4; c5; c6; c7; c8; c9]
  = data_row [c1; c2; c3; c4; c5; c6; c7; c8; c9].
Proof. vm_compute. reflexivity. Qed.

End written_lemmas.

Section written_rows.
Context {U : UnicodeData}.

Lemma value_of_cell c :
  Forall (λ ch, isspace ch = false) c → c ≠ [] →
  (if truthy (strip c) then Some (strip c) else None) = Some c.
Proof.
  intros Hs Hne. rewrite space_free_strip by done. by destruct c.
Qed.

Lemma written_row n d :
  writable d → parse_row n (data_row (draw_cells d)) = Ok (Some d).
Proof.
  intros (Hp & Hc & Hs).
  destruct (date_pattern_chars _ Hp) as (Hsp & _ & Hlen).
  assert (date d ≠ []) as Hdne by (by destruct (date d)).
  pose proof (data_row_fields (str_of_int (round d)) (date d)
    (str_of_int (num1 d)) (str_of_int (num2 d)) (str_of_int (num3 d))
    (str_of_int (num4 d)) (str_of_int (num5 d)) (str_of_int (num6 d))
    (str_of_int (bonus d))) as HF.
  cbv beta zeta in HF. fold (draw_cells d) in HF.
  rewrite !value_of_cell in HF
    by first [apply str_of_int_space_free | apply str_of_int_nonempty | done].
  destruct HF as (F1 & F2 & F3 & F4 & F5 & F6 & F7 & F8 & F9).
  set (raw := data_row (draw_cells d)) in *.
  assert (∀ z, truthy_opt (Some (str_of_int z)) = true) as Ht.
  { intros z. pose proof (str_of_int_nonempty z).
    destruct (str_of_int z); [contradiction|reflexivity]. }
  assert (truthy_opt (Some (date d)) = true) as Htd.
  { destruct (date d); [contradiction|reflexivity]. }
  assert (has_field raw (u"round") = true) as H1
    by (unfold has_field; by rewrite F1).
  assert (missing_fields raw = []) as Hm.
  { rewrite missing_fields_eq. unfold num_keys. cbn [forallb].
    unfold has_field. rewrite F2, F3, F4, F5, F6, F7, F8, F9, Htd, !Ht. done. }
  rewrite parse_row_validate, (validate_row_present _ _ H1 Hm).
  unfold field_text. rewrite F1, F2, F3, F4, F5, F6, F7, F8, F9.
  cbn [default]. unfold id.
  unfold draw_numbers in Hs.
  repeat match type of Hs with
  | Forall short_int (?z :: _) =>
      apply Forall_cons in Hs as [?%int_str_of_int Hs]
  end.
  repeat match goal with
  | H : PyInt.int (str_of_int ?z) = Some ?z |- _ =>
      rewrite (parse_int_Some _ _ _ _ H), bind_Ok; clear H
  end.
  assert (parse_date (date d) (u"date") n = Ok (date d)) as ->.
  { apply parse_date_Ok. split; [done|]. split; [|done].
    apply match_date_spec. by left. }
  rewrite bind_Ok. by destruct d.
Qed.

Lemma written_rows draws : ∀ n acc,
  Forall writable draws →
  parse_rows n ((λ d, data_row (draw_cells d)) <$> draws) None acc
  = Ok (acc ++ draws).
Proof.
  induction draws as [|d draws IH]; intros n acc Hw.
  - by rewrite parse_rows_nil, app_nil_r.
  - apply Forall_cons in Hw as [Hd Hw]. rewrite fmap_cons, parse_rows_cons.
    rewrite (written_row n d Hd), bind_Ok, IH by done.
    by rewrite <- app_assoc.
Qed.

Lemma draw_cells_facts d :
  writable d →
  Forall (λ cell, Forall (λ c, isspace c = false) cell
                  ∧ Forall (λ c, plain_char c = true) cell
                  ∧ fits cell) (draw_cells d).
Proof.
  intros (Hp & Hc & Hs).
  destruct (date_pattern_chars _ Hp) as (Hsp & Hpl & Hlen).
  assert (∀ z, short_int z →
            Forall (λ c, isspace c = false) (str_of_int z)
            ∧ Forall (λ c, plain_char c = true) (str_of_int z)
            ∧ fits (str_of_int z)) as Hz.
  { intros z Hz. split; [apply str_of_int_space_free|].
    split; [apply str_of_int_plain|].
    unfold fits, Csv.field_size_limit, short_int in *. lia. }
  unfold draw_numbers in Hs.
  repeat match goal with
  | H : Forall short_int (_ :: _) |- _ =>
      let Hn := fresh "Hn" in apply Forall_cons in H as [Hn%Hz H]
  end.
  assert (fits (date d)) as Hfd
    by (unfold fits, Csv.field_size_limit; rewrite Hlen; lia).
  unfold draw_cells.
  repeat first [apply Forall_nil_2 | apply Forall_cons_2]; try assumption.
  by split_and!.
Qed.

Lemma header_facts :
  one_line (join (u",") canonical_keys)
  ∧ join (u",") canonical_keys ≠ []
  ∧ Forall (λ cell, Forall (λ c, plain_char c = true) cell ∧ fits cell)
      canonical_keys.
Proof.
  split_and!.
  - unfold one_line. apply (bool_decide_unpack _). vm_compute. exact I.
  - by vm_compute.
  - apply Forall_forall. intros cell Hin. unfold canonical_keys in Hin.
    elem_cases; subst; (split; [apply (bool_decide_unpack _); vm_compute; exact I|]);
      unfold fits; by vm_compute.
Qed.

Lemma written_reader draws :
  Forall writable draws →
  Csv.reader (Csv.splitlines (csv_of_draws draws))
  = (canonical_keys :: (draw_cells <$> draws), None).
Proof.
  intros Hw. destruct header_facts as (Hh1 & Hh2 & Hh3).
  unfold csv_of_draws.
  rewrite (splitlines_join [10]); [|by left|].
  2:{ constructor; [done|]. apply Forall_fmap, Forall_forall.
      intros d Hd. rewrite Forall_forall in Hw. cbv beta.
      apply one_line_join. eapply Forall_impl; [apply draw_cells_facts, Hw, Hd|].
      intros cell (Hs & _ & _). by apply space_free_one_line. }
  rewrite lines_of_nonempty.
  2:{ constructor; [done|]. apply Forall_fmap, Forall_forall.
      intros d Hd. cbv beta. apply join_nonempty, str_of_int_nonempty. }
  unfold Csv.reader. apply records_read. constructor.
  - exists canonical_keys. split_and!; try done.
    + apply Forall_Forall2_diag. eapply Forall_impl; [exact Hh3|].
      intros cell [Hp _]. by constructor.
    + eapply Forall_impl; [exact Hh3|]. by intros cell [_ ?].
  - apply Forall2_fmap, Forall_Forall2_diag, Forall_forall.
    intros d Hd. rewrite Forall_forall in Hw.
    pose proof (draw_cells_facts d (Hw d Hd)) as Hf.
    exists (draw_cells d). split_and!; try done.
    + apply Forall_Forall2_diag. eapply Forall_impl; [exact Hf|].
      intros cell (_ & Hp & _). by constructor.
    + apply join_nonempty, str_of_int_nonempty.
    + eapply Forall_impl; [exact Hf|]. by intros cell (_ & _ & ?).
Qed.

Lemma written_dict_rows draws :
  Csv.dict_rows canonical_keys (draw_cells <$> draws)
  = (λ d, data_row (draw_cells d)) <$> draws.
Proof.
  unfold Csv.dict_rows. induction draws as [|d draws IH]; [done|].
  rewrite !fmap_cons, filter_cons_True by done.
  rewrite fmap_cons, IH. f_equal; apply dict_row_canonical.
Qed.

Lemma written_csv_rows draws :
  Forall writable draws →
  csv_rows (csv_of_draws draws)
  = Some ((λ d, data_row (draw_cells d)) <$> draws, None).
Proof.
  intros Hw. unfold csv_rows. rewrite (written_reader _ Hw).
  unfold canonical_keys at 1. by rewrite written_dict_rows.
Qed.

End written_rows.

(** ** The examples *)

Lemma example_writable d :
  d = example_first ∨ d = example_latest → writable (U:=plain_ucd) d.
Proof.
  intros [->| ->]; split_and!.
  - do 8 eexists. split; [reflexivity|]. by repeat constructor.
  - vm_compute. by eexists.
  - repeat constructor; unfold short_int; vm_compute; discriminate.
  - do 8 eexists. split; [reflexivity|]. by repeat constructor.
  - vm_compute. by eexists.
  - repeat constructor; unfold short_int; vm_compute; discriminate.
Qed.

Lemma examples_writable :
  Forall (writable (U:=plain_ucd)) [example_latest; example_first].
Proof.
  apply Forall_cons_2; [apply example_writable; by right|].
  apply Forall_cons_2; [apply example_writable; by left|]. apply Forall_nil_2.
Qed.


(** * The claims *)

(** ** Runs of the examples *)

Lemma example_parse `{U : UnicodeData} :
  parse_draws example_csv = Ok [example_first; example_latest].
Proof. vm_compute. reflexivity. Qed.

Lemma example_text :
  Json.dumps (draw_items example_latest) ++ [10] = example_json.
Proof. vm_compute. reflexivity. Qed.

Lemma example_write (w : World) :
  mkdir_raises w (u"lotto.json") = None →
  write_text_raises w (u"lotto.json") example_json = None →
  write_outputs [example_first; example_latest] w
  = (set_files (<[u"lotto.json" := example_json]> (files w)) w, Ok ()).
Proof.
  intros Hm Hw. rewrite <- example_text in Hw |- *.
  rewrite (write_outputs_last _ example_latest) by reflexivity.
  by apply write_json_Ok.
Qed.

Lemma bad_first_row_result :
  csv_rows bad_first_row_csv = Some ([bad_first_row], None)
  ∧ parse_row (U:=plain_ucd) 0 bad_first_row
    = Raise (err_integer 0 (u"round") (u"x"))
  ∧ parse_draws (U:=plain_ucd) bad_first_row_csv
    = Raise (err_integer 2 (u"round") (u"x")).
Proof. split_and!; vm_compute; reflexivity. Qed.

Lemma third_row_result :
  csv_rows bad_third_row_csv = Some ([blank_round_row; bad_first_row], None)
  ∧ parse_row (U:=plain_ucd) 0 blank_round_row = Ok None.
Proof. split; vm_compute; reflexivity. Qed.

Lemma blank_round_junk_row_blank : round_blank (U:=plain_ucd) blank_round_junk_row.
Proof.
  intros key value Hin Ht Hk.
  unfold blank_round_junk_row, data_row in Hin. cbn [Csv.items zip zip_with fmap list_fmap] in Hin.
  elem_cases; injection Hin as -> ->;
    first [ by repeat constructor
          | exfalso; apply (bool_decide_pack _) in Hk; vm_compute in Hk; exact Hk ].
Qed.

(** ** C1 *)

(** C1: for the CSV text of the example (the header
    [round,date,num1,...,num6,bonusNumber] and the rows of rounds 1 and
    2) the parser returns the two draws in order, the latest (the last
    of the list) is the record with round 2, numbers 8..13, bonus 14 and
    date 2024.01.13, and this record, with its keys in that order, is
    what [write_outputs], and so [main], writes to [lotto.json]: the
    text handed to the system is the JSON object of the example, and
    the file holds it once the system has made the directory and
    written the file, whether the line is printed or not; [main] ends
    well when the line is printed too. *)
Theorem C1_example_latest_draw `{U : UnicodeData} :
  parse_draws example_csv = Ok [example_first; example_latest]
  ∧ last [example_first; example_latest] = Some example_latest
  ∧ draw_items example_latest =
      [(u"round", Json.JInt 2); (u"num1", Json.JInt 8); (u"num2", Json.JInt 9);
       (u"num3", Json.JInt 10); (u"num4", Json.JInt 11); (u"num5", Json.JInt 12);
       (u"num6", Json.JInt 13); (u"bonus", Json.JInt 14);
       (u"date", Json.JStr (u"2024.01.13"))]
  ∧ Json.dumps (draw_items example_latest) ++ [10] = example_json
  ∧ (∀ w, write_outputs [example_first; example_latest] w
          = write_json (u"lotto.json") (draw_items example_latest) w)
  ∧ (∀ w,
       mkdir_raises w (u"lotto.json") = None →
       write_text_raises w (u"lotto.json") example_json = None →
       ∃ w', write_outputs [example_first; example_latest] w = (w', Ok ())
             ∧ files w' = <[u"lotto.json" := example_json]> (files w))
  ∧ (∀ w url,
       get_csv_source_url (environ w) = Ok url →
       network w url = Ok example_csv →
       mkdir_raises w (u"lotto.json") = None →
       write_text_raises w (u"lotto.json") example_json = None →
       files (main w).1 = <[u"lotto.json" := example_json]> (files w)
       ∧ (print_raises w
            (u"Synced 2 draw(s) from: " ++ url ++ u" -> lotto.json") = None →
          (main w).2 = Ok ())).
Proof.
  split_and!.
  - apply example_parse.
  - reflexivity.
  - reflexivity.
  - apply example_text.
  - intros w. by apply write_outputs_last.
  - intros w Hm Hw. rewrite (example_write w Hm Hw). by eexists.
  - intros w url Hu Hn Hm Hw.
    rewrite (main_parsed w url example_csv _ Hu Hn example_parse).
    rewrite (example_write w Hm Hw). unfold print.
    cbn [print_raises set_files stdout].
    change (synced_line (length [example_first; example_latest]) url)
      with (u"Synced 2 draw(s) from: " ++ url ++ u" -> lotto.json").
    destruct (print_raises w _) as [[e out]|]; split; try done.
Qed.

Lemma C1_witness :
  files (main (U:=plain_ucd) example_world).1
  = <[u"lotto.json" := example_json]> ∅
  ∧ (main (U:=plain_ucd) example_world).2 = Ok ().
Proof.
  pose proof (proj2 (proj2 (proj2 (proj2 (proj2 (proj2
                (C1_example_latest_draw (U:=plain_ucd)))))))
                example_world (u"https://sheet.example/lotto.csv")) as H.
  destruct H as [Hf Hm]; [vm_compute; reflexivity|reflexivity..|].
  split; [exact Hf|]. apply Hm. reflexivity.
Defined.

(** ** C2 *)

(** C2: whenever the parser returns a list of draws, the list is sorted
    by round, ascending; it is a rearrangement of the draws the loop
    collected, of which there is at least one; and the draw chosen for
    the output, the last of the list, is one of them and has a round not
    smaller than the round of any of them. *)
Theorem C2_sorted_and_latest_is_max `{U : UnicodeData} csv_text draws :
  parse_draws csv_text = Ok draws →
  StronglySorted round_le draws
  ∧ ∃ parsed latest,
      collected csv_text = Some parsed ∧ parsed ≠ []
      ∧ draws ≡ₚ parsed
      ∧ last draws = Some latest
      ∧ latest ∈ parsed
      ∧ Forall (λ d, (round d ≤ round latest)%Z) parsed
      ∧ ∀ w, write_outputs draws w
             = write_json (u"lotto.json") (draw_items latest) w.
Proof.
  intros H. unfold collected.
  destruct (csv_rows csv_text) as [[rows pending]|] eqn:Er.
  2:{ unfold csv_rows, parse_draws in *.
      destruct (Csv.reader _) as [[|[|f fs] recs] [e|]]; done. }
  rewrite (parse_draws_rows _ _ _ Er) in H.
  destruct (parse_rows 2 rows pending []) as [parsed|] eqn:Ep; [|done].
  rewrite bind_Ok in H. destruct parsed as [|d0 parsed0] eqn:Eparsed; [done|].
  rewrite <- Eparsed in *. injection H as <-.
  pose proof (sorted_by_round_sorted parsed) as Hs.
  pose proof (sorted_by_round_perm parsed) as Hp.
  split; [done|].
  destruct (last (sorted_by_round parsed)) as [latest|] eqn:El.
  2:{ apply last_None in El. apply sorted_by_round_nil in El. congruence. }
  exists parsed, latest. split_and!; try done.
  - congruence.
  - rewrite <- Hp. by apply last_Some_elem_of.
  - rewrite <- Hp. by apply sorted_last_max.
  - intros w. by apply write_outputs_last.
Qed.

Lemma C2_witness :
  parse_draws (U:=plain_ucd) example_csv = Ok [example_first; example_latest]
  ∧ StronglySorted round_le [example_first; example_latest].
Proof.
  assert (parse_draws (U:=plain_ucd) example_csv
          = Ok [example_first; example_latest]) as H by (vm_compute; reflexivity).
  split; [exact H|].
  exact (proj1 (C2_sorted_and_latest_is_max (U:=plain_ucd) example_csv _ H)).
Defined.

(** ** C3 *)

(** C3: a header stands for a canonical key through its normalised
    name, lower-cased and stripped of every character that is not
    alphanumeric.  The aliases of the table are their own normalised
    names, so that comparing a normalised header with an alias compares
    the two normalised, and no character that is not alphanumeric is
    left in a normalised name.  Two names that differ only in case and
    in characters that are not alphanumeric have the same normalised
    name, whatever their alphabet: a letter of ASCII may stand for the
    same letter in the other case; a character that is not alphanumeric
    may be dropped or added when it is of ASCII or white space (the
    no-break space and the ideographic space among them), and, for the
    other characters, when the table of the interpreter gives it no
    lower-case form but itself.  Rows whose headers differ in this way
    only give the same value for every canonical key.  Under a
    normalised name the row holds the trimmed cell of the last column
    with that name; the trimmed cell is the cell without the white
    space at its two ends, and nothing else is removed.  For a
    canonical key the aliases are tried in the order of the table and
    the first one whose trimmed value is not empty gives the value;
    there is none when every alias is without a value.  The headers
    [Draw No], [drawno], [DRAW_NO] and [회차] stand for [round]. *)
Theorem C3_header_resolution `{U : UnicodeData} :
  (∀ key aliases alias,
     FIELD_ALIASES !! key = Some aliases → alias ∈ aliases →
     normalize_key alias = alias)
  ∧ (∀ h c, c ∈ normalize_key h → isalnum c = true)
  ∧ (∀ h1 h2, same_header h1 h2 → normalize_key h1 = normalize_key h2)
  ∧ (∀ a b h1 h2,
       plain a = true → plain b = true → ascii_tolower a = ascii_tolower b →
       same_header h1 h2 → same_header (a :: h1) (b :: h2))
  ∧ (∀ c h1 h2,
       isalnum c = false →
       plain c = true ∨ isspace c = true ∨ lowers_to c [c] →
       same_header h1 h2 →
       same_header (c :: h1) h2 ∧ same_header h1 (c :: h2))
  ∧ (∀ raw raw' key,
       Forall2 same_column (Csv.items raw) (Csv.items raw') →
       key ∈ canonical_keys → field raw key = field raw' key)
  ∧ (∀ raw k,
       normalize_row raw !! k =
         (λ kv, strip (default [] kv.2))
           <$> last (filter (λ kv, named k kv) (Csv.items raw)))
  ∧ (∀ cell v, strip cell = v ↔ trim_of cell v)
  ∧ (∀ row aliases v,
       pick_value row aliases = Some v ↔
       ∃ skipped alias later,
         aliases = skipped ++ alias :: later ∧ Forall (blank_in row) skipped
         ∧ row !! alias = Some v ∧ v ≠ [])
  ∧ (∀ row aliases,
       pick_value row aliases = None ↔ Forall (blank_in row) aliases)
  ∧ (∀ h cell rest,
       h ∈ [u"Draw No"; u"drawno"; u"DRAW_NO"; u"회차"] →
       normalize_key h ∈ (FIELD_ALIASES !!! u"round" : list pystr)
       ∧ field {| Csv.items := [(h, cell)]; Csv.rest_item := rest |} (u"round")
         = (if truthy (strip (default [] cell))
            then Some (strip (default [] cell)) else None)).
Proof.
  split_and!.
  - apply aliases_normalised.
  - apply normalize_key_alnum.
  - apply same_header_normalize.
  - apply same_header_case.
  - intros c h1 h2 Hn [Hc|[Hc|Hc]] H.
    + split; [apply same_header_skip_l|apply same_header_skip_r]; auto.
    + split; [apply same_header_skip_l|apply same_header_skip_r]; auto.
    + split; [apply (same_skip_l c [c])|apply (same_skip_r c [c])];
        try done; by apply Forall_singleton.
  - intros raw raw' key H Hk. apply field_ext; [|done].
    intros a Ha. by apply normalize_row_spelling.
  - apply normalize_row_lookup.
  - intros cell v. split; [intros <-; apply strip_trim_of|apply trim_of_strip].
  - apply pick_value_Some.
  - apply pick_value_None.
  - apply four_headers.
Qed.

Lemma C3_witness :
  u"DRAW_NO" ∈ [u"Draw No"; u"drawno"; u"DRAW_NO"; u"회차"]
  ∧ normalize_key (U:=plain_ucd) (u"DRAW_NO")
    ∈ (FIELD_ALIASES !!! u"round" : list pystr)
  ∧ same_header (U:=plain_ucd) (u"Draw No") (u"DRAW_NO")
  ∧ normalize_key (U:=plain_ucd) (u"Draw No")
    = normalize_key (U:=plain_ucd) (u"DRAW_NO")
  ∧ normalize_key (U:=plain_ucd) [68; 114; 97; 119; 0xA0; 78; 111; 0x3000]
    = u"drawno".
Proof.
  assert (u"DRAW_NO" ∈ [u"Draw No"; u"drawno"; u"DRAW_NO"; u"회차"]) as H
    by (right; right; left).
  destruct (C3_header_resolution (U:=plain_ucd))
    as (H0 & _ & H3 & _ & _ & _ & _ & _ & _ & _ & H7).
  split_and!.
  - exact H.
  - exact (proj1 (H7 (u"DRAW_NO") None None H)).
  - exact same_header_draw_no.
  - exact (H3 _ _ same_header_draw_no).
  - rewrite (H3 _ _ same_header_spaces).
    apply (H0 (u"round") _ (u"drawno") eq_refl). right; left.
Defined.

(** ** C4 *)



(** ** C5 *)

(** C5, as the claim states it, is refuted: the text of 4301 digits
    [1] is a base-10 integer literal, and [parse_int] does not return
    its number but raises the error of the invalid integer, since
    [int] converts no text of more than 4300 digits. *)
Lemma C5_counterexample :
  (∃ z, int_literal (U:=plain_ucd) long_literal z)
  ∧ digit_count (U:=plain_ucd) long_literal = 4301%nat
  ∧ parse_int (U:=plain_ucd) long_literal (u"round") 2
    = Raise (err_integer 2 (u"round") long_literal)
  ∧ ¬ reads_every_literal.
Proof.
  assert (∃ z, int_literal (U:=plain_ucd) long_literal z) as [z Hz].
  { assert (∀ k acc, ∃ n,
              digit_run (todecimal (U:=plain_ucd)) acc (replicate k 49) n)
      as Hrun.
    { induction k as [|k IH]; intros acc; [exists acc; constructor|].
      destruct (IH (acc * 10 + Z.of_N 1)%Z) as [n Hn].
      exists n. by apply (run_digit _ acc 49 1). }
    destruct (Hrun 4300%nat (Z.of_N 1)) as [n Hn].
    exists n, [], [], 49, 1, (replicate 4300 49), n, [].
    split_and!.
    - unfold long_literal. by rewrite app_nil_r.
    - constructor.
    - constructor.
    - reflexivity.
    - exact Hn.
    - constructor. }
  assert (parse_int (U:=plain_ucd) long_literal (u"round") 2
          = Raise (err_integer 2 (u"round") long_literal)) as Hp.
  { apply parse_int_Raise. vm_compute. reflexivity. }
  split_and!.
  - by exists z.
  - vm_compute. reflexivity.
  - exact Hp.
  - intros H. apply (H plain_ucd long_literal (u"round") 2%Z z) in Hz.
    rewrite Hp in Hz. discriminate Hz.
Qed.

(** C5, amended: [parse_int] returns a number exactly for the base-10
    integer literals of no more than 4300 digits, those [int] reads:
    blanks, a sign [+] or [-], decimal digits with single underscores
    between them, blanks; the number is the value of the digits with
    the sign.  For any other value, a literal of more digits among
    them, it raises the error of the invalid integer, which names the
    row, the field and the value.  The numbers of a draw are those its
    eight cells read as.  In a row with its round and no field missing,
    the first of [round], [num1] .. [num6], [bonus], in this order,
    whose value is not read makes the row raise that error for this
    field, and the loop raise it under the number of the row when the
    rows before it are in order. *)
Theorem C5_numeric_fields `{U : UnicodeData} :
  (∀ value name n z,
     parse_int value name n = Ok z ↔ int_literal value z ∧ within_limit value)
  ∧ (∀ value name n,
       (∀ z, ¬ int_literal value z) ∨ ¬ within_limit value →
       parse_int value name n = Raise (err_integer n name value))
  ∧ (∀ n name value, names_row (err_integer n name value) n)
  ∧ (∀ raw n d,
       parse_row n raw = Ok (Some d) →
       row_int raw (u"round") = Some (round d)
       ∧ row_int raw (u"num1") = Some (num1 d) ∧ row_int raw (u"num2") = Some (num2 d)
       ∧ row_int raw (u"num3") = Some (num3 d) ∧ row_int raw (u"num4") = Some (num4 d)
       ∧ row_int raw (u"num5") = Some (num5 d) ∧ row_int raw (u"num6") = Some (num6 d)
       ∧ row_int raw (u"bonus") = Some (bonus d))
  ∧ (∀ raw n before key after,
       has_field raw (u"round") = true → missing_fields raw = [] →
       numeric_keys = before ++ key :: after →
       Forall (λ k, ∃ z, int_literal (field_text raw k) z
                         ∧ within_limit (field_text raw k)) before →
       (∀ z, ¬ int_literal (field_text raw key) z)
       ∨ ¬ within_limit (field_text raw key) →
       parse_row n raw = Raise (err_integer n key (field_text raw key)))
  ∧ (∀ rows_before raw rows_after n pending acc before key after,
       Forall (λ r, ¬ row_fails r) rows_before →
       has_field raw (u"round") = true → missing_fields raw = [] →
       numeric_keys = before ++ key :: after →
       Forall (λ k, ∃ z, int_literal (field_text raw k) z
                         ∧ within_limit (field_text raw k)) before →
       (∀ z, ¬ int_literal (field_text raw key) z)
       ∨ ¬ within_limit (field_text raw key) →
       parse_rows n (rows_before ++ raw :: rows_after) pending acc
       = Raise (err_integer (n + Z.of_nat (length rows_before)) key
                  (field_text raw key))).
Proof.
  assert (∀ raw n before key after,
       has_field raw (u"round") = true → missing_fields raw = [] →
       numeric_keys = before ++ key :: after →
       Forall (λ k, ∃ z, int_literal (field_text raw k) z
                         ∧ within_limit (field_text raw k)) before →
       (∀ z, ¬ int_literal (field_text raw key) z)
       ∨ ¬ within_limit (field_text raw key) →
       parse_row n raw = Raise (err_integer n key (field_text raw key))) as Hrow.
  { intros raw n before key after Hr Hm Hk Hb Hbad.
    eapply row_first_bad_integer; try done.
    - eapply Forall_impl; [done|]. intros k [z Hz]. exists z. by apply int_literal_iff.
    - by apply int_literal_None. }
  split_and!.
  - apply parse_int_Ok.
  - intros value name n H. apply parse_int_Raise. by apply int_literal_None.
  - intros. by eexists.
  - intros raw n d H. apply row_values in H.
    destruct H as (?&?&?&?&?&?&?&?&?). by split_and!.
  - done.
  - intros. apply parse_rows_first_failure; [done|]. by eapply Hrow.
Qed.

Lemma C5_witness :
  parse_int (U:=plain_ucd) (u"x") (u"round") 2
  = Raise (err_integer 2 (u"round") (u"x"))
  ∧ parse_int (U:=plain_ucd) long_literal (u"round") 2
    = Raise (err_integer 2 (u"round") long_literal).
Proof.
  split.
  - apply (proj1 (proj2 (C5_numeric_fields (U:=plain_ucd)))). left.
    intros z Hz.
    assert (PyInt.int (U:=plain_ucd) (u"x") = Some z) as H.
    { apply int_literal_iff. split; [exact Hz|]. vm_compute. discriminate. }
    vm_compute in H. discriminate H.
  - apply (proj1 (proj2 (C5_numeric_fields (U:=plain_ucd)))). right.
    vm_compute. intros H. apply H. reflexivity.
Defined.

(** ** C6 *)

(** C6: the list of the missing fields of a row is [date] if the row
    has no date, then [bonus] if it has no bonus number, then
    [num1~num6] if it lacks one of its six numbers.  A row with its
    round that has a field missing raises the error of the missing
    fields with this list under its row number, and so does the loop
    when the rows before it are in order.  A row that lacks only its
    bonus number raises [row N: missing fields (bonus)]. *)
Theorem C6_missing_fields `{U : UnicodeData} :
  (∀ raw,
     missing_fields raw =
       (if has_field raw (u"date") then [] else [u"date"])
       ++ (if has_field raw (u"bonus") then [] else [u"bonus"])
       ++ (if forallb (has_field raw) num_keys then [] else [u"num1~num6"]))
  ∧ (∀ raw n,
       has_field raw (u"round") = true → missing_fields raw ≠ [] →
       parse_row n raw = Raise (err_missing n (missing_fields raw)))
  ∧ (∀ n missing, names_row (err_missing n missing) n)
  ∧ (∀ rows_before raw rows_after n pending acc,
       Forall (λ r, ¬ row_fails r) rows_before →
       has_field raw (u"round") = true → missing_fields raw ≠ [] →
       parse_rows n (rows_before ++ raw :: rows_after) pending acc
       = Raise (err_missing (n + Z.of_nat (length rows_before))
                  (missing_fields raw)))
  ∧ (∀ raw n,
       has_field raw (u"round") = true → has_field raw (u"date") = true →
       has_field raw (u"bonus") = false →
       Forall (λ k, has_field raw k = true) num_keys →
       parse_row n raw =
         Raise (Exn RuntimeError
           [Text (u"row "); Text (str_of_int n); Text (u": missing fields (");
            Text (u"bonus"); Text (u")")])).
Proof.
  split_and!.
  - apply missing_fields_eq.
  - intros raw n. apply parse_row_missing.
  - intros. by eexists.
  - intros. apply parse_rows_first_failure; [done|]. by apply parse_row_missing.
  - intros raw n Hr Hd Hb Hn.
    rewrite parse_row_missing; [|done|]; rewrite missing_only_bonus; done.
Qed.

Lemma C6_witness :
  parse_row (U:=plain_ucd) 2 no_bonus_row =
    Raise (Exn RuntimeError
      [Text (u"row "); Text (u"2"); Text (u": missing fields (");
       Text (u"bonus"); Text (u")")]).
Proof.
  apply (proj2 (proj2 (proj2 (proj2 (C6_missing_fields (U:=plain_ucd)))))
           no_bonus_row 2%Z).
  - vm_compute. reflexivity.
  - vm_compute. reflexivity.
  - vm_compute. reflexivity.
  - repeat constructor; vm_compute; reflexivity.
Defined.

(** ** C7 *)

(** C7: a row whose round cell is absent, empty or made of white space
    only is passed over: the body of the loop raises nothing and gives
    no draw, whatever the other cells hold; the loop goes on with the
    next row under the next number; and the draws of a text are those of
    the text without the row. *)
Theorem C7_blank_row_skipped `{U : UnicodeData} (raw : Csv.raw_row) :
  round_blank raw →
  (∀ n, parse_row n raw = Ok None)
  ∧ (∀ n rows pending acc,
       parse_rows n (raw :: rows) pending acc
       = parse_rows (n + 1) rows pending acc)
  ∧ (∀ n before after pending acc,
       parse_rows n (before ++ raw :: after) pending acc
       = (acc' ← parse_rows n before None acc;
          parse_rows (n + Z.of_nat (length before) + 1) after pending acc'))
  ∧ (∀ n before after pending acc draws,
       parse_rows n (before ++ raw :: after) pending acc = Ok draws
       ↔ parse_rows n (before ++ after) pending acc = Ok draws).
Proof.
  intros Hb.
  assert (∀ n, parse_row n raw = Ok None) as Hrow.
  { intros n. apply parse_row_blank. by apply round_blank_no_field. }
  assert (∀ n rows pending acc,
       parse_rows n (raw :: rows) pending acc
       = parse_rows (n + 1) rows pending acc) as Hcons.
  { intros. by rewrite parse_rows_cons, Hrow, bind_Ok. }
  split_and!; [done|done|..].
  - intros. rewrite parse_rows_app.
    destruct (parse_rows n before None acc); [|done].
    by rewrite !bind_Ok, Hcons.
  - intros. rewrite !parse_rows_app.
    destruct (parse_rows n before None acc) as [acc'|]; [|done].
    rewrite !bind_Ok, Hcons. split; apply parse_rows_row_num.
Qed.

Lemma C7_witness :
  round_blank (U:=plain_ucd) blank_round_junk_row
  ∧ parse_row (U:=plain_ucd) 5 blank_round_junk_row = Ok None.
Proof.
  split; [exact blank_round_junk_row_blank|].
  exact (proj1 (C7_blank_row_skipped (U:=plain_ucd) blank_round_junk_row
                  blank_round_junk_row_blank) 5%Z).
Defined.

(** ** C8 *)

(** C8: when the text has a header, the reader raises nothing and every
    row it yields has a blank round cell (there may be no row at all),
    the parser raises the error of the empty result; [main] then ends
    with this error and leaves the world, its files among the rest, as
    it found it. *)
Theorem C8_no_rows `{U : UnicodeData} csv_text rows :
  csv_rows csv_text = Some (rows, None) →
  Forall round_blank rows →
  parse_draws csv_text = Raise err_no_rows
  ∧ ∀ w url,
      get_csv_source_url (environ w) = Ok url →
      network w url = Ok csv_text →
      main w = (w, Raise err_no_rows).
Proof.
  intros Hr Hb.
  assert (parse_draws csv_text = Raise err_no_rows) as Hp.
  { rewrite (parse_draws_rows _ _ _ Hr), parse_rows_all_blank; [done|].
    eapply Forall_impl; [done|]. apply round_blank_no_field. }
  split; [done|]. intros w url Hu Hn.
  rewrite main_eq. unfold fetch_csv_text. by rewrite Hu, Hn, Hp.
Qed.

Lemma C8_witness :
  csv_rows header_only_csv = Some ([], None)
  ∧ main (U:=plain_ucd) header_only_world = (header_only_world, Raise err_no_rows).
Proof.
  assert (csv_rows header_only_csv = Some ([], None)) as H
    by (vm_compute; reflexivity).
  split; [exact H|].
  apply (proj2 (C8_no_rows (U:=plain_ucd) header_only_csv [] H (Forall_nil_2 _))
           header_only_world (u"https://sheet.example/lotto.csv")).
  - vm_compute. reflexivity.
  - reflexivity.
Defined.

(** ** C9 *)

(** C9, as the claim states it, is refuted: for a header and one data
    row whose round is [x] the message names row 2, so that the rows
    are not numbered from 1. *)
Lemma C9_counterexample :
  parse_draws (U:=plain_ucd) bad_first_row_csv
  = Raise (Exn ValueError
      [Text (u"row "); Text (u"2"); Text (u": invalid integer in '");
       Text (u"round"); Text (u"' -> "); Repr (u"x")])
  ∧ ¬ row_numbering 1.
Proof.
  split; [vm_compute; reflexivity|].
  intros H. destruct bad_first_row_result as (Hr & Hf & Hp).
  destruct (H plain_ucd bad_first_row_csv [bad_first_row] None [] bad_first_row []
              Hr eq_refl (Forall_nil_2 _)) as (e & He & Hn).
  { by eexists. }
  rewrite Hp in He. injection He as <-.
  assert (names_row (err_integer 2 (u"round") (u"x")) 2) as Hn2 by (by eexists).
  by pose proof (names_row_inj _ _ _ Hn Hn2).
Qed.

(** C9, amended: every error of a row names the number the loop gave
    the row, and the rows are numbered from 2, the header being row 1:
    the first row the reader yields after the header is row 2, the next
    row 3, and so on.  A row passed over for its blank round cell is a
    row of the reader and is counted; an empty line is no row of the
    reader and is not counted. *)
Theorem C9_row_numbering :
  row_numbering 2
  ∧ (∀ (U : UnicodeData) n raw e, parse_row n raw = Raise e → names_row e n)
  ∧ (∀ fieldnames recs1 recs2,
       Csv.dict_rows fieldnames (recs1 ++ [] :: recs2)
       = Csv.dict_rows fieldnames (recs1 ++ recs2)).
Proof.
  split_and!.
  - intros U csv_text rows pending before raw after Hr Hrows Hb Hf.
    destruct (first_failure_number _ _ _ _ _ _ Hr Hrows Hb Hf) as (e & _ & ? & ?).
    by exists e.
  - intros U n raw e. apply parse_row_names_row.
  - apply dict_rows_empty_line.
Qed.

Lemma C9_witness :
  ∃ e, parse_draws (U:=plain_ucd) bad_third_row_csv = Raise e ∧ names_row e 3.
Proof.
  destruct third_row_result as [Hr Hb].
  destruct bad_first_row_result as (_ & Hf & _).
  refine (proj1 C9_row_numbering plain_ucd bad_third_row_csv _ None
            [blank_round_row] bad_first_row [] Hr eq_refl _ _).
  - constructor; [|constructor]. intros [e He]. rewrite Hb in He. discriminate.
  - by eexists.
Defined.

(** ** C10 *)

(** C10: a variable of the environment set to the empty text is as good
    as absent, and is not taken as a value.  With [GOOGLE_SHEET_CSV_URL]
    empty the resolver goes on to the identifier of the sheet: it gives
    what it gives without the variable, and with an identifier that is
    not empty this is the address of the export, made of the identifier
    and of [GOOGLE_SHEET_GID], [0] if that variable is not set; the
    empty text is never the address returned.  With no URL, or an empty
    one, and [GOOGLE_SHEET_ID] empty it raises the error of the
    configuration, as it does without the identifier, and returns no
    address, the one of an export without identifier no more than
    another. *)
Theorem C10_empty_configuration (env : gmap pystr pystr) :
  (env !! u"GOOGLE_SHEET_CSV_URL" = Some [] →
   get_csv_source_url env
   = get_csv_source_url (delete (u"GOOGLE_SHEET_CSV_URL") env)
   ∧ get_csv_source_url env ≠ Ok []
   ∧ ∀ sheet_id,
       env !! u"GOOGLE_SHEET_ID" = Some sheet_id → sheet_id ≠ [] →
       get_csv_source_url env
       = Ok (u"https://docs.google.com/spreadsheets/d/" ++ sheet_id
             ++ u"/export?format=csv&gid="
             ++ default (u"0") (env !! u"GOOGLE_SHEET_GID")))
  ∧ (env !! u"GOOGLE_SHEET_CSV_URL" = None
     ∨ env !! u"GOOGLE_SHEET_CSV_URL" = Some [] →
     env !! u"GOOGLE_SHEET_ID" = Some [] →
     get_csv_source_url env = Raise err_config
     ∧ (∀ url, get_csv_source_url env ≠ Ok url)
     ∧ get_csv_source_url env
       = get_csv_source_url (delete (u"GOOGLE_SHEET_ID") env)).
Proof.
  split.
  - intros H. split_and!.
    + unfold get_csv_source_url. rewrite H, lookup_delete_eq.
      cbn [truthy_opt truthy].
      rewrite !(lookup_delete_ne env (u"GOOGLE_SHEET_CSV_URL")); [done|..];
        by apply (bool_decide_eq_false_1 _); vm_compute.
    + intros Hk. by apply source_url_nonempty in Hk.
    + intros sheet_id E Hne. rewrite (source_url_sheet env sheet_id); try done.
      by right.
  - intros Hu Hi.
    assert (get_csv_source_url env = Raise err_config) as Hr.
    { apply source_url_none; [destruct Hu; [by left|by right]|by right]. }
    split_and!; [done|by rewrite Hr|].
    rewrite Hr. symmetry. apply source_url_none.
    + unfold unset. rewrite lookup_delete_ne; [destruct Hu; [by left|by right]|].
      by apply (bool_decide_eq_false_1 _); vm_compute.
    + left. apply lookup_delete_eq.
Qed.

Lemma C10_witness :
  get_csv_source_url empty_url_settings
  = Ok (u"https://docs.google.com/spreadsheets/d/abc/export?format=csv&gid=0")
  ∧ get_csv_source_url empty_settings = Raise err_config.
Proof.
  split.
  - destruct (proj1 (C10_empty_configuration empty_url_settings))
      as (_ & _ & H); [vm_compute; reflexivity|].
    rewrite (H (u"abc")); [|vm_compute; reflexivity|discriminate].
    vm_compute. reflexivity.
  - apply (proj2 (C10_empty_configuration empty_settings)).
    + right. vm_compute. reflexivity.
    + vm_compute. reflexivity.
Defined.

(** * Further properties *)

(** ** The source of the sheet *)

(** X1: the resolver raises the error of the configuration exactly when
    neither [GOOGLE_SHEET_CSV_URL] nor [GOOGLE_SHEET_ID] has a value
    that is not empty, and it raises no other error.  A URL given in
    [GOOGLE_SHEET_CSV_URL] that is not empty is returned as it is,
    whatever the other variables hold.  The address returned is never
    the empty text. *)
Theorem X1_source_url_resolution (env : gmap pystr pystr) :
  (get_csv_source_url env = Raise err_config
   ↔ unset env (u"GOOGLE_SHEET_CSV_URL") ∧ unset env (u"GOOGLE_SHEET_ID"))
  ∧ (∀ e, get_csv_source_url env = Raise e → e = err_config)
  ∧ (∀ url, env !! u"GOOGLE_SHEET_CSV_URL" = Some url → url ≠ [] →
       get_csv_source_url env = Ok url)
  ∧ (∀ url, get_csv_source_url env = Ok url → url ≠ []).
Proof.
  split_and!.
  - split.
    + intros H. destruct (source_url_cases env) as [(url & E & Hne)|[(Hu & s & E & Hne)|?]];
        [|..|done].
      * by rewrite (source_url_custom _ _ E Hne) in H.
      * by rewrite (source_url_sheet _ _ Hu E Hne) in H.
    + intros [? ?]. by apply source_url_none.
  - intros e H.
    destruct (source_url_cases env) as [(url & E & Hne)|[(Hu & s & E & Hne)|[Hu Hi]]].
    + by rewrite (source_url_custom _ _ E Hne) in H.
    + by rewrite (source_url_sheet _ _ Hu E Hne) in H.
    + rewrite (source_url_none _ Hu Hi) in H. by injection H.
  - apply source_url_custom.
  - intros url H.
    destruct (source_url_cases env) as [(url' & E & Hne)|[(Hu & s & E & Hne)|[Hu Hi]]].
    + rewrite (source_url_custom _ _ E Hne) in H. by injection H as <-.
    + rewrite (source_url_sheet _ _ Hu E Hne) in H. by injection H as <-.
    + by rewrite (source_url_none _ Hu Hi) in H.
Qed.

Lemma X1_witness :
  get_csv_source_url
    {[ u"GOOGLE_SHEET_CSV_URL" := u"https://sheet.example/lotto.csv";
       u"GOOGLE_SHEET_ID" := u"abc" ]}
  = Ok (u"https://sheet.example/lotto.csv")
  ∧ get_csv_source_url (∅ : gmap pystr pystr) = Raise err_config.
Proof.
  split.
  - apply (X1_source_url_resolution
             {[ u"GOOGLE_SHEET_CSV_URL" := u"https://sheet.example/lotto.csv";
                u"GOOGLE_SHEET_ID" := u"abc" ]}); [reflexivity|discriminate].
  - apply (X1_source_url_resolution ∅). split; left; reflexivity.
Defined.

(** X2: with no URL of its own and a sheet identifier, the resolver
    builds the address of the export from the identifier and from
    [GOOGLE_SHEET_GID], taken as it is.  The default [0] stands in only
    when the variable is not set at all: set to the empty text it gives
    an address that ends in [gid=], which is not the address the unset
    variable gives. *)
Theorem X2_sheet_gid (env : gmap pystr pystr) (sheet_id : pystr) :
  unset env (u"GOOGLE_SHEET_CSV_URL") →
  env !! u"GOOGLE_SHEET_ID" = Some sheet_id → sheet_id ≠ [] →
  (∀ gid, env !! u"GOOGLE_SHEET_GID" = Some gid →
     get_csv_source_url env = Ok (export_url sheet_id gid))
  ∧ (env !! u"GOOGLE_SHEET_GID" = None →
     get_csv_source_url env = Ok (export_url sheet_id (u"0")))
  ∧ get_csv_source_url (<[u"GOOGLE_SHEET_GID" := []]> env)
    = Ok (export_url sheet_id [])
  ∧ get_csv_source_url (<[u"GOOGLE_SHEET_GID" := []]> env)
    ≠ get_csv_source_url (delete (u"GOOGLE_SHEET_GID") env).
Proof.
  intros Hu E Hne.
  assert (∀ env', unset env' (u"GOOGLE_SHEET_CSV_URL") →
            env' !! u"GOOGLE_SHEET_ID" = Some sheet_id →
            get_csv_source_url env'
            = Ok (export_url sheet_id (default (u"0") (env' !! u"GOOGLE_SHEET_GID"))))
    as Hgen by (intros; by apply source_url_sheet).
  assert (unset (<[u"GOOGLE_SHEET_GID" := []]> env) (u"GOOGLE_SHEET_CSV_URL")) as Hu1.
  { unfold unset. by rewrite lookup_insert_ne. }
  assert (unset (delete (u"GOOGLE_SHEET_GID") env) (u"GOOGLE_SHEET_CSV_URL")) as Hu2.
  { unfold unset. by rewrite lookup_delete_ne. }
  assert (get_csv_source_url (<[u"GOOGLE_SHEET_GID" := []]> env)
          = Ok (export_url sheet_id [])) as H1.
  { rewrite (Hgen _ Hu1); [|by rewrite lookup_insert_ne].
    by rewrite lookup_insert_eq. }
  split_and!.
  - intros gid Eg. rewrite (Hgen _ Hu E). by rewrite Eg.
  - intros Eg. rewrite (Hgen _ Hu E). by rewrite Eg.
  - exact H1.
  - rewrite H1, (Hgen _ Hu2); [|by rewrite lookup_delete_ne].
    rewrite lookup_delete_eq. intros H.
    apply (Ok_inj (export_url sheet_id []) (export_url sheet_id (u"0"))) in H.
    apply export_url_inj_gid in H. discriminate H.
Qed.

Lemma X2_witness :
  get_csv_source_url {[ u"GOOGLE_SHEET_ID" := u"abc"; u"GOOGLE_SHEET_GID" := [] ]}
  = Ok (u"https://docs.google.com/spreadsheets/d/abc/export?format=csv&gid=")
  ∧ get_csv_source_url {[ u"GOOGLE_SHEET_ID" := u"abc" ]}
    = Ok (u"https://docs.google.com/spreadsheets/d/abc/export?format=csv&gid=0").
Proof.
  split.
  - apply (X2_sheet_gid {[ u"GOOGLE_SHEET_ID" := u"abc"; u"GOOGLE_SHEET_GID" := [] ]}
             (u"abc")); [left; reflexivity|reflexivity|discriminate|reflexivity].
  - apply (X2_sheet_gid {[ u"GOOGLE_SHEET_ID" := u"abc" ]} (u"abc"));
      [left; reflexivity|reflexivity|discriminate|reflexivity].
Defined.

(** ** [main] *)

(** X3: how [main] fails.  An exception of the resolver of the source,
    of the download or of the parser ends [main] before anything is
    written: the world is left as it was, [lotto.json] included.  Any
    other exception of [main] is one the system raises once the sheet
    is read: on making the directory, the world being as it was; on
    writing the file, which then holds what the system has left in it;
    or on printing the line, the file being written by then.  No
    failure touches another file or the environment. *)
Theorem X3_main_failure `{U : UnicodeData} (w : World) (e : exn) :
  (source_error w e → main w = (w, Raise e))
  ∧ ((main w).2 = Raise e →
     environ (main w).1 = environ w
     ∧ (∀ path, path ≠ u"lotto.json" →
          files (main w).1 !! path = files w !! path)
     ∧ ((source_error w e ∧ (main w).1 = w)
        ∨ ∃ source_url csv_text draws latest,
            sheet_read w source_url csv_text draws latest
            ∧ ((mkdir_raises w (u"lotto.json") = Some e ∧ (main w).1 = w)
               ∨ (mkdir_raises w (u"lotto.json") = None
                  ∧ ∃ held,
                      write_text_raises w (u"lotto.json") (json_text latest)
                      = Some (e, held)
                      ∧ (main w).1
                        = (if held is Some text then with_json text w else w))
               ∨ (mkdir_raises w (u"lotto.json") = None
                  ∧ write_text_raises w (u"lotto.json") (json_text latest)
                    = None
                  ∧ ∃ out,
                      print_raises w (synced_line (length draws) source_url)
                      = Some (e, out)
                      ∧ files (main w).1 !! u"lotto.json"
                        = Some (json_text latest)
                      ∧ stdout (main w).1 = stdout w ++ out)))).
Proof.
  split; [apply main_source_error|]. intros H.
  destruct (main_cases w) as [(url & text & draws & latest & Hr)|(e' & He')].
  2:{ rewrite (main_source_error _ _ He') in H |- *.
      cbn [fst snd] in *. apply Raise_inj in H as ->.
      split_and!; [done|done|]. by left. }
  rewrite (main_read _ _ _ _ _ Hr) in H |- *.
  destruct (mkdir_raises w (u"lotto.json")) as [e1|] eqn:Hm.
  { cbn [fst snd] in *. apply Raise_inj in H as ->.
    split_and!; [done|done|]. right. exists url, text, draws, latest.
    split; [done|]. by left. }
  destruct (write_text_raises w (u"lotto.json") (json_text latest))
    as [[e2 held]|] eqn:Hw.
  { assert (e2 = e) as -> by (destruct held; by apply Raise_inj in H).
    split_and!.
    - by destruct held.
    - intros path Hpath. destruct held; [|done].
      cbn [fst files with_json set_files]. by rewrite lookup_insert_ne.
    - right. exists url, text, draws, latest. split; [done|].
      right; left. split; [done|]. exists held. split; [done|].
      by destruct held. }
  destruct (print_raises w (synced_line (length draws) url))
    as [[e3 out]|] eqn:Hp; [|done].
  cbn [fst snd] in *. apply Raise_inj in H as ->.
  split_and!.
  - done.
  - intros path Hpath. cbn [files with_json set_files set_stdout].
    by rewrite lookup_insert_ne.
  - right. exists url, text, draws, latest. split; [done|].
    right; right. split_and!; [done|done|]. exists out.
    split_and!; [done| |done].
    cbn [files with_json set_files set_stdout]. by rewrite lookup_insert_eq.
Qed.

Lemma X3_witness :
  main (U:=plain_ucd) header_only_world = (header_only_world, Raise err_no_rows)
  ∧ environ (main (U:=plain_ucd) closed_output_world).1
    = environ closed_output_world.
Proof.
  split.
  - apply (X3_main_failure (U:=plain_ucd) header_only_world err_no_rows).
    right; right. exists (u"https://sheet.example/lotto.csv"), header_only_csv.
    split_and!; vm_compute; reflexivity.
  - apply (X3_main_failure (U:=plain_ucd) closed_output_world
             (Exn OSError [Text (u"Broken pipe")])).
    vm_compute. reflexivity.
Defined.

(** X4: [main] ends well exactly when the resolver gives an address,
    the download of it a text, the parser a list of draws out of the
    text, and the system raises nothing on making the directory, on
    writing the file and on printing the line.  Then [lotto.json]
    holds the JSON text of the last draw of the list, whose round no
    draw exceeds, followed by a line feed; no other file and no
    variable of the environment is touched; and one line is printed,
    which gives the number of draws, that is the number of rows of the
    sheet whose round cell is not blank, and the address. *)
Theorem X4_main_success `{U : UnicodeData} (w : World) :
  (main w).2 = Ok () ↔
  ∃ source_url csv_text draws latest rows,
    sheet_read w source_url csv_text draws latest
    ∧ mkdir_raises w (u"lotto.json") = None
    ∧ write_text_raises w (u"lotto.json") (json_text latest) = None
    ∧ print_raises w (synced_line (length draws) source_url) = None
    ∧ Forall (λ d, (round d ≤ round latest)%Z) draws
    ∧ files (main w).1 !! u"lotto.json" = Some (json_text latest)
    ∧ (∀ path, path ≠ u"lotto.json" →
         files (main w).1 !! path = files w !! path)
    ∧ environ (main w).1 = environ w
    ∧ csv_rows csv_text = Some (rows, None)
    ∧ length draws = length (filter (λ r, has_field r (u"round")) rows)
    ∧ stdout (main w).1
      = stdout w ++ [synced_line (length draws) source_url].
Proof.
  split.
  - intros H.
    destruct (main_cases w) as [(url & text & draws & latest & Hr)|(e' & He')].
    2:{ by rewrite (main_source_error _ _ He') in H. }
    rewrite (main_read _ _ _ _ _ Hr) in H |- *.
    destruct (mkdir_raises w (u"lotto.json")) as [e1|] eqn:Hm; [done|].
    destruct (write_text_raises w (u"lotto.json") (json_text latest))
      as [[e2 [held|]]|] eqn:Hw; [done..|].
    destruct (print_raises w (synced_line (length draws) url))
      as [[e3 out]|] eqn:Hp; [done|].
    pose proof Hr as (_ & _ & Hpd & Hl).
    pose proof Hpd as (rows & parsed & Er & Hrows & Hne & ->)%parse_draws_Ok.
    exists url, text, (sorted_by_round parsed), latest, rows.
    split_and!; try done.
    + apply sorted_last_max; [apply sorted_by_round_sorted|done].
    + cbn [fst files with_json set_files set_stdout].
      by rewrite lookup_insert_eq.
    + intros path Hpath. cbn [fst files with_json set_files set_stdout].
      by rewrite lookup_insert_ne.
    + rewrite (Permutation_length (sorted_by_round_perm parsed)).
      by rewrite (parse_rows_length _ _ _ _ Hrows).
  - intros (url & text & draws & latest & rows & Hr & Hm & Hw & Hp & _).
    by rewrite (main_read _ _ _ _ _ Hr), Hm, Hw, Hp.
Qed.

Lemma X4_witness :
  ∃ latest,
    files (main (U:=plain_ucd) example_world).1 !! u"lotto.json"
    = Some (json_text latest).
Proof.
  assert ((main (U:=plain_ucd) example_world).2 = Ok ()) as H
    by (vm_compute; reflexivity).
  destruct (proj1 (X4_main_success (U:=plain_ucd) example_world) H)
    as (url & text & draws & latest & rows & _ & _ & _ & _ & _ & Hf & _).
  exists latest. exact Hf.
Defined.

(** ** Rows and columns *)

(** X5: the cells a row has beyond the last column of the header are
    not looked at: the row is read as the row cut to the width of the
    header is. *)
Theorem X5_surplus_cells_ignored `{U : UnicodeData}
    (fieldnames row : list pystr) (n : Z) :
  parse_row n (Csv.dict_row fieldnames row)
  = parse_row n (Csv.dict_row fieldnames (take (length fieldnames) row)).
Proof. apply parse_row_items. by rewrite dict_row_take. Qed.

(** X6: a row with fewer cells than the header has columns is read as
    the row filled up with empty cells is: a cell that is not there
    counts as an empty one. *)
Theorem X6_short_row_padded `{U : UnicodeData}
    (fieldnames row : list pystr) (n : Z) :
  parse_row n (Csv.dict_row fieldnames row)
  = parse_row n
      (Csv.dict_row fieldnames
         (row ++ replicate (length fieldnames - length row) [])).
Proof.
  apply parse_row_normalize, normalize_row_cells. by rewrite dict_row_pad.
Qed.

(** X7: only the columns whose normalised name is an alias of the table
    count: what the loop makes of a row, a draw, nothing or an error,
    is what it makes of the row without its other columns, those with
    an unknown name or with no name among them. *)
Theorem X7_unknown_columns_ignored `{U : UnicodeData}
    (raw : Csv.raw_row) (n : Z) :
  parse_row n raw = parse_row n (recognised_only raw).
Proof.
  apply parse_row_ext. intros a Ha. by rewrite normalize_row_recognised.
Qed.

(** X8: when no two named columns have the same normalised name, the
    order of the columns does not matter: a row whose items are those
    of another in another order is read as the other. *)
Theorem X8_column_order `{U : UnicodeData} (raw raw' : Csv.raw_row) (n : Z) :
  Csv.items raw ≡ₚ Csv.items raw' → NoDup (column_names raw) →
  parse_row n raw = parse_row n raw'.
Proof. intros Hp Hnd. by apply parse_row_normalize, normalize_row_perm. Qed.

Lemma X8_witness :
  parse_row (U:=plain_ucd) 2 example_row
  = parse_row (U:=plain_ucd) 2 example_row_reversed.
Proof.
  apply (X8_column_order (U:=plain_ucd) example_row example_row_reversed).
  - symmetry. apply reverse_Permutation.
  - apply (bool_decide_unpack _). vm_compute. exact I.
Defined.

(** ** The draws returned *)

(** X9: rounds are not made unique.  When several rows of the sheet
    carry the greatest round, the draw written is the one of the last
    of these rows: the list returned keeps the draws of one round in
    the order of their rows. *)
Theorem X9_latest_of_equal_rounds `{U : UnicodeData} csv_text draws parsed :
  parse_draws csv_text = Ok draws →
  collected csv_text = Some parsed →
  (∀ k, filter (λ d, round d = k) draws = filter (λ d, round d = k) parsed)
  ∧ ∃ latest,
      last draws = Some latest
      ∧ last (filter (λ d, round d = round latest) parsed) = Some latest.
Proof.
  intros H Hc.
  destruct (parse_draws_collected _ _ H) as (parsed' & Hc' & Hne & ->).
  assert (parsed' = parsed) as -> by congruence.
  split; [intros k; apply sorted_by_round_stable|].
  destruct (parse_draws_last _ _ H) as [latest Hl].
  exists latest. split; [done|].
  rewrite <- sorted_by_round_stable. by apply last_filter.
Qed.

Lemma X9_witness :
  ∃ latest,
    last [same_round_first; same_round_last] = Some latest
    ∧ last (filter (λ d, round d = round latest)
              [same_round_first; same_round_last]) = Some latest.
Proof.
  apply (X9_latest_of_equal_rounds (U:=plain_ucd) same_round_csv
           [same_round_first; same_round_last]
           [same_round_first; same_round_last]);
    vm_compute; reflexivity.
Defined.

(** X10: when no round occurs twice, the order of the rows does not
    matter: two texts out of which the loop collects the same draws, in
    whatever order, give the same result. *)
Theorem X10_row_order `{U : UnicodeData} csv_text csv_text' parsed parsed' :
  collected csv_text = Some parsed →
  collected csv_text' = Some parsed' →
  parsed ≡ₚ parsed' → NoDup (round <$> parsed) →
  parse_draws csv_text = parse_draws csv_text'.
Proof.
  intros Hc Hc' Hp Hnd.
  rewrite (collected_parse_draws _ _ Hc), (collected_parse_draws _ _ Hc').
  destruct parsed as [|d ds].
  { apply Permutation_nil_l in Hp. by subst. }
  destruct parsed' as [|d' ds']; [by apply Permutation_nil_r in Hp|].
  f_equal. by apply sorted_by_round_order.
Qed.

Lemma X10_witness :
  parse_draws (U:=plain_ucd) example_csv
  = parse_draws (U:=plain_ucd) example_csv_swapped.
Proof.
  apply (X10_row_order (U:=plain_ucd) example_csv example_csv_swapped
           [example_first; example_latest] [example_latest; example_first]).
  - vm_compute. reflexivity.
  - vm_compute. reflexivity.
  - apply perm_swap.
  - apply (bool_decide_unpack _). vm_compute. exact I.
Defined.

(** X11: every draw of the list returned was made out of a row of the
    sheet, and its date is a text of four digits, a dot, two digits, a
    dot, two digits that the format [%Y.%m.%d] reads as a date of the
    calendar: no draw with another date is ever returned, or
    written. *)
Theorem X11_draws_are_valid `{U : UnicodeData} csv_text draws d :
  parse_draws csv_text = Ok draws → d ∈ draws →
  (∃ rows raw n,
     csv_rows csv_text = Some (rows, None) ∧ raw ∈ rows
     ∧ parse_row n raw = Ok (Some d))
  ∧ date_pattern (date d) ∧ calendar_date (date d)
  ∧ length (date d) = 10%nat.
Proof.
  intros (rows & parsed & Er & Ep & Hne & ->)%parse_draws_Ok Hd.
  rewrite sorted_by_round_perm in Hd.
  destruct (parse_rows_elem _ _ _ _ _ Ep Hd) as [?%elem_of_nil|(raw & n & Hin & Hr)];
    [done|].
  destruct (parse_row_date _ _ _ Hr) as [Hp Hc].
  split_and!; try done.
  - by exists rows, raw, n.
  - by destruct Hp as (? & ? & ? & ? & ? & ? & ? & ? & -> & _).
Qed.

Lemma X11_witness :
  date_pattern (U:=plain_ucd) (date example_latest)
  ∧ calendar_date (U:=plain_ucd) (date example_latest)
  ∧ length (date example_latest) = 10%nat.
Proof.
  apply (X11_draws_are_valid (U:=plain_ucd) example_csv
           [example_first; example_latest] example_latest).
  - vm_compute. reflexivity.
  - right. left.
Defined.

(** ** White space *)

(** X12: the white space around a cell does not count: a row is read as
    the row with every cell trimmed is. *)
Theorem X12_cells_are_trimmed `{U : UnicodeData} (raw : Csv.raw_row) (n : Z) :
  parse_row n raw = parse_row n (trimmed raw).
Proof. apply parse_row_normalize. by rewrite normalize_row_trimmed. Qed.

(** ** Numbers and the file *)

(** X13: [parse_int] reads back the decimal text of every integer, a
    negative one or zero as well as a positive one, as long as the text
    is within the limit of the interpreter on such conversions: what
    [str] and [json.dumps] write of a number, [int] reads as the
    number. *)
Theorem X13_int_reads_str `{U : UnicodeData} (z : Z) (name : pystr) (n : Z) :
  short_int z →
  parse_int (str_of_int z) name n = Ok z
  ∧ parse_int (Json.encode (Json.JInt z)) name n = Ok z.
Proof.
  intros Hz. split; by apply parse_int_Some, int_str_of_int.
Qed.

Lemma X13_witness :
  parse_int (U:=plain_ucd) (str_of_int (-42)) (u"round") 2 = Ok (-42)%Z.
Proof.
  apply (X13_int_reads_str (U:=plain_ucd) (-42) (u"round") 2).
  unfold short_int. vm_compute. discriminate.
Defined.

(** X14: the text written to [lotto.json] determines the draw: two
    draws that differ, in a number or in the date, are never written as
    the same text, and two files the writer has written for them
    differ. *)
Theorem X14_file_determines_draw (d d' : Draw) :
  d ≠ d' →
  Json.dumps (draw_items d) ≠ Json.dumps (draw_items d')
  ∧ ∀ w w' path,
      (write_json path (draw_items d) w).2 = Ok () →
      (write_json path (draw_items d') w').2 = Ok () →
      files (write_json path (draw_items d) w).1 !! path
      ≠ files (write_json path (draw_items d') w').1 !! path.
Proof.
  intros Hne. split.
  - intros H. by apply Hne, dumps_draw_inj.
  - intros w w' path Hw Hw'.
    rewrite (write_json_written _ _ _ Hw), (write_json_written _ _ _ Hw').
    cbn [fst files set_files].
    rewrite !lookup_insert_eq. intros H. apply Hne, dumps_draw_inj.
    apply (inj Some) in H. by apply app_inv_tail in H.
Qed.

Lemma X14_witness :
  Json.dumps (draw_items example_first) ≠ Json.dumps (draw_items example_latest).
Proof.
  apply (X14_file_determines_draw example_first example_latest).
  discriminate.
Defined.

(** ** The errors of the parser *)

(** X15: the parser raises [CSV header not found.] exactly when the
    text is empty or begins with a line break, that is when there is no
    first line or the first line is empty. *)
Theorem X15_header_not_found `{U : UnicodeData} (csv_text : pystr) :
  parse_draws csv_text = Raise err_header
  ↔ csv_text = [] ∨ blank_first_line csv_text.
Proof.
  split; [|apply parse_draws_header].
  intros H. apply parse_draws_Raise in H
    as [[_ ?]|[H|[H|(rows & pending & k & raw & _ & _ & _ & H)]]]; [done|..].
  - vm_compute in H. discriminate H.
  - vm_compute in H. discriminate H.
  - apply row_error_names_row, names_row_not_header in H as [H _]. done.
Qed.

Lemma X15_witness :
  parse_draws (U:=plain_ucd) ([10] ++ example_csv) = Raise err_header.
Proof.
  apply (X15_header_not_found (U:=plain_ucd)). right.
  eexists _, _. split; reflexivity.
Defined.

(** X16: the parser raises nothing but the error of the missing header,
    the error of the empty result, the error of the reader on a field
    beyond its size limit, and the errors of a row: missing fields, an
    invalid integer in one of the eight numbers, an invalid date
    format, an invalid calendar date.  An error of a row is the one of
    the first row that fails and names its number, 2 for the first row
    after the header. *)
Theorem X16_parser_errors `{U : UnicodeData} (csv_text : pystr) (e : exn) :
  parse_draws csv_text = Raise e →
  e = err_header ∨ e = err_no_rows ∨ e = err_field_limit
  ∨ ∃ rows pending k raw,
      csv_rows csv_text = Some (rows, pending) ∧ rows !! k = Some raw
      ∧ Forall (λ r, ¬ row_fails r) (take k rows)
      ∧ row_error (2 + Z.of_nat k) raw e
      ∧ names_row e (2 + Z.of_nat k).
Proof.
  intros H. apply parse_draws_Raise in H
    as [[? _]|[?|[?|(rows & pending & k & raw & ? & ? & ? & He)]]];
    [by left|by right; left|by right; right; left|].
  do 3 right. exists rows, pending, k, raw. split_and!; try done.
  by apply (row_error_names_row _ raw).
Qed.

Lemma X16_witness :
  err_integer 2 (u"round") (u"x") = err_header
  ∨ err_integer 2 (u"round") (u"x") = err_no_rows
  ∨ err_integer 2 (u"round") (u"x") = err_field_limit
  ∨ ∃ rows pending k raw,
      csv_rows bad_first_row_csv = Some (rows, pending) ∧ rows !! k = Some raw
      ∧ Forall (λ r, ¬ row_fails (U:=plain_ucd) r) (take k rows)
      ∧ row_error (U:=plain_ucd) (2 + Z.of_nat k) raw
          (err_integer 2 (u"round") (u"x"))
      ∧ names_row (err_integer 2 (u"round") (u"x")) (2 + Z.of_nat k).
Proof.
  apply (X16_parser_errors (U:=plain_ucd) bad_first_row_csv).
  vm_compute. reflexivity.
Defined.

(** ** Sheets and lines *)

(** X17: a sheet written out of draws is read back as these draws: for
    a list of draws that is not empty, each with a date the validator
    accepts and numbers of any sign and size within the limit of the
    interpreter, the text made of the header of the nine canonical keys
    and of one line for each draw, its cells separated by commas, is
    parsed into the draws, sorted by round.  No number is refused for
    its value: the parser checks no range. *)
Theorem X17_sheet_round_trip `{U : UnicodeData} (draws : list Draw) :
  draws ≠ [] → Forall writable draws →
  parse_draws (csv_of_draws draws) = Ok (sorted_by_round draws).
Proof.
  intros Hne Hw.
  rewrite (parse_draws_rows _ _ _ (written_csv_rows draws Hw)).
  rewrite written_rows by done. rewrite bind_Ok. cbn [app]. by destruct draws.
Qed.

Lemma X17_witness :
  parse_draws (U:=plain_ucd) (csv_of_draws [example_latest; example_first])
  = Ok (sorted_by_round [example_latest; example_first]).
Proof.
  apply (X17_sheet_round_trip (U:=plain_ucd) [example_latest; example_first]).
  - discriminate.
  - exact examples_writable.
Defined.

(** X18: the reader gives back the cells of the lines it is given: when
    every line is made of the texts of its cells separated by commas, a
    cell being written as it is if it has no comma, no double quote and
    no line break, or between double quotes with its double quotes
    doubled, the records read are the lists of the cells, line by line,
    and the reader raises nothing. *)
Theorem X18_reader_reads_cells (rows : list (list pystr)) (lines : list pystr) :
  Forall2 (λ cells line,
             ∃ texts, Forall2 cell_text cells texts ∧ line = join (u",") texts)
    rows lines →
  Forall (λ line, line ≠ []) lines →
  Forall (Forall (λ cell, one_line cell ∧ fits cell)) rows →
  Csv.reader (Csv.splitlines (join [10] lines)) = (rows, None).
Proof.
  intros Hrows Hne Hcells.
  assert (Forall2 (λ cells line,
            ∃ texts, line = join (u",") texts ∧ Forall2 cell_text cells texts
                     ∧ line ≠ [] ∧ Forall fits cells) rows lines
          ∧ Forall one_line lines) as [H2 Hl].
  { induction Hrows as [|cells line rows lines (texts & Ht & ->) Hrows IH].
    { split; constructor. }
    apply Forall_cons in Hne as [Hline Hne].
    apply Forall_cons in Hcells as [Hc Hcells].
    destruct (IH Hne Hcells) as [IH1 IH2]. split; constructor; try done.
    - exists texts. split_and!; try done.
      eapply Forall_impl; [exact Hc|]. by intros cell [_ ?].
    - apply (one_line_texts cells); [done|].
      eapply Forall_impl; [exact Hc|]. by intros cell [? _]. }
  rewrite (splitlines_join [10]) by (done || by left).
  rewrite lines_of_nonempty by done. by apply records_read.
Qed.

Lemma X18_witness :
  Csv.reader (Csv.splitlines
    (join [10] [csv_quoted (u"a,b") ++ u"," ++ u"c";
                u"d" ++ u"," ++ csv_quoted ([34] ++ u"e" ++ [34])]))
  = ([[u"a,b"; u"c"]; [u"d"; [34] ++ u"e" ++ [34]]], None).
Proof.
  pose proof (X18_reader_reads_cells
                [[u"a,b"; u"c"]; [u"d"; [34] ++ u"e" ++ [34]]]
                [csv_quoted (u"a,b") ++ u"," ++ u"c";
                 u"d" ++ u"," ++ csv_quoted ([34] ++ u"e" ++ [34])]) as H.
  apply H; clear H.
  - constructor; [|constructor; [|constructor]].
    + exists [csv_quoted (u"a,b"); u"c"]. split; [|reflexivity].
      constructor; [apply cell_quoted|]. constructor; [|constructor].
      apply cell_plain. by repeat constructor.
    + exists [u"d"; csv_quoted ([34] ++ u"e" ++ [34])]. split; [|reflexivity].
      constructor; [apply cell_plain; by repeat constructor|].
      constructor; [apply cell_quoted|constructor].
  - by repeat constructor.
  - repeat constructor; unfold fits; by vm_compute.
Defined.

(** X19: the line break between the lines does not matter: a text whose
    lines are separated by a carriage return and a line feed, or by a
    carriage return alone, is parsed as the text whose lines are
    separated by a line feed. *)
Theorem X19_line_endings `{U : UnicodeData} (lines : list pystr) :
  Forall one_line lines →
  parse_draws (join [13; 10] lines) = parse_draws (join [10] lines)
  ∧ parse_draws (join [13] lines) = parse_draws (join [10] lines).
Proof.
  intros Hl. split; apply parse_draws_splitlines;
    rewrite !splitlines_join; try done; auto.
Qed.

Lemma X19_witness :
  parse_draws (U:=plain_ucd)
    (join [13; 10]
       [u"round,date,num1,num2,num3,num4,num5,num6,bonusNumber";
        u"1,2024.01.06,1,2,3,4,5,6,7";
        u"2,2024.01.13,8,9,10,11,12,13,14"])
  = parse_draws (U:=plain_ucd)
      (join [10]
         [u"round,date,num1,num2,num3,num4,num5,num6,bonusNumber";
          u"1,2024.01.06,1,2,3,4,5,6,7";
          u"2,2024.01.13,8,9,10,11,12,13,14"]).
Proof.
  pose proof (X19_line_endings (U:=plain_ucd)
    [u"round,date,num1,num2,num3,num4,num5,num6,bonusNumber";
     u"1,2024.01.06,1,2,3,4,5,6,7";
     u"2,2024.01.13,8,9,10,11,12,13,14"]) as H.
  destruct H as [H _]; [|exact H].
  unfold one_line. apply (bool_decide_unpack _). vm_compute. exact I.
Defined.

(** X20: a text of at most 131072 characters never makes the reader
    fail: whatever the parser raises on it, it is no error of the
    [csv] module. *)
Theorem X20_short_text_no_reader_error `{U : UnicodeData}
    (csv_text : pystr) (e : exn) :
  N.of_nat (length csv_text) ≤ Csv.field_size_limit →
  parse_draws csv_text = Raise e →
  e ≠ err_field_limit ∧ exn_cls e ≠ CsvError.
Proof.
  intros Hlen H. pose proof (parse_draws_short _ _ Hlen H) as Hc.
  split; [|done]. by intros ->.
Qed.

Lemma X20_witness :
  err_integer 2 (u"round") (u"x") ≠ err_field_limit
  ∧ exn_cls (err_integer 2 (u"round") (u"x")) ≠ CsvError.
Proof.
  apply (X20_short_text_no_reader_error (U:=plain_ucd) bad_first_row_csv).
  - vm_compute. discriminate.
  - vm_compute. reflexivity.
Defined.

(** X21: a line break after the last line makes no difference: a text
    that does not end with a line break is parsed as the text followed
    by a line feed, by a carriage return or by both is. *)
Theorem X21_final_line_break `{U : UnicodeData} (csv_text : pystr) (c : N) :
  last csv_text = Some c → Csv.is_linebreak c = false →
  parse_draws (csv_text ++ [10]) = parse_draws csv_text
  ∧ parse_draws (csv_text ++ [13]) = parse_draws csv_text
  ∧ parse_draws (csv_text ++ [13; 10]) = parse_draws csv_text.
Proof.
  intros Hl Hc. split_and!; apply parse_draws_splitlines, splitlines_final;
    eauto.
Qed.

Lemma X21_witness :
  parse_draws (U:=plain_ucd) (example_csv ++ [10])
  = parse_draws (U:=plain_ucd) example_csv.
Proof.
  pose proof (X21_final_line_break (U:=plain_ucd) example_csv 52) as H.
  destruct H as [H _]; [vm_compute; reflexivity|reflexivity|exact H].
Defined.

(** ** Names *)

(** X22: normalising a name twice is normalising it once: for a name of
    ASCII and Hangul characters the normalised name is its own
    normalised name, so that a header already in the form of the table
    stands for itself. *)
Theorem X22_normalize_key_idempotent `{U : UnicodeData} (h : pystr) :
  Forall (λ c, plain c = true) h →
  normalize_key (normalize_key h) = normalize_key h.
Proof. apply normalize_key_idemp. Qed.

Lemma X22_witness :
  normalize_key (U:=plain_ucd) (normalize_key (U:=plain_ucd) (u"Draw No"))
  = normalize_key (U:=plain_ucd) (u"Draw No").
Proof.
  apply (X22_normalize_key_idempotent (U:=plain_ucd) (u"Draw No")).
  apply (bool_decide_unpack _). vm_compute. exact I.
Defined.

(** ** Empty lines *)

(** X23: an empty line after the first line makes no difference: a text
    with an empty line among its lines, between two rows, at the end or
    inside a quoted cell that runs over several lines, is parsed as the
    text without it, whether into draws or into an error, the number of
    the row in the error included. *)
Theorem X23_empty_lines `{U : UnicodeData} (before after : list pystr) :
  before ≠ [] → Forall one_line (before ++ after) →
  parse_draws (join [10] (before ++ [] :: after))
  = parse_draws (join [10] (before ++ after)).
Proof.
  intros Hne Hl. rewrite !parse_draws_lines.
  assert (Forall one_line (before ++ [] :: after)) as Hl'.
  { apply Forall_app in Hl as [Hb Ha]. apply Forall_app. split; [done|].
    apply Forall_cons. split; [constructor|done]. }
  rewrite (splitlines_join [10] (before ++ [] :: after)) by (done || by left).
  rewrite (splitlines_join [10] (before ++ after)) by (done || by left).
  rewrite !parse_lines_of. apply parse_lines_blank. by left.
Qed.

Lemma X23_witness :
  parse_draws (U:=plain_ucd)
    (join [10]
       ([u"round,date,num1,num2,num3,num4,num5,num6,bonus";
         u",2024.01.06,1,2,3,4,5,6,7"]
        ++ [] :: [u"x,2024.01.06,1,2,3,4,5,6,7"]))
  = parse_draws (U:=plain_ucd)
      (join [10]
         ([u"round,date,num1,num2,num3,num4,num5,num6,bonus";
           u",2024.01.06,1,2,3,4,5,6,7"]
          ++ [u"x,2024.01.06,1,2,3,4,5,6,7"])).
Proof.
  pose proof (X23_empty_lines (U:=plain_ucd)
    [u"round,date,num1,num2,num3,num4,num5,num6,bonus";
     u",2024.01.06,1,2,3,4,5,6,7"]
    [u"x,2024.01.06,1,2,3,4,5,6,7"]) as H.
  apply H; clear H; [discriminate|].
  unfold one_line. apply (bool_decide_unpack _). vm_compute. exact I.
Defined.

(** ** The spelling of the headers *)

(** X24: the spelling of the headers does not matter: a row whose
    headers differ from those of another row in case and in characters
    that are not alphanumeric only, the cells being the same, is read
    as the other: it gives the same draw, is passed over as the other
    is, or raises the same error. *)
Theorem X24_header_spelling `{U : UnicodeData} (raw raw' : Csv.raw_row) (n : Z) :
  Forall2 same_column (Csv.items raw) (Csv.items raw') →
  parse_row n raw = parse_row n raw'.
Proof.
  intros H. apply parse_row_ext. intros a Ha. by apply normalize_row_spelling.
Qed.

Lemma X24_witness :
  parse_row (U:=plain_ucd) 2
    {| Csv.items := [(u"Draw No", Some (u"1")); (u"DATE", Some (u"2024.01.06"))];
       Csv.rest_item := None |}
  = parse_row (U:=plain_ucd) 2
      {| Csv.items := [(u"DRAW_NO", Some (u"1")); (u"date", Some (u"2024.01.06"))];
         Csv.rest_item := None |}.
Proof.
  apply (X24_header_spelling (U:=plain_ucd)). cbn [Csv.items].
  apply Forall2_cons_2; [split; [exact same_header_draw_no|reflexivity]|].
  apply Forall2_cons_2; [|apply Forall2_nil_2].
  split; [|reflexivity]. cbn [fst]. vm_compute.
  repeat first
    [ apply same_nil
    | apply same_header_case; [reflexivity|reflexivity|reflexivity|] ].
Defined.
